(** * Spread composition and printer marks (createSpreadPage, drawCutMarks,
      drawMiddleMarks)

    A shallow embedding of the three geometry modules of the PDF arranger:
    [src/utils/drawCutMarks.js], [src/utils/drawMiddleMarks.js] and
    [src/utils/createSpreadPage.js].

    - JavaScript numbers are IEEE-754 binary64 values; they are modelled by
      Rocq's primitive floats, whose [+] and [-] round to nearest-even exactly
      as the JavaScript operators do.
    - The pdf-lib document is a mutable object shared between the caller, the
      composer and the two renderers.  It is modelled as a store (the list of
      its pages); a page object is a reference into that store, so a draw call
      made through the reference is visible through the document.
    - pdf-lib itself is not part of the sources.  Its three primitives
      ([doc.addPage], [page.drawPage], [page.drawLine]) record what they are
      asked to do, after a validation of their own that is a parameter of the
      development and may throw.
    - Every formula of the specification is read in the arithmetic of the
      program: [+] and [-] are the binary64 operations, [<], [<=] and [==]
      the binary64 comparisons.  Module [Binary64] derives what is needed
      about them from the specification of the primitive floats. *)

From Stdlib Require Import List Bool Arith ZArith Lia.
From Stdlib Require Import Floats.
Import ListNotations.

(** ** Data model *)

(** A JavaScript [number]. *)
Definition number : Type := float.
Bind Scope float_scope with number.

(** [{ x, y }] *)
Record Point : Type := mkPoint { pt_x : number; pt_y : number }.

(** The value returned by pdf-lib's [rgb(r, g, b)]. *)
Inductive Color : Type := rgb (red green blue : number).

Definition black : Color := rgb 0 0 0.

(** The argument of [page.drawLine]: [{ start, end, thickness, color }]. *)
Record LineOptions : Type := mkLine {
  line_start : Point;
  line_end : Point;
  line_thickness : number;
  line_color : Color
}.

(** The second argument of [page.drawPage]: [{ x, y, width, height }]. *)
Record DrawPageOptions : Type := mkRect {
  rect_x : number;
  rect_y : number;
  rect_width : number;
  rect_height : number
}.

(** An embedded page is an opaque handle supplied by the caller. *)
Inductive PDFEmbeddedPage : Type := EmbeddedPage (id : nat).

(** What a page has been asked to draw, in call order. *)
Inductive Operator : Type :=
| OpDrawPage (embedded : PDFEmbeddedPage) (options : DrawPageOptions)
| OpDrawLine (options : LineOptions).

Record PDFPage : Type := mkPage {
  page_size : number * number;
  page_contents : list Operator
}.

(** The document owns its pages; a page object is its index in the document. *)
Definition PDFDocument : Type := list PDFPage.
Definition PageRef : Type := nat.

(** The options object destructured by [createSpreadPage].  A property that
    may be left out ([undefined]) is an [option]. *)
Record SpreadOptions : Type := mkSpread {
  leftPage : option PDFEmbeddedPage;
  rightPage : option PDFEmbeddedPage;
  width : number;
  height : number;
  marginX : number;
  marginY : number;
  imgWidth : number;
  imgHeight : number;
  bleed : number;
  extraGutter : option number
}.

(** The options object destructured by [drawMiddleMarks]. *)
Record MiddleMarkOptions : Type := mkMiddle {
  mm_imgWidth : number;
  mm_bleed : number;
  mm_finalHeight : number;
  mm_extraGutter : option number;
  mm_offset1 : option number;
  mm_offset2 : option number
}.

(** A destructuring default: [name = d] takes [d] when the property is
    [undefined]. *)
Definition default (d : number) (v : option number) : number :=
  match v with
  | Some n => n
  | None => d
  end.

(** ** Computations that mutate the document and may throw *)

Inductive Outcome (E A : Type) : Type :=
| Returned (value : A) (doc : PDFDocument)
| Threw (error : E) (doc : PDFDocument).

Arguments Returned {E A} value doc.
Arguments Threw {E A} error doc.

Definition Js (E A : Type) : Type := PDFDocument -> Outcome E A.

Definition ret {E A : Type} (a : A) : Js E A := fun doc => Returned a doc.

Definition bind {E A B : Type} (m : Js E A) (k : A -> Js E B) : Js E B :=
  fun doc =>
    match m doc with
    | Returned a doc' => k a doc'
    | Threw e doc' => Threw e doc'
    end.

Declare Scope js_scope.
Delimit Scope js_scope with js.
Notation "'const' x ':=' m ';' k" := (bind m (fun x => k))
  (at level 100, x name, m at level 99, k at level 200) : js_scope.
Notation "m ';;' k" := (bind m (fun _ => k))
  (at level 100, k at level 200, right associativity) : js_scope.

(** ** The pdf-lib primitives *)

(** The validation pdf-lib performs inside each primitive: [Some e] when the
    primitive throws [e] for these arguments in this document state. *)
Record Primitives (E : Type) : Type := mkPrimitives {
  addPage_throws : PDFDocument -> number * number -> option E;
  drawPage_throws : PDFDocument -> PDFEmbeddedPage -> DrawPageOptions -> option E;
  drawLine_throws : PDFDocument -> LineOptions -> option E
}.

Arguments addPage_throws {E} _ _ _.
Arguments drawPage_throws {E} _ _ _ _.
Arguments drawLine_throws {E} _ _ _.

(** Primitives that accept every argument; they have no error to throw. *)
Definition accepting : Primitives Empty_set :=
  {| addPage_throws := fun _ _ => None;
     drawPage_throws := fun _ _ _ => None;
     drawLine_throws := fun _ _ => None |}.

Definition append_operator (op : Operator) (p : PDFPage) : PDFPage :=
  {| page_size := page_size p; page_contents := page_contents p ++ [op] |}.

(** In-place update of the page behind a reference. *)
Fixpoint modify (page : PageRef) (f : PDFPage -> PDFPage) (doc : PDFDocument)
  : PDFDocument :=
  match doc, page with
  | [], _ => []
  | p :: rest, O => f p :: rest
  | p :: rest, S n => p :: modify n f rest
  end.

Section Composer.

Variable E : Type.
Variable pdflib : Primitives E.

Local Open Scope js_scope.
Local Open Scope float_scope.

(** [doc.addPage([width, height])]: a new empty page is appended to the
    document and returned. *)
Definition addPage (size : number * number) : Js E PageRef :=
  fun doc =>
    match addPage_throws pdflib doc size with
    | Some e => Threw e doc
    | None =>
        Returned (length doc)
                 (doc ++ [{| page_size := size; page_contents := [] |}])
    end.

(** [page.drawPage(embedded, options)] *)
Definition page_drawPage (page : PageRef) (embedded : PDFEmbeddedPage)
           (options : DrawPageOptions) : Js E unit :=
  fun doc =>
    match drawPage_throws pdflib doc embedded options with
    | Some e => Threw e doc
    | None =>
        Returned tt (modify page (append_operator (OpDrawPage embedded options)) doc)
    end.

(** [page.drawLine(options)] *)
Definition page_drawLine (page : PageRef) (options : LineOptions) : Js E unit :=
  fun doc =>
    match drawLine_throws pdflib doc options with
    | Some e => Threw e doc
    | None => Returned tt (modify page (append_operator (OpDrawLine options)) doc)
    end.

(** ** drawCutMarks.js *)

Definition drawCutMarks (page : PageRef) (width height bleed : number)
  : Js E unit :=
  let drawLine (x1 y1 x2 y2 : number) : Js E unit :=
    page_drawLine page
      {| line_start := {| pt_x := x1; pt_y := y1 |};
         line_end := {| pt_x := x2; pt_y := y2 |};
         line_thickness := 1;
         line_color := rgb 0 0 0 |} in
  (* Bottom-Left *)
  drawLine (bleed - 10) (bleed + 7) bleed (bleed + 7) ;;
  drawLine (bleed + 7) (bleed - 10) (bleed + 7) bleed ;;
  (* Bottom-Right *)
  drawLine (width - bleed) (bleed + 7) (width - bleed + 10) (bleed + 7) ;;
  drawLine (width - bleed - 7) (bleed - 10) (width - bleed - 7) bleed ;;
  (* Top-Left *)
  drawLine (bleed - 10) (height - bleed - 16) (bleed + 1) (height - bleed - 16) ;;
  drawLine (bleed + 7) (height - bleed - 10) (bleed + 7) (height - bleed) ;;
  (* Top-Right *)
  drawLine (width - bleed - 2) (height - bleed - 16)
           (width - bleed + 9) (height - bleed - 16) ;;
  drawLine (width - bleed - 8) (height - bleed - 9)
           (width - bleed - 8) (height - bleed + 1).

(** ** drawMiddleMarks.js *)

Definition drawMiddleMarks (page : PageRef) (options : MiddleMarkOptions)
  : Js E unit :=
  let imgWidth := mm_imgWidth options in
  let bleed := mm_bleed options in
  let finalHeight := mm_finalHeight options in
  let extraGutter := default 0 (mm_extraGutter options) in
  let offset1 := default (-1) (mm_offset1 options) in
  let offset2 := default 30 (mm_offset2 options) in
  let centerX1 := imgWidth + bleed + offset1 in
  let centerX2 := imgWidth + bleed + extraGutter in
  let centerX3 := imgWidth + bleed + offset2 in
  let drawLine (x y1 y2 : number) : Js E unit :=
    page_drawLine page
      {| line_start := {| pt_x := x; pt_y := y1 |};
         line_end := {| pt_x := x; pt_y := y2 |};
         line_thickness := 1;
         line_color := rgb 0 0 0 |} in
  drawLine (centerX1 + 1) (bleed - 10) bleed ;;
  drawLine (centerX1 + 1) (finalHeight - bleed - 10) (finalHeight - bleed).

(** ** createSpreadPage.js *)

(** [if (embedded) { ... }]: an absent ([undefined]) page is falsy, an
    embedded page object is truthy. *)
Definition when_present (embedded : option PDFEmbeddedPage)
           (body : PDFEmbeddedPage -> Js E unit) : Js E unit :=
  match embedded with
  | Some e => body e
  | None => ret tt
  end.

Definition createSpreadPage (options : SpreadOptions) : Js E PageRef :=
  let leftPage := leftPage options in
  let rightPage := rightPage options in
  let width := width options in
  let height := height options in
  let marginX := marginX options in
  let marginY := marginY options in
  let imgWidth := imgWidth options in
  let imgHeight := imgHeight options in
  let bleed := bleed options in
  let extraGutter := default 0 (extraGutter options) in
  const page := addPage (width, height) ;
  when_present leftPage (fun leftPage =>
    page_drawPage page leftPage
      {| rect_x := marginX; rect_y := marginY;
         rect_width := imgWidth; rect_height := imgHeight |}) ;;
  when_present rightPage (fun rightPage =>
    page_drawPage page rightPage
      {| rect_x := marginX + imgWidth; rect_y := marginY;
         rect_width := imgWidth; rect_height := imgHeight |}) ;;
  drawCutMarks page width height bleed ;;
  drawMiddleMarks page
    {| mm_imgWidth := imgWidth;
       mm_bleed := bleed;
       mm_finalHeight := height;
       mm_extraGutter := Some extraGutter;
       mm_offset1 := None;
       mm_offset2 := None |} ;;
  ret page.

End Composer.

Arguments addPage {E} pdflib size doc.
Arguments page_drawPage {E} pdflib page embedded options doc.
Arguments page_drawLine {E} pdflib page options doc.
Arguments drawCutMarks {E} pdflib page width height bleed doc.
Arguments drawMiddleMarks {E} pdflib page options doc.
Arguments when_present {E} embedded body doc.
Arguments createSpreadPage {E} pdflib options doc.

(** ** Reading a document *)

(** The page with [ops] drawn after what it already holds. *)
Definition draw_all (ops : list Operator) (p : PDFPage) : PDFPage :=
  {| page_size := page_size p; page_contents := page_contents p ++ ops |}.

(** The image placements of a page, in call order. *)
Fixpoint placements (ops : list Operator)
  : list (PDFEmbeddedPage * DrawPageOptions) :=
  match ops with
  | [] => []
  | OpDrawPage e o :: rest => (e, o) :: placements rest
  | OpDrawLine _ :: rest => placements rest
  end.

(** The line segments of a page, in call order. *)
Fixpoint segments (ops : list Operator) : list LineOptions :=
  match ops with
  | [] => []
  | OpDrawPage _ _ :: rest => segments rest
  | OpDrawLine l :: rest => l :: segments rest
  end.

(** ** The tables of the specification *)

(** A mark: a segment of stroke width 1, in black. *)
Definition mark (x1 y1 x2 y2 : number) : LineOptions :=
  {| line_start := {| pt_x := x1; pt_y := y1 |};
     line_end := {| pt_x := x2; pt_y := y2 |};
     line_thickness := 1;
     line_color := black |}.

(** The offset table of §4.2, row by row (from, to). *)
Definition cut_mark_table (width height bleed : number) : list LineOptions :=
  [ (* Bottom-left, horizontal *)
    mark (bleed - 10) (bleed + 7) bleed (bleed + 7);
    (* Bottom-left, vertical *)
    mark (bleed + 7) (bleed - 10) (bleed + 7) bleed;
    (* Bottom-right, horizontal *)
    mark (width - bleed) (bleed + 7) (width - bleed + 10) (bleed + 7);
    (* Bottom-right, vertical *)
    mark (width - bleed - 7) (bleed - 10) (width - bleed - 7) bleed;
    (* Top-left, horizontal *)
    mark (bleed - 10) (height - bleed - 16) (bleed + 1) (height - bleed - 16);
    (* Top-left, vertical *)
    mark (bleed + 7) (height - bleed - 10) (bleed + 7) (height - bleed);
    (* Top-right, horizontal *)
    mark (width - bleed - 2) (height - bleed - 16)
         (width - bleed + 9) (height - bleed - 16);
    (* Top-right, vertical *)
    mark (width - bleed - 8) (height - bleed - 9)
         (width - bleed - 8) (height - bleed + 1) ]%float.

(** The two ticks of §4.3 at abscissa [x]. *)
Definition gutter_marks (x bleed finalHeight : number) : list LineOptions :=
  [ mark x (bleed - 10) x bleed;
    mark x (finalHeight - bleed - 10) x (finalHeight - bleed) ]%float.

(** The two placement rectangles of §4.1. *)
Definition left_rect (o : SpreadOptions) : DrawPageOptions :=
  {| rect_x := marginX o; rect_y := marginY o;
     rect_width := imgWidth o; rect_height := imgHeight o |}.

Definition right_rect (o : SpreadOptions) : DrawPageOptions :=
  {| rect_x := marginX o + imgWidth o; rect_y := marginY o;
     rect_width := imgWidth o; rect_height := imgHeight o |}.

(** The placement call of one side: none when the side is absent. *)
Definition place (side : option PDFEmbeddedPage) (r : DrawPageOptions)
  : list Operator :=
  match side with
  | Some e => [OpDrawPage e r]
  | None => []
  end.


(** The ten marks of a spread: the cut marks, then the gutter ticks with
    [offset1] left at its default. *)
Definition spread_marks (o : SpreadOptions) : list LineOptions :=
  cut_mark_table (width o) (height o) (bleed o) ++
  gutter_marks (imgWidth o + bleed o + -1 + 1) (bleed o) (height o).

Definition spread_contents (o : SpreadOptions) : list Operator :=
  place (leftPage o) (left_rect o) ++
  place (rightPage o) (right_rect o) ++
  map OpDrawLine (spread_marks o).

(** [options] with other values for [extraGutter] and [offset2]. *)
Definition with_gutter (o : MiddleMarkOptions) (extraGutter offset2 : option number)
  : MiddleMarkOptions :=
  {| mm_imgWidth := mm_imgWidth o;
     mm_bleed := mm_bleed o;
     mm_finalHeight := mm_finalHeight o;
     mm_extraGutter := extraGutter;
     mm_offset1 := mm_offset1 o;
     mm_offset2 := offset2 |}.

(** The abscissa of every end point of a segment is [x]. *)
Definition at_abscissa (x : number) (l : LineOptions) : Prop :=
  pt_x (line_start l) = x /\ pt_x (line_end l) = x.

(** *** Rectangles as regions of the plane *)

(** The value of a finite binary64 number, counted in units of [2 ^ -1074]:
    every finite double is a whole number of them.  The infinities and NaN
    have no value. *)
Definition units (x : number) : option Z :=
  match Prim2SF x with
  | S754_zero _ => Some 0%Z
  | S754_finite s m e => Some (cond_Zopp s (Zpos m * 2 ^ (e + 1074)))%Z
  | S754_infinity _ | S754_nan => None
  end.

(** The extent of a rectangle along one axis, from its origin [x] and its
    size, both in units and taken as they are: no rounding takes place.  A
    placement of negative width is drawn mirrored, to the left of its [x]:
    its extent runs from [x + size] to [x]. *)
Definition extent_lo (x size : Z) : Z := Z.min x (x + size).

Definition extent_hi (x size : Z) : Z := Z.max x (x + size).

(** The part of the plane a placement covers, in units. *)
Record Region : Type := mkRegion { x_lo : Z; x_hi : Z; y_lo : Z; y_hi : Z }.

Definition region (r : DrawPageOptions) : option Region :=
  match units (rect_x r), units (rect_y r),
        units (rect_width r), units (rect_height r) with
  | Some x, Some y, Some w, Some h =>
      Some {| x_lo := extent_lo x w; x_hi := extent_hi x w;
              y_lo := extent_lo y h; y_hi := extent_hi y h |}
  | _, _, _, _ => None
  end.

(** Two rectangles overlap when their extents intersect on both axes; the
    test has no answer when a coordinate is infinite or NaN. *)
Definition rect_overlap (a b : DrawPageOptions) : option bool :=
  match region a, region b with
  | Some ra, Some rb =>
      Some ((x_lo ra <? x_hi rb) && (x_lo rb <? x_hi ra) &&
            (y_lo ra <? y_hi rb) && (y_lo rb <? y_hi ra))%Z
  | _, _ => None
  end.

(** The point [(px, py)] lies in the rectangle, lower bounds included. *)
Definition inside (r : DrawPageOptions) (px py : number) : Prop :=
  exists (g : Region) (p q : Z),
    region r = Some g /\ units px = Some p /\ units py = Some q /\
    (x_lo g <= p < x_hi g)%Z /\ (y_lo g <= q < y_hi g)%Z.

(** The binary64 sum [a + b] is not short of the sum of the values of [a]
    and [b]: rounding left it where it is (the sum is exact) or moved it
    further in the direction of [b], never back towards [a]. *)
Definition sum_reaches (a b : number) : bool :=
  match units a, units b, units (a + b)%float with
  | Some x, Some y, Some z =>
      (if 0 <=? y then x + y <=? z else z <=? x + y)%Z
  | _, _, _ => false
  end.

(** The value of [x] is the whole number [k]. *)
Definition whole (x : number) (k : Z) : Prop := units x = Some (k * 2 ^ 1074)%Z.

Definition is_finite (x : number) : bool :=
  match units x with
  | Some _ => true
  | None => false
  end.



(** A blank page and the spread of the scenario of §8. *)
Definition blank (w h : number) : PDFPage :=
  {| page_size := (w, h); page_contents := [] |}.

Definition scenario : SpreadOptions :=
  {| leftPage := Some (EmbeddedPage 0);
     rightPage := Some (EmbeddedPage 1);
     width := 1224; height := 792;
     marginX := 36; marginY := 36;
     imgWidth := 576; imgHeight := 720;
     bleed := 18;
     extraGutter := Some 0%float |}.


(** A spread narrower than one point: [imgWidth] is the double written [0.1]
    in JavaScript. *)
Definition narrow : SpreadOptions :=
  {| leftPage := None;
     rightPage := None;
     width := 2; height := 2;
     marginX := 0; marginY := 0;
     imgWidth := 0x1.999999999999ap-4; imgHeight := 1;
     bleed := 0;
     extraGutter := None |}.

(** A spread whose every dimension is negative or zero. *)
Definition degenerate : SpreadOptions :=
  {| leftPage := Some (EmbeddedPage 0);
     rightPage := None;
     width := -1224; height := 0;
     marginX := -36; marginY := -36;
     imgWidth := -576; imgHeight := 0;
     bleed := -18;
     extraGutter := None |}.

(** Primitives that refuse a page whose width or height is not positive. *)
Inductive SizeError : Type := NotPositive (size : number * number).

Definition fussy : Primitives SizeError :=
  {| addPage_throws := fun _ size =>
       if ((0 <? fst size) && (0 <? snd size))%float then None
       else Some (NotPositive size);
     drawPage_throws := fun _ _ _ => None;
     drawLine_throws := fun _ _ => None |}.

(** ** Binary64 values *)

(** The [==] of JavaScript on numbers is [=?]; it differs from identity on
    NaN (never equal to itself) and on the two zeros (equal). *)
Definition is_number (x : number) : bool := (x =? x)%float.

Definition ieee_eq_point (p q : Point) : bool :=
  ((pt_x p =? pt_x q) && (pt_y p =? pt_y q))%float.

Definition ieee_eq_color (c d : Color) : bool :=
  match c, d with
  | rgb r g b, rgb r' g' b' => ((r =? r') && (g =? g') && (b =? b'))%float
  end.

Definition ieee_eq_line (l m : LineOptions) : bool :=
  ieee_eq_point (line_start l) (line_start m) &&
  ieee_eq_point (line_end l) (line_end m) &&
  (line_thickness l =? line_thickness m)%float &&
  ieee_eq_color (line_color l) (line_color m).

Definition sf_not_nan (s : spec_float) : Prop := s <> S754_nan.

Definition sf_finite (s : spec_float) : Prop :=
  match s with
  | S754_zero _ | S754_finite _ _ _ => True
  | _ => False
  end.

(** ** A run, call by call *)

(** What pdf-lib's validation says of one drawing call. *)
Definition op_throws {E : Type} (pdflib : Primitives E) (doc : PDFDocument)
           (op : Operator) : option E :=
  match op with
  | OpDrawPage embedded options => drawPage_throws pdflib doc embedded options
  | OpDrawLine options => drawLine_throws pdflib doc options
  end.

(** One drawing call on a page, through the primitive it belongs to. *)
Definition draw {E : Type} (pdflib : Primitives E) (page : PageRef) (op : Operator)
  : Js E unit :=
  match op with
  | OpDrawPage embedded options => page_drawPage pdflib page embedded options
  | OpDrawLine options => page_drawLine pdflib page options
  end.

(** Drawing calls made one after the other, stopping at the first that
    throws. *)
Fixpoint draws {E : Type} (pdflib : Primitives E) (page : PageRef)
         (ops : list Operator) : Js E unit :=
  match ops with
  | [] => ret tt
  | op :: rest => bind (draw pdflib page op) (fun _ => draws pdflib page rest)
  end.

(** Two computations that behave alike in every document. *)
Definition same_run {E A : Type} (m m' : Js E A) : Prop :=
  forall doc, m doc = m' doc.

(** Primitives that refuse a line starting left of the page. *)
Inductive LineError : Type := OffPage (options : LineOptions).

Definition strict_lines : Primitives LineError :=
  {| addPage_throws := fun _ _ => None;
     drawPage_throws := fun _ _ _ => None;
     drawLine_throws := fun _ l =>
       if (pt_x (line_start l) <? 0)%float then Some (OffPage l) else None |}.

(** The scenario of §8 with a bleed of 5 points: the cut marks start at
    [x = -5]. *)
Definition thin_bleed : SpreadOptions :=
  {| leftPage := Some (EmbeddedPage 0);
     rightPage := Some (EmbeddedPage 1);
     width := 1224; height := 792;
     marginX := 36; marginY := 36;
     imgWidth := 576; imgHeight := 720;
     bleed := 5;
     extraGutter := None |}.

(** ** Strings and regular expressions (index.js) *)


From Stdlib Require String Ascii.
Import String.StringSyntax Ascii.AsciiSyntax.
Delimit Scope char_scope with char.
Delimit Scope string_scope with string.

(** A JavaScript string is a sequence of UTF-16 code units. *)
Definition code_unit : Type := N.
Definition jsstring : Type := list code_unit.

Definition unit_of (a : Ascii.ascii) : code_unit := Ascii.N_of_ascii a.
Arguments unit_of a%_char.


(** A string literal of the source, all in ASCII. *)
Fixpoint str (s : String.string) : jsstring :=
  match s with
  | String.EmptyString => []
  | String.String a s' => unit_of a :: str s'
  end.
Arguments str s%_string.


(** *** Regular expressions, as far as the source uses them *)

Inductive regex : Type :=
| OneOf (p : code_unit -> bool)
| Empty
| Seq (r1 r2 : regex)
| Star (r : regex)
| Opt (r : regex)
| Group (i : nat) (r : regex)
| EndOfInput.

(** [r+] *)
Definition Plus (r : regex) : regex := Seq r (Star r).

(** [r{n}] *)
Fixpoint Repeat (n : nat) (r : regex) : regex :=
  match n with
  | O => Empty
  | S n' => Seq r (Repeat n' r)
  end.

(** A literal character. *)
Definition Char (a : Ascii.ascii) : regex := OneOf (N.eqb (unit_of a)).
Arguments Char a%_char.


(** A literal letter under the [i] flag: either case matches, and no code
    unit outside ASCII does. *)
Definition either_case (lower upper : Ascii.ascii) (c : code_unit) : bool :=
  N.eqb c (unit_of lower) || N.eqb c (unit_of upper).

Arguments either_case (lower upper)%_char c.

Definition CharI (lower upper : Ascii.ascii) : regex :=
  OneOf (either_case lower upper).
Arguments CharI (lower upper)%_char.


Fixpoint Lit (s : String.string) : regex :=
  match s with
  | String.EmptyString => Empty
  | String.String a s' => Seq (Char a) (Lit s')
  end.
Arguments Lit s%_string.


Definition in_range (lo hi : Ascii.ascii) (c : code_unit) : bool :=
  (N.leb (unit_of lo) c && N.leb c (unit_of hi))%bool.
Arguments in_range (lo hi)%_char c.


(** [\d] *)
Definition digit (c : code_unit) : bool := in_range "0" "9" c.

(** The captures of a match, latest first. *)
Definition Captures : Type := list (nat * jsstring).

(** The backtracking matcher: [run r s c k] matches [r] at the head of [s]
    and hands what is left, with the captures, to [k]; when [k] fails the
    next alternative of [r] is tried, greedy ones first. *)
Fixpoint star_loop {R : Type}
         (step : jsstring -> Captures -> (jsstring -> Captures -> option R) -> option R)
         (k : jsstring -> Captures -> option R)
         (fuel : nat) (s : jsstring) (c : Captures) : option R :=
  match fuel with
  | O => k s c
  | S fuel' =>
      match step s c (fun s' c' =>
                        if (length s' <? length s)%nat
                        then star_loop step k fuel' s' c'
                        else None) with
      | Some x => Some x
      | None => k s c
      end
  end.

Fixpoint run {R : Type} (r : regex) (s : jsstring) (c : Captures)
         (k : jsstring -> Captures -> option R) : option R :=
  match r with
  | OneOf p =>
      match s with
      | ch :: s' => if p ch then k s' c else None
      | [] => None
      end
  | Empty => k s c
  | Seq r1 r2 => run r1 s c (fun s' c' => run r2 s' c' k)
  | Star r' => star_loop (run r') k (length s) s c
  | Opt r' =>
      match run r' s c k with
      | Some x => Some x
      | None => k s c
      end
  | Group i r' =>
      run r' s c (fun s' c' =>
                    k s' ((i, firstn (length s - length s') s) :: c'))
  | EndOfInput =>
      match s with
      | [] => k s c
      | _ :: _ => None
      end
  end.

(** The continuation of [exec]: any match will do. *)
Definition accept (s : jsstring) (c : Captures) : option (jsstring * Captures) :=
  Some (s, c).

Record MatchResult : Type := mkMatch {
  match_index : nat;
  match_rest : jsstring;
  match_groups : Captures
}.

(** [regex.exec(s)] without the [g] flag: the first position, from the left,
    at which the expression matches. *)
Fixpoint exec_from (r : regex) (i : nat) (s : jsstring) : option MatchResult :=
  match run r s [] accept with
  | Some (s', c) => Some {| match_index := i; match_rest := s'; match_groups := c |}
  | None =>
      match s with
      | [] => None
      | _ :: s' => exec_from r (S i) s'
      end
  end.

Definition exec (r : regex) (s : jsstring) : option MatchResult := exec_from r 0 s.

(** [match[i]] *)
Fixpoint group (i : nat) (c : Captures) : option jsstring :=
  match c with
  | [] => None
  | (j, u) :: c' => if Nat.eqb i j then Some u else group i c'
  end.

(** [s.replace(r, by)] without the [g] flag, [by] a plain string. *)
Definition replace (s : jsstring) (r : regex) (by_ : jsstring) : jsstring :=
  match exec r s with
  | Some m => firstn (match_index m) s ++ by_ ++ match_rest m
  | None => s
  end.

(** White space and line terminators, as [trim] understands them. *)
Definition is_white_space (c : code_unit) : bool :=
  existsb (N.eqb c)
    [9; 10; 11; 12; 13; 32; 160; 5760; 8192; 8193; 8194; 8195; 8196; 8197; 8198;
     8199; 8200; 8201; 8202; 8232; 8233; 8239; 8287; 12288; 65279]%N.

Fixpoint trimStart (s : jsstring) : jsstring :=
  match s with
  | c :: s' => if is_white_space c then trimStart s' else s
  | [] => []
  end.

Definition trimEnd (s : jsstring) : jsstring := rev (trimStart (rev s)).

Definition trim (s : jsstring) : jsstring := trimEnd (trimStart s).

(** *** index.js *)

(** [[a-zA-Z0-9_-]] *)
Definition id_class (c : code_unit) : bool :=
  in_range "a" "z" c || in_range "A" "Z" c || in_range "0" "9" c
  || N.eqb c (unit_of "_") || N.eqb c (unit_of "-").

(** [/\/d\/([a-zA-Z0-9_-]+)/] *)
Definition file_id_regex : regex :=
  Seq (Lit "/d/") (Group 1 (Plus (OneOf id_class))).

Definition extractFileId (link : jsstring) : option jsstring :=
  match exec file_id_regex link with
  | Some match_ => group 1 (match_groups match_)
  | None => None
  end.

(** [(_\d{8}_\d{6}(_\d+)?)] *)
Definition stamp_group : regex :=
  Group 1 (Seq (Char "_")
          (Seq (Repeat 8 (OneOf digit))
          (Seq (Char "_")
          (Seq (Repeat 6 (OneOf digit))
               (Opt (Group 2 (Seq (Char "_") (Plus (OneOf digit))))))))).

(** [/(_\d{8}_\d{6}(_\d+)?)+\.pdf$/i] *)
Definition timestamp_regex : regex :=
  Seq (Plus stamp_group)
      (Seq (Char ".")
      (Seq (CharI "p" "P") (Seq (CharI "d" "D") (Seq (CharI "f" "F") EndOfInput)))).

(** [/\.pdf+$/i] *)
Definition pdf_regex : regex :=
  Seq (Char ".")
  (Seq (CharI "p" "P") (Seq (CharI "d" "D") (Seq (Plus (CharI "f" "F")) EndOfInput))).

(** [name] is [None] when it is [undefined] or [null]; the empty string is
    falsy as well. *)
Definition sanitizeFileName (name : option jsstring) : jsstring :=
  match name with
  | None | Some [] => str "Processed_File.pdf"
  | Some name =>
      trim (replace (replace name timestamp_regex []) pdf_regex []) ++ str ".pdf"
  end.


(** The last code unit of a string. *)
Definition last_unit (s : jsstring) : option code_unit :=
  match rev s with
  | c :: _ => Some c
  | [] => None
  end.

(** One time stamp as the file names carry them: [_], eight digits, [_], six
    digits, and possibly [_] and a serial number. *)
Definition is_stamp (g : jsstring) : Prop :=
  exists date time serial : jsstring,
    g = str "_" ++ date ++ str "_" ++ time ++ serial /\
    length date = 8 /\ forallb digit date = true /\
    length time = 6 /\ forallb digit time = true /\
    (serial = [] \/
     exists number, serial = str "_" ++ number /\ number <> [] /\
                    forallb digit number = true).

(** Every code unit of [w] is a digit, or a [_] that follows a digit
    ([prev_digit] tells what precedes [w]). *)
Fixpoint stamp_units (prev_digit : bool) (w : jsstring) : bool :=
  match w with
  | [] => true
  | c :: w' =>
      (digit c || (N.eqb c (unit_of "_") && prev_digit))
      && stamp_units (digit c) w'
  end.

(** *** What an expression matches *)

(** Iterations of a starred expression; an iteration that consumes nothing
    is not one. *)
Inductive star (P : jsstring -> jsstring -> Prop) : jsstring -> jsstring -> Prop :=
| star_nil (v : jsstring) : star P [] v
| star_cons (u1 u2 v : jsstring) :
    P u1 (u2 ++ v) -> u1 <> [] -> star P u2 v -> star P (u1 ++ u2) v.

(** [denote r u v]: [r] can consume [u] when [v] follows. *)
Fixpoint denote (r : regex) (u v : jsstring) : Prop :=
  match r with
  | OneOf p => exists ch, u = [ch] /\ p ch = true
  | Empty => u = []
  | Seq r1 r2 =>
      exists u1 u2, u = u1 ++ u2 /\ denote r1 u1 (u2 ++ v) /\ denote r2 u2 v
  | Star r' => star (denote r') u v
  | Opt r' => u = [] \/ denote r' u v
  | Group _ r' => denote r' u v
  | EndOfInput => u = [] /\ v = []
  end.

(** The longest prefix of [s] made of code units in [p], and what follows
    it. *)
Fixpoint take_while (p : code_unit -> bool) (s : jsstring) : jsstring :=
  match s with
  | c :: s' => if p c then c :: take_while p s' else []
  | [] => []
  end.

Fixpoint drop_while (p : code_unit -> bool) (s : jsstring) : jsstring :=
  match s with
  | c :: s' => if p c then drop_while p s' else s
  | [] => []
  end.

(** [s] begins with [/d/] and at least one code unit of an identifier: the
    identifier that begins there. *)
Definition file_id_at (s : jsstring) : option jsstring :=
  match s with
  | a :: b :: c :: ch :: rest =>
      if (N.eqb (unit_of "/") a && N.eqb (unit_of "d") b && N.eqb (unit_of "/") c
          && id_class ch)%bool
      then Some (ch :: take_while id_class rest)
      else None
  | _ => None
  end.

(** ** The server: index.js and utils/googleAuth.js *)

(** A field of the JSON body of a request. *)
Inductive JsonValue : Type :=
| JUndefined                 (* the field is missing *)
| JNull
| JBoolean (b : bool)
| JNumber (n : number)
| JString (s : jsstring)
| JObject.                   (* an object or an array *)

(** [!v] is [negb (truthy v)]. *)
Definition truthy (v : JsonValue) : bool :=
  match v with
  | JUndefined | JNull => false
  | JBoolean b => b
  | JNumber n => is_number n && negb (n =? 0)%float
  | JString [] => false
  | JString (_ :: _) => true
  | JObject => true
  end.

(** What the built-ins make of [req.body.row].  [parseInt(req.body.row, 10)]
    throws a [TypeError] when the row cannot be converted to a string (an
    object whose [toString] is not a function, say); otherwise it gives a
    number, NaN included, and [text] is what a template literal makes of
    that number. *)
Inductive ParsedRow : Type :=
| RowThrows
| RowNumber (value : number) (text : jsstring).

(** [req.body], when there is one: the field [link] as it is, the field [row]
    as [parseInt] presents it. *)
Record RequestBody : Type := mkBody { req_link : JsonValue; req_row : ParsedRow }.

(** What the server sends back: [res.status(s).json(b)], with status 200 when
    the code sets none. *)
Inductive ResponseBody : Type :=
| ErrorBody (error : jsstring)
| FailureBody (error : jsstring) (detail : option jsstring)
| LinkBody (link : jsstring) (row : number).

Record Response : Type := mkResponse { status : nat; json : ResponseBody }.

(** A run of the handler ends with the response the handler sends, or with a
    [TypeError] thrown outside the [try] block.  In the second case the
    promise the handler returns is rejected and the handler itself has sent
    nothing; what the client then receives is decided by Express, not by this
    code: nothing with version 4, which ignores the promise, and the answer
    of the error handler (status 500 by default) from version 5 on. *)
Inductive Reply : Type :=
| Answered (response : Response)
| Rejected.

(** Values thrown inside the [try] blocks: an [Error] the code creates itself,
    or what a library threw, taken to be an object, so that its [message] can
    be read: a string, or [undefined]. *)
Inductive Thrown (Foreign : Type) : Type :=
| NewError (message : jsstring)
| Raised (e : Foreign).

Arguments NewError {Foreign} message.
Arguments Raised {Foreign} e.

Inductive Result (Foreign A : Type) : Type :=
| Ok (value : A)
| Fail (error : Thrown Foreign).

Arguments Ok {Foreign A} value.
Arguments Fail {Foreign A} error.

(** The calls that leave the process, with their arguments. *)
Inductive Call (Credentials Client Buffer : Type) : Type :=
| GetClient (credentials : Credentials) (scopes : list jsstring)
| GetAccessToken (client : Client)
| FilesGet (auth : Client) (fileId fields : jsstring)
| AxiosGet (url responseType : jsstring)
| GenerateSpreadPdf (original : Buffer)
| FilesCreate (auth : Client) (name : jsstring) (parents : list jsstring)
              (mimeType : jsstring) (body : Buffer) (fields : jsstring)
| PermissionsCreate (auth : Client) (fileId role type_ : jsstring).

Arguments GetClient {Credentials Client Buffer} credentials scopes.
Arguments GetAccessToken {Credentials Client Buffer} client.
Arguments FilesGet {Credentials Client Buffer} auth fileId fields.
Arguments AxiosGet {Credentials Client Buffer} url responseType.
Arguments GenerateSpreadPdf {Credentials Client Buffer} original.
Arguments FilesCreate {Credentials Client Buffer} auth name parents mimeType body fields.
Arguments PermissionsCreate {Credentials Client Buffer} auth fileId role type_.

Inductive CallName : Type :=
| getClient_ | getAccessToken_ | files_get_ | axios_get_ | generateSpreadPdf_
| files_create_ | permissions_create_.

Definition call_name {Credentials Client Buffer : Type}
    (c : Call Credentials Client Buffer) : CallName :=
  match c with
  | GetClient _ _ => getClient_
  | GetAccessToken _ => getAccessToken_
  | FilesGet _ _ _ => files_get_
  | AxiosGet _ _ => axios_get_
  | GenerateSpreadPdf _ => generateSpreadPdf_
  | FilesCreate _ _ _ _ _ _ => files_create_
  | PermissionsCreate _ _ _ _ => permissions_create_
  end.

(** The state an [async] function runs in: the world outside the process and
    the calls made to it so far. *)
Record State (World Credentials Client Buffer : Type) : Type := mkState {
  world : World;
  calls : list (Call Credentials Client Buffer)
}.

Arguments mkState {World Credentials Client Buffer} world calls.
Arguments world {World Credentials Client Buffer} _.
Arguments calls {World Credentials Client Buffer} _.

(** Everything the two modules take from their environment.  The library
    functions are arbitrary: each one may change the world and may throw, but
    every call settles, and what they return has the shape their callers read
    ([data.name], [data.id], [data]).  [parse_credentials] stands for
    [JSON.parse(Buffer.from(s, 'base64').toString('utf-8'))] and the read of
    [client_email] that follows it, [getClient] for [new GoogleAuth(...)] and
    [auth.getClient()], [getAccessToken] for the call and the read of the
    token's first characters; [generateSpreadPdf] is the module
    [utils/generateSpreadPdf.js].  What the code writes to the console is
    left out. *)
Record Services (World Credentials Client Buffer Foreign : Type) : Type := mkServices {
  GOOGLE_CREDENTIALS_BASE64 : option jsstring;
  error_message : Foreign -> option jsstring;
  parse_credentials : jsstring -> Result Foreign Credentials;
  getClient : Credentials -> list jsstring -> World -> World * Result Foreign Client;
  getAccessToken : Client -> World -> World * Result Foreign unit;
  files_get : Client -> jsstring -> jsstring -> World
              -> World * Result Foreign (option jsstring);
  axios_get : jsstring -> jsstring -> World -> World * Result Foreign Buffer;
  generateSpreadPdf : Buffer -> World -> World * Result Foreign Buffer;
  files_create : Client -> jsstring -> list jsstring -> jsstring -> Buffer -> jsstring
                 -> World -> World * Result Foreign jsstring;
  permissions_create : Client -> jsstring -> jsstring -> jsstring -> World
                       -> World * Result Foreign unit
}.

Arguments GOOGLE_CREDENTIALS_BASE64 {World Credentials Client Buffer Foreign} _.
Arguments error_message {World Credentials Client Buffer Foreign} _ _.
Arguments parse_credentials {World Credentials Client Buffer Foreign} _ _.
Arguments getClient {World Credentials Client Buffer Foreign} _ _ _ _.
Arguments getAccessToken {World Credentials Client Buffer Foreign} _ _ _.
Arguments files_get {World Credentials Client Buffer Foreign} _ _ _ _ _.
Arguments axios_get {World Credentials Client Buffer Foreign} _ _ _ _.
Arguments generateSpreadPdf {World Credentials Client Buffer Foreign} _ _ _.
Arguments files_create {World Credentials Client Buffer Foreign} _ _ _ _ _ _ _ _.
Arguments permissions_create {World Credentials Client Buffer Foreign} _ _ _ _ _ _.

Declare Scope async_scope.
Delimit Scope async_scope with async.

Section Server.

Variables World Credentials Client Buffer Foreign : Type.
Variable services : Services World Credentials Client Buffer Foreign.

Definition Async (A : Type) : Type :=
  State World Credentials Client Buffer
  -> State World Credentials Client Buffer * Result Foreign A.

Definition resolve {A : Type} (a : A) : Async A := fun st => (st, Ok a).

Definition throw {A : Type} (err : Thrown Foreign) : Async A := fun st => (st, Fail err).

Definition await {A B : Type} (m : Async A) (k : A -> Async B) : Async B :=
  fun st =>
    match m st with
    | (st', Ok a) => k a st'
    | (st', Fail err) => (st', Fail err)
    end.

Definition try_catch {A : Type} (body : Async A) (handler : Thrown Foreign -> Async A)
    : Async A :=
  fun st =>
    match body st with
    | (st', Ok a) => (st', Ok a)
    | (st', Fail err) => handler err st'
    end.

(** A pure library function that may throw. *)
Definition lift {A : Type} (r : Result Foreign A) : Async A := fun st => (st, r).

(** A call that leaves the process: it is recorded, runs in the world as it
    is, and leaves the world as the library left it. *)
Definition call {A : Type} (c : Call Credentials Client Buffer)
    (service : World -> World * Result Foreign A) : Async A :=
  fun st =>
    let (w, r) := service (world st) in
    (mkState w (calls st ++ [c]), r).

Notation "'let_await' x ':=' m ';' k" := (await m (fun x => k))
  (at level 100, x name, m at level 99, k at level 200) : async_scope.

Local Open Scope async_scope.

(** [err.message] *)
Definition message (err : Thrown Foreign) : option jsstring :=
  match err with
  | NewError m => Some m
  | Raised e => error_message services e
  end.

(** *** utils/googleAuth.js *)

Definition authenticate : Async Client :=
  try_catch
    (match GOOGLE_CREDENTIALS_BASE64 services with
     | None | Some [] => throw (NewError (str "Missing base64 env var"))
     | Some base64 =>
         let_await credentials := lift (parse_credentials services base64);
         let scopes := [str "https://www.googleapis.com/auth/drive"] in
         let_await client := call (GetClient credentials scopes)
                                  (getClient services credentials scopes);
         let_await _ := call (GetAccessToken client) (getAccessToken services client);
         resolve client
     end)
    (fun err => throw err).

(** *** index.js: POST /handle-preview *)

(** The [try] block of the handler, for a request that passed the checks. *)
Definition process_preview (fileId : jsstring) (row : number) (row_text : jsstring)
    : Async Response :=
  let_await auth := authenticate;
  let_await name := call (FilesGet auth fileId (str "name"))
                         (files_get services auth fileId (str "name"));
  let rawName :=
    match name with
    | None | Some [] =>
        str "Processed_Row_" ++ row_text ++ str ".pdf"
    | Some name => name
    end in
  let originalName := sanitizeFileName (Some rawName) in
  let downloadUrl := str "https://drive.google.com/uc?export=download&id=" ++ fileId in
  let_await originalBuffer := call (AxiosGet downloadUrl (str "arraybuffer"))
                                   (axios_get services downloadUrl (str "arraybuffer"));
  let_await processedBuffer := call (GenerateSpreadPdf originalBuffer)
                                    (generateSpreadPdf services originalBuffer);
  let parents := [str "1TGTQSdxLcewHaa8MSCs6DqHV1bcyDwq0"] in
  let_await uploadedFileId :=
    call (FilesCreate auth originalName parents (str "application/pdf")
                      processedBuffer (str "id"))
         (files_create services auth originalName parents (str "application/pdf")
                       processedBuffer (str "id"));
  let_await _ :=
    call (PermissionsCreate auth uploadedFileId (str "reader") (str "anyone"))
         (permissions_create services auth uploadedFileId (str "reader") (str "anyone"));
  let publicUrl :=
    str "https://drive.google.com/file/d/" ++ uploadedFileId ++ str "/view?usp=sharing" in
  resolve (mkResponse 200 (LinkBody publicUrl row)).

(** [req.body] is [None] when Express handed the handler no body
    ([undefined], from version 5 on, when none was parsed); reading
    [req.body.link] then throws. *)
Definition handle_preview (body : option RequestBody)
    (st : State World Credentials Client Buffer)
    : State World Credentials Client Buffer * Reply :=
  match body with
  | None => (st, Rejected)
  | Some body =>
      let link := req_link body in
      match req_row body with
      | RowThrows => (st, Rejected)
      | RowNumber row row_text =>
          if negb (truthy link) || negb (is_number row) then
            (st, Answered (mkResponse 400
                    (ErrorBody (str "Missing or invalid preview link or row number."))))
          else
            match link with
            | JString link =>
                match extractFileId link with
                | None | Some [] =>
                    (st, Answered (mkResponse 400
                            (ErrorBody (str "Invalid Google Drive link format."))))
                | Some fileId =>
                    match process_preview fileId row row_text st with
                    | (st', Ok response) => (st', Answered response)
                    | (st', Fail err) =>
                        (st', Answered (mkResponse 500
                                 (FailureBody (str "Failed to process and upload PDF.")
                                              (message err))))
                    end
                end
            | _ => (st, Rejected)
            end
      end
  end.

End Server.

Arguments resolve {World Credentials Client Buffer Foreign A} a st.
Arguments throw {World Credentials Client Buffer Foreign A} err st.
Arguments await {World Credentials Client Buffer Foreign A B} m k st.
Arguments try_catch {World Credentials Client Buffer Foreign A} body handler st.
Arguments lift {World Credentials Client Buffer Foreign A} r st.
Arguments call {World Credentials Client Buffer Foreign A} c service st.
Arguments message {World Credentials Client Buffer Foreign} services err.
Arguments authenticate {World Credentials Client Buffer Foreign} services st.
Arguments process_preview {World Credentials Client Buffer Foreign} services fileId row
  row_text st.
Arguments handle_preview {World Credentials Client Buffer Foreign} services body st.

(** The order in which a request that passes the checks reaches the outside. *)
Definition call_order : list CallName :=
  [getClient_; getAccessToken_; files_get_; axios_get_; generateSpreadPdf_;
   files_create_; permissions_create_].

(** Whether a library call ended with an error. *)
Definition failure {World Foreign A : Type} (r : World * Result Foreign A)
    : World * option (Thrown Foreign) :=
  match r with
  | (w, Ok _) => (w, None)
  | (w, Fail err) => (w, Some err)
  end.

(** What one recorded call does to the world, and the error it ends with, if
    any. *)
Definition perform {World Credentials Client Buffer Foreign : Type}
    (services : Services World Credentials Client Buffer Foreign)
    (c : Call Credentials Client Buffer) (w : World)
    : World * option (Thrown Foreign) :=
  match c with
  | GetClient credentials scopes => failure (getClient services credentials scopes w)
  | GetAccessToken client => failure (getAccessToken services client w)
  | FilesGet auth fileId fields => failure (files_get services auth fileId fields w)
  | AxiosGet url responseType => failure (axios_get services url responseType w)
  | GenerateSpreadPdf original => failure (generateSpreadPdf services original w)
  | FilesCreate auth name parents mimeType body fields =>
      failure (files_create services auth name parents mimeType body fields w)
  | PermissionsCreate auth fileId role type_ =>
      failure (permissions_create services auth fileId role type_ w)
  end.

(** The calls of a list made one after the other, up to the first that fails. *)
Fixpoint replay {World Credentials Client Buffer Foreign : Type}
    (services : Services World Credentials Client Buffer Foreign)
    (cs : list (Call Credentials Client Buffer)) (w : World)
    : World * option (Thrown Foreign) :=
  match cs with
  | [] => (w, None)
  | c :: cs =>
      match perform services c w with
      | (w', None) => replay services cs w'
      | (w', Some err) => (w', Some err)
      end
  end.

(** A request that passes the checks of the handler: a body whose link is a
    string with an identifier in it, and whose row parses to a number. *)
Definition accepted (body : option RequestBody) (fileId : jsstring) : Prop :=
  exists (b : RequestBody) (link : jsstring) (row : number) (text : jsstring),
    body = Some b /\
    req_link b = JString link /\
    extractFileId link = Some fileId /\
    req_row b = RowNumber row text /\
    is_number row = true.

(** The name a file is uploaded under, from the name Drive gave for the
    original. *)
Definition upload_name (name : option jsstring) (row_text : jsstring) : jsstring :=
  sanitizeFileName
    (Some match name with
          | None | Some [] => str "Processed_Row_" ++ row_text ++ str ".pdf"
          | Some name => name
          end).

(** The credentials the process was started with cannot be used. *)
Definition no_credentials {World Credentials Client Buffer Foreign : Type}
    (services : Services World Credentials Client Buffer Foreign)
    (err : Thrown Foreign) : Prop :=
  match GOOGLE_CREDENTIALS_BASE64 services with
  | None | Some [] => err = NewError (str "Missing base64 env var")
  | Some base64 => parse_credentials services base64 = Fail err
  end.

(** A Drive that holds one file; the world counts the files uploaded so far,
    a thrown value is its message, and credentials and clients are known by
    the text they come from.  [env] is the environment variable the process
    is started with, [share] what Drive answers when asked to make a file
    public. *)
Definition example_drive (env : option jsstring) (share : Result jsstring unit)
    : Services nat jsstring jsstring (list N) jsstring :=
  {| GOOGLE_CREDENTIALS_BASE64 := env;
     error_message := fun e => Some e;
     parse_credentials := fun s => Ok s;
     getClient := fun credentials _ w => (w, Ok credentials);
     getAccessToken := fun _ w => (w, Ok tt);
     files_get := fun _ _ _ w => (w, Ok (Some (str "Report_20250612_101500.pdf")));
     axios_get := fun _ _ w => (w, Ok [37; 80; 68; 70]%N);
     generateSpreadPdf := fun original w => (w, Ok original);
     files_create := fun _ _ _ _ _ _ w => (S w, Ok (str "new-file_1"));
     permissions_create := fun _ _ _ _ w => (w, share) |}.

(** A request for row 7: [parseInt] gives 7, which a template literal writes
    [7]. *)
Definition preview_request : option RequestBody :=
  Some (mkBody
          (JString (str "https://drive.google.com/file/d/1TGTQSdx_Lce-w/view?usp=sharing"))
          (RowNumber 7 (str "7"))).

(** A link that is not a Drive link. *)
Definition foreign_request : option RequestBody :=
  Some (mkBody (JString (str "https://example.com/report.pdf"))
               (RowNumber 7 (str "7"))).

(** The calls of a request for the file of [preview_request], when every one of
    them succeeds. *)
Definition preview_calls : list (Call jsstring jsstring (list N)) :=
  [GetClient (str "e30=") [str "https://www.googleapis.com/auth/drive"];
   GetAccessToken (str "e30=");
   FilesGet (str "e30=") (str "1TGTQSdx_Lce-w") (str "name");
   AxiosGet (str "https://drive.google.com/uc?export=download&id=1TGTQSdx_Lce-w")
     (str "arraybuffer");
   GenerateSpreadPdf [37; 80; 68; 70]%N;
   FilesCreate (str "e30=") (str "Report.pdf") [str "1TGTQSdxLcewHaa8MSCs6DqHV1bcyDwq0"]
     (str "application/pdf") [37; 80; 68; 70]%N (str "id");
   PermissionsCreate (str "e30=") (str "new-file_1") (str "reader") (str "anyone")].

(** Names and links used as examples. *)
Definition preview_link : jsstring :=
  str "https://drive.google.com/file/d/1TGTQSdx_Lce-w/view?usp=sharing".

(** * Properties *)

(** ** The store *)

Lemma modify_at (f : PDFPage -> PDFPage) (before : PDFDocument) (p : PDFPage)
      (after : PDFDocument) :
  modify (length before) f (before ++ p :: after) = before ++ f p :: after.
Proof.
  induction before as [| q before IH]; simpl.
  - reflexivity.
  - now rewrite IH.
Qed.

Lemma nth_error_at (before : PDFDocument) (p : PDFPage) (after : PDFDocument) :
  nth_error (before ++ p :: after) (length before) = Some p.
Proof.
  induction before as [| q before IH]; simpl; auto.
Qed.

Lemma append_operator_draw_all (op : Operator) (ops : list Operator) (p : PDFPage) :
  append_operator op (draw_all ops p) = draw_all (ops ++ [op]) p.
Proof.
  unfold append_operator, draw_all; simpl. now rewrite app_assoc.
Qed.

Lemma draw_all_nil (p : PDFPage) : draw_all [] p = p.
Proof.
  destruct p; unfold draw_all; simpl. now rewrite app_nil_r.
Qed.

(** ** Sequencing *)

Lemma bind_Returned {E A B : Type} (m : Js E A) (k : A -> Js E B)
      (doc : PDFDocument) (a : A) (doc' : PDFDocument) :
  m doc = Returned a doc' -> bind m k doc = k a doc'.
Proof. unfold bind. now intros ->. Qed.

(** ** Runs with primitives that accept every argument *)

Section Accepting.

Variables (before : PDFDocument) (p : PDFPage) (after : PDFDocument).

Lemma page_drawLine_accepting (ops : list Operator) (l : LineOptions) :
  page_drawLine accepting (length before) l (before ++ draw_all ops p :: after)
  = Returned tt (before ++ draw_all (ops ++ [OpDrawLine l]) p :: after).
Proof.
  unfold page_drawLine; simpl.
  now rewrite modify_at, append_operator_draw_all.
Qed.

Lemma page_drawPage_accepting (ops : list Operator) (e : PDFEmbeddedPage)
      (o : DrawPageOptions) :
  page_drawPage accepting (length before) e o (before ++ draw_all ops p :: after)
  = Returned tt (before ++ draw_all (ops ++ [OpDrawPage e o]) p :: after).
Proof.
  unfold page_drawPage; simpl.
  now rewrite modify_at, append_operator_draw_all.
Qed.

Lemma drawCutMarks_accepting (ops : list Operator) (w h b : number) :
  drawCutMarks accepting (length before) w h b (before ++ draw_all ops p :: after)
  = Returned tt
      (before ++ draw_all (ops ++ map OpDrawLine (cut_mark_table w h b)) p :: after).
Proof.
  unfold drawCutMarks, bind.
  repeat rewrite page_drawLine_accepting.
  repeat rewrite <- app_assoc. reflexivity.
Qed.

Lemma drawMiddleMarks_accepting (ops : list Operator) (o : MiddleMarkOptions) :
  drawMiddleMarks accepting (length before) o (before ++ draw_all ops p :: after)
  = Returned tt
      (before ++
       draw_all (ops ++ map OpDrawLine
                   (gutter_marks
                      (mm_imgWidth o + mm_bleed o + default (-1) (mm_offset1 o) + 1)%float
                      (mm_bleed o) (mm_finalHeight o))) p :: after).
Proof.
  unfold drawMiddleMarks, bind.
  repeat rewrite page_drawLine_accepting.
  repeat rewrite <- app_assoc. reflexivity.
Qed.

End Accepting.

(** Every run of the composer with accepting primitives: a page is appended to
    the document, holding the placements and then the ten marks, and its
    reference is returned. *)
Lemma createSpreadPage_accepting (o : SpreadOptions) (doc : PDFDocument) :
  createSpreadPage accepting o doc
  = Returned (length doc)
      (doc ++ [{| page_size := (width o, height o);
                  page_contents := spread_contents o |}]).
Proof.
  set (p := mkPage (width o, height o) []).
  cbv beta zeta delta [createSpreadPage].
  rewrite (@bind_Returned _ _ _ _ _ _ (length doc) (doc ++ [draw_all [] p]))
    by (now rewrite draw_all_nil).
  rewrite (@bind_Returned _ _ _ _ _ _ tt
             (doc ++ [draw_all (place (leftPage o) (left_rect o)) p])).
  2:{ destruct (leftPage o); simpl.
      - now rewrite page_drawPage_accepting.
      - reflexivity. }
  rewrite (@bind_Returned _ _ _ _ _ _ tt
             (doc ++ [draw_all (place (leftPage o) (left_rect o) ++
                                place (rightPage o) (right_rect o)) p])).
  2:{ destruct (rightPage o); simpl.
      - now rewrite page_drawPage_accepting.
      - now rewrite app_nil_r. }
  rewrite (@bind_Returned _ _ _ _ _ _ _ _ (drawCutMarks_accepting _ _ _ _ _ _ _)).
  rewrite (@bind_Returned _ _ _ _ _ _ _ _ (drawMiddleMarks_accepting _ _ _ _ _)).
  unfold ret, spread_contents, spread_marks, draw_all; simpl.
  repeat rewrite <- app_assoc. reflexivity.
Qed.

Lemma segments_app (a b : list Operator) :
  segments (a ++ b) = segments a ++ segments b.
Proof.
  induction a as [| [e r | l] a IH]; simpl; auto. now rewrite IH.
Qed.

Lemma placements_app (a b : list Operator) :
  placements (a ++ b) = placements a ++ placements b.
Proof.
  induction a as [| [e r | l] a IH]; simpl; auto. now rewrite IH.
Qed.

Lemma segments_lines (ls : list LineOptions) : segments (map OpDrawLine ls) = ls.
Proof.
  induction ls as [| l ls IH]; simpl; auto. now rewrite IH.
Qed.

Lemma placements_lines (ls : list LineOptions) : placements (map OpDrawLine ls) = [].
Proof.
  induction ls as [| l ls IH]; simpl; auto.
Qed.

Lemma segments_place (side : option PDFEmbeddedPage) (r : DrawPageOptions) :
  segments (place side r) = [].
Proof. destruct side; reflexivity. Qed.

Lemma segments_spread (o : SpreadOptions) :
  segments (spread_contents o) = spread_marks o.
Proof.
  unfold spread_contents.
  now rewrite !segments_app, !segments_place, segments_lines.
Qed.

Lemma placements_spread (o : SpreadOptions) :
  placements (spread_contents o)
  = placements (place (leftPage o) (left_rect o)) ++
    placements (place (rightPage o) (right_rect o)).
Proof.
  unfold spread_contents.
  now rewrite !placements_app, placements_lines, app_nil_r.
Qed.

(** ** Binary64 arithmetic *)

Module Binary64.

Lemma SFcompare_refl (s : spec_float) :
  SFcompare s s = match s with S754_nan => None | _ => Some Eq end.
Proof.
  destruct s as [[|] | [|] | | [|] m e]; simpl; try reflexivity;
    rewrite Z.compare_refl, Pos.compare_cont_refl; reflexivity.
Qed.

Lemma SFcompare_antisym (s t : spec_float) :
  SFcompare t s = option_map CompOpp (SFcompare s t).
Proof.
  destruct s as [[|] | [|] | | [|] m e], t as [[|] | [|] | | [|] m' e'];
    simpl; try reflexivity;
    rewrite (Z.compare_antisym e e');
    destruct (e ?= e')%Z; simpl; try reflexivity;
    rewrite ?Pos.compare_cont_antisym; reflexivity.
Qed.

(** *** Rounding never produces NaN *)

Lemma shr_1_nonneg (mrs : shr_record) :
  (0 <= shr_m mrs)%Z -> (0 <= shr_m (shr_1 mrs))%Z.
Proof.
  destruct mrs as [[| [p | p |] | p] r s]; simpl; intros H; try lia.
Qed.

Lemma iter_pos_invariant {A : Type} (P : A -> Prop) (f : A -> A) :
  (forall a, P a -> P (f a)) ->
  forall (n : positive) (a : A), P a -> P (iter_pos f n a).
Proof.
  intros Hf. induction n as [n IH | n IH |]; simpl; intros a Ha; auto.
Qed.

Lemma shr_nonneg (mrs : shr_record) (e n : Z) :
  (0 <= shr_m mrs)%Z -> (0 <= shr_m (fst (shr mrs e n)))%Z.
Proof.
  intros H. destruct n as [| p | p]; simpl; auto.
  apply (iter_pos_invariant (fun r => 0 <= shr_m r)%Z); auto using shr_1_nonneg.
Qed.

Lemma shr_fexp_nonneg (prec emax m e : Z) (l : location) :
  (0 <= m)%Z -> (0 <= shr_m (fst (shr_fexp prec emax m e l)))%Z.
Proof.
  intros H. unfold shr_fexp. apply shr_nonneg.
  destruct l as [| [| |]]; simpl; assumption.
Qed.

Lemma round_nearest_even_nonneg (m : Z) (l : location) :
  (0 <= m)%Z -> (0 <= round_nearest_even m l)%Z.
Proof.
  intros H. destruct l as [| [| |]]; simpl; try lia.
  destruct (Z.even m); lia.
Qed.

Lemma binary_round_aux_not_nan (prec emax : Z) (sx : bool) (m e : Z)
      (l : location) :
  (0 <= m)%Z -> sf_not_nan (binary_round_aux prec emax sx m e l).
Proof.
  intros H. unfold binary_round_aux, sf_not_nan.
  pose proof (shr_fexp_nonneg prec emax m e l H) as H1.
  destruct (shr_fexp prec emax m e l) as [mrs' e']. simpl in H1.
  pose proof (shr_fexp_nonneg prec emax _ e' loc_Exact
                (round_nearest_even_nonneg _ (loc_of_shr_record mrs') H1)) as H2.
  destruct (shr_fexp prec emax _ e' loc_Exact) as [mrs'' e'']. simpl in H2.
  destruct (shr_m mrs'') as [| p | p]; try discriminate; try lia.
  destruct (e'' <=? emax - prec)%Z; discriminate.
Qed.

Lemma binary_normalize_not_nan (prec emax m e : Z) (szero : bool) :
  sf_not_nan (binary_normalize prec emax m e szero).
Proof.
  destruct m as [| p | p]; simpl; try discriminate;
    unfold binary_round;
    destruct (shl_align _ _ _) as [mz ez];
    apply binary_round_aux_not_nan; lia.
Qed.

Lemma SFadd_not_nan (prec emax : Z) (x y : spec_float) :
  sf_not_nan x -> sf_finite y -> sf_not_nan (SFadd prec emax x y).
Proof.
  intros Hx Hy.
  destruct x as [sx | sx | | sx mx ex]; try (now elim Hx);
    destruct y as [sy | sy | | sy my ey]; try (now elim Hy); simpl;
    try discriminate.
  - destruct sx, sy; discriminate.
  - apply binary_normalize_not_nan.
Qed.

Lemma SFsub_not_nan (prec emax : Z) (x y : spec_float) :
  sf_not_nan x -> sf_finite y -> sf_not_nan (SFsub prec emax x y).
Proof.
  intros Hx Hy.
  destruct x as [sx | sx | | sx mx ex]; try (now elim Hx);
    destruct y as [sy | sy | | sy my ey]; try (now elim Hy); simpl;
    try discriminate.
  - destruct sx, sy; discriminate.
  - apply binary_normalize_not_nan.
Qed.

(** *** Rounding a representable value is exact *)

Lemma iter_pos_eq {A : Type} (f : A -> A) (n : positive) (x : A) :
  iter_pos f n x = Pos.iter f x n.
Proof.
  revert x. induction n as [n IH | n IH |]; intros x; simpl.
  - rewrite !IH. now rewrite !Pos.iter_swap.
  - now rewrite !IH.
  - reflexivity.
Qed.

Lemma shr_exact (d q : positive) :
  iter_pos shr_1 d (Build_shr_record (Zpos (Pos.iter xO q d)) false false)
  = Build_shr_record (Zpos q) false false.
Proof.
  rewrite iter_pos_eq. revert q.
  induction d as [| d IH] using Pos.peano_ind; intros q.
  - reflexivity.
  - rewrite Pos.iter_succ, Pos.iter_succ_r, IH. reflexivity.
Qed.

Lemma digits2_pos_iter (m d : positive) :
  digits2_pos (Pos.iter xO m d) = (digits2_pos m + d)%positive.
Proof.
  induction d as [| d IH] using Pos.peano_ind.
  - simpl. lia.
  - rewrite Pos.iter_succ. simpl. rewrite IH. lia.
Qed.

Lemma iter_xO_Z (m d : positive) :
  Zpos (Pos.iter xO m d) = (Zpos m * 2 ^ Zpos d)%Z.
Proof.
  induction d as [| d IH] using Pos.peano_ind.
  - simpl. lia.
  - rewrite Pos.iter_succ, Pos2Z.inj_xO, IH, Pos2Z.inj_succ, Z.pow_succ_r; lia.
Qed.

Lemma digits2_pos_size (p : positive) : digits2_pos p = Pos.size p.
Proof.
  induction p as [p IH | p IH |]; simpl; now rewrite ?IH.
Qed.

Lemma digits2_pos_log2 (p : positive) :
  Zpos (digits2_pos p) = (Z.log2 (Zpos p) + 1)%Z.
Proof.
  rewrite digits2_pos_size.
  destruct p as [p | p |]; simpl; lia.
Qed.

Lemma digits2_pos_53 (p : positive) :
  digits2_pos p = 53%positive <-> (2 ^ 52 <= Zpos p < 2 ^ 53)%Z.
Proof.
  split.
  - intros H. pose proof (digits2_pos_log2 p) as L. rewrite H in L.
    assert (Z.log2 (Zpos p) = 52)%Z as L2 by lia.
    pose proof (Z.log2_spec (Zpos p) ltac:(lia)) as S. rewrite L2 in S.
    exact S.
  - intros H. apply Pos2Z.inj. rewrite digits2_pos_log2.
    rewrite (Z.log2_unique (Zpos p) 52); lia.
Qed.

Section Exact.

Local Open Scope Z_scope.

Lemma shr_fexp_canonical (m : positive) (e : Z) :
  digits2_pos m = 53%positive -> -1074 <= e ->
  shr_fexp 53 1024 (Zpos m) e loc_Exact
  = (Build_shr_record (Zpos m) false false, e).
Proof.
  intros D He. unfold shr_fexp. cbn [Zdigits2 shr_record_of_loc]. rewrite D.
  assert (Hn : fexp 53 1024 (53 + e) - e = 0) by (unfold fexp, emin; lia).
  rewrite Hn. reflexivity.
Qed.

Lemma shr_fexp_shift (q d : positive) (e : Z) :
  digits2_pos q = 53%positive -> -1074 <= e + Zpos d ->
  shr_fexp 53 1024 (Zpos (Pos.iter xO q d)) e loc_Exact
  = (Build_shr_record (Zpos q) false false, e + Zpos d).
Proof.
  intros D He. unfold shr_fexp. cbn [Zdigits2 shr_record_of_loc].
  rewrite digits2_pos_iter, D.
  assert (Hn : fexp 53 1024 (Zpos (53 + d) + e) - e = Zpos d)
    by (unfold fexp, emin; lia).
  rewrite Hn. unfold shr. now rewrite shr_exact.
Qed.

Lemma binary_round_aux_canonical (sx : bool) (m : positive) (e : Z) :
  digits2_pos m = 53%positive -> -1074 <= e <= 971 ->
  binary_round_aux 53 1024 sx (Zpos m) e loc_Exact = S754_finite sx m e.
Proof.
  intros D He. unfold binary_round_aux.
  rewrite shr_fexp_canonical by (assumption || lia).
  cbn [shr_m loc_of_shr_record round_nearest_even].
  rewrite shr_fexp_canonical by (assumption || lia).
  cbn [shr_m].
  replace (e <=? 1024 - 53) with true by (symmetry; apply Z.leb_le; lia).
  reflexivity.
Qed.

Lemma binary_round_aux_shift (sx : bool) (q d : positive) (e : Z) :
  digits2_pos q = 53%positive -> -1074 <= e + Zpos d <= 971 ->
  binary_round_aux 53 1024 sx (Zpos (Pos.iter xO q d)) e loc_Exact
  = S754_finite sx q (e + Zpos d).
Proof.
  intros D He. unfold binary_round_aux.
  rewrite shr_fexp_shift by (assumption || lia).
  cbn [shr_m loc_of_shr_record round_nearest_even].
  rewrite shr_fexp_canonical by (assumption || lia).
  cbn [shr_m].
  replace (e + Zpos d <=? 1024 - 53) with true by (symmetry; apply Z.leb_le; lia).
  reflexivity.
Qed.

(** Rounding a value that a canonical mantissa and exponent represent. *)
Lemma binary_round_exact (sx : bool) (n : positive) (k : Z) (m : positive) (e : Z) :
  digits2_pos m = 53%positive -> -1074 <= e <= 971 ->
  (k <= e /\ Zpos n = Zpos m * 2 ^ (e - k)) \/
  (e < k /\ Zpos m = Zpos n * 2 ^ (k - e)) ->
  binary_round 53 1024 sx n k = S754_finite sx m e.
Proof.
  intros D He [[Hk Hn] | [Hk Hm]]; unfold binary_round.
  - destruct (Z.eq_dec k e) as [-> | Hne].
    + rewrite Z.sub_diag, Z.mul_1_r in Hn. injection Hn as ->.
      rewrite D.
      assert (Hf : fexp 53 1024 (53 + e) = e) by (unfold fexp, emin; lia).
      rewrite Hf. unfold shl_align. rewrite Z.sub_diag.
      now apply binary_round_aux_canonical.
    + destruct (e - k) as [| d | d] eqn:Hd; try lia.
      rewrite <- iter_xO_Z in Hn. injection Hn as ->.
      rewrite digits2_pos_iter, D.
      assert (Hf : fexp 53 1024 (Zpos (53 + d) + k) = e) by (unfold fexp, emin; lia).
      rewrite Hf. unfold shl_align. rewrite Hd.
      rewrite binary_round_aux_shift by (assumption || lia).
      f_equal. lia.
  - destruct (k - e) as [| d | d] eqn:Hd; try lia.
    rewrite <- iter_xO_Z in Hm. injection Hm as ->.
    rewrite digits2_pos_iter in D.
    assert (Hf : fexp 53 1024 (Zpos (digits2_pos n) + k) = e)
      by (unfold fexp, emin; lia).
    rewrite Hf. unfold shl_align.
    replace (e - k) with (Zneg d) by lia.
    apply binary_round_aux_canonical; [now rewrite digits2_pos_iter | lia].
Qed.

Lemma shl_align_fst (m : positive) (e ez : Z) :
  ez <= e -> Zpos (fst (shl_align m e ez)) = Zpos m * 2 ^ (e - ez).
Proof.
  intros H. unfold shl_align.
  destruct (ez - e) as [| d | d] eqn:Hd; try lia; cbn [fst].
  - replace (e - ez) with 0 by lia. lia.
  - rewrite iter_xO_Z. f_equal. f_equal. lia.
Qed.

(** A positive multiple of [2 ^ d] below [2 ^ (53 + d)], counted in units of
    [2 ^ -52], has a canonical mantissa and exponent. *)
Lemma normal_form (n : positive) (d u : Z) :
  0 <= d <= 52 -> Zpos n = u * 2 ^ d -> Zpos n < 2 ^ (53 + d) ->
  exists (m1 : positive) (e1 : Z),
    digits2_pos m1 = 53%positive /\ -104 <= e1 <= d - 52 /\
    ((-52 <= e1 /\ Zpos n = Zpos m1 * 2 ^ (e1 + 52)) \/
     (e1 < -52 /\ Zpos m1 = Zpos n * 2 ^ (-52 - e1))).
Proof.
  intros Hd Hu Hlt.
  pose proof (digits2_pos_log2 n) as L.
  pose proof (Z.log2_spec (Zpos n) ltac:(lia)) as [Lo Hi].
  pose proof (Z.log2_nonneg (Zpos n)) as L0.
  set (t := Z.log2 (Zpos n)) in *.
  assert (Ht : t < 53 + d).
  { apply (Z.pow_lt_mono_r_iff 2); lia. }
  destruct (Z_le_gt_dec t 52) as [Hle | Hgt].
  - (* at most 53 digits: shift left *)
    destruct (Z.eq_dec t 52) as [E52 | N52].
    + exists n, (-52). rewrite digits2_pos_53. rewrite E52 in Lo, Hi.
      replace (Z.succ 52) with 53 in Hi by lia.
      repeat split; try lia.
    + destruct (52 - t) as [| c | c] eqn:Hc; try lia.
      exists (Pos.iter xO n c), (-52 - Zpos c).
      assert (Hv : Zpos (Pos.iter xO n c) = Zpos n * 2 ^ (52 - t))
        by (rewrite iter_xO_Z; f_equal; f_equal; lia).
      split.
      { rewrite digits2_pos_53, Hv.
        replace (2 ^ 52) with (2 ^ t * 2 ^ (52 - t))
          by (rewrite <- Z.pow_add_r by lia; f_equal; lia).
        replace (2 ^ 53) with (2 ^ Z.succ t * 2 ^ (52 - t))
          by (rewrite <- Z.pow_add_r by lia; f_equal; lia).
        assert (0 < 2 ^ (52 - t)) by (apply Z.pow_pos_nonneg; lia).
        split; nia. }
      split; [lia |]. right. split; [lia |].
      rewrite Hv. f_equal. f_equal. lia.
  - (* more than 53 digits: the low bits are zero *)
    set (c := t - 52).
    assert (Hc : 0 < c <= d) by (unfold c; lia).
    assert (Hu' : Zpos n = (u * 2 ^ (d - c)) * 2 ^ c).
    { rewrite <- Z.mul_assoc, <- Z.pow_add_r by lia.
      rewrite Hu. f_equal. f_equal. lia. }
    assert (P : 0 < 2 ^ c) by (apply Z.pow_pos_nonneg; lia).
    assert (Hpos : 0 < u * 2 ^ (d - c)) by nia.
    exists (Z.to_pos (u * 2 ^ (d - c))), (-52 + c).
    assert (Hm1 : Zpos (Z.to_pos (u * 2 ^ (d - c))) = u * 2 ^ (d - c))
      by (apply Z2Pos.id; lia).
    split.
    { rewrite digits2_pos_53, Hm1.
      replace t with (52 + c) in Lo by (unfold c; lia).
      replace (Z.succ t) with (53 + c) in Hi by (unfold c; lia).
      rewrite Z.pow_add_r in Lo, Hi by lia.
      split; nia. }
    split; [lia |]. left. split; [lia |].
    rewrite Hm1. rewrite Hu'. f_equal. f_equal. lia.
Qed.

Lemma SFadd_exact (s1 : bool) (m1 : positive) (e1 : Z)
      (s2 : bool) (m2 : positive) (e2 : Z) (ez v : Z) (m : positive) (e : Z) :
  ez = Z.min e1 e2 ->
  v = cond_Zopp s1 (Zpos m1 * 2 ^ (e1 - ez)) + cond_Zopp s2 (Zpos m2 * 2 ^ (e2 - ez)) ->
  digits2_pos m = 53%positive -> -1074 <= e <= 971 ->
  (ez <= e /\ v = Zpos m * 2 ^ (e - ez)) \/ (e < ez /\ Zpos m = v * 2 ^ (ez - e)) ->
  SFadd 53 1024 (S754_finite s1 m1 e1) (S754_finite s2 m2 e2) = S754_finite false m e.
Proof.
  intros Hez Hv D He Hval.
  cbn [SFadd]. rewrite <- Hez.
  rewrite !shl_align_fst by lia. rewrite <- Hv.
  assert (Hpos : 0 < v).
  { destruct Hval as [[Hk Hn] | [Hk Hm]].
    - rewrite Hn. apply Z.mul_pos_pos; [lia | apply Z.pow_pos_nonneg; lia].
    - assert (0 < 2 ^ (ez - e)) by (apply Z.pow_pos_nonneg; lia). nia. }
  destruct v as [| n | n]; try lia.
  cbn [binary_normalize].
  now apply binary_round_exact.
Qed.

Lemma shift_cancels_SF (m : positive) (e : Z) :
  digits2_pos m = 53%positive -> -52 <= e <= 0 ->
  SFadd 53 1024
    (SFadd 53 1024 (S754_finite false m e) (S754_finite true 4503599627370496 (-52)))
    (S754_finite false 4503599627370496 (-52))
  = S754_finite false m e.
Proof.
  intros D He.
  pose proof (proj1 (digits2_pos_53 m) D) as [Mlo Mhi].
  set (d := e + 52).
  assert (Hd : 0 <= d <= 52) by (unfold d; lia).
  assert (P : 0 < 2 ^ d) by (apply Z.pow_pos_nonneg; lia).
  assert (P52 : 2 ^ (52 - d) * 2 ^ d = 2 ^ 52)
    by (rewrite <- Z.pow_add_r by lia; f_equal; lia).
  assert (P' : 0 < 2 ^ (52 - d)) by (apply Z.pow_pos_nonneg; lia).
  set (v := Zpos m * 2 ^ d - 2 ^ 52).
  assert (Hv0 : 0 <= v) by (unfold v; nia).
  destruct (Z.eq_dec v 0) as [Z0 | NZ].
  - (* the number is 1 *)
    assert (d = 0).
    { destruct (Z.eq_dec d 0) as [|Hne]; [assumption | exfalso].
      assert (2 ^ 1 <= 2 ^ d) by (apply Z.pow_le_mono_r; lia).
      unfold v in Z0. change (2 ^ 1) with 2 in *. nia. }
    assert (e = -52) by (unfold d in *; lia). subst e.
    assert (m = 4503599627370496%positive).
    { unfold v in Z0. replace d with 0 in Z0 by assumption.
      change (2 ^ 0) with 1 in Z0. change (2 ^ 52) with 4503599627370496 in Z0. lia. }
    subst m. reflexivity.
  - destruct (normal_form (Z.to_pos v) d (Zpos m - 2 ^ (52 - d)))
      as (m1 & e1 & D1 & He1 & Hval1).
    + assumption.
    + rewrite Z2Pos.id by lia. unfold v. rewrite Z.mul_sub_distr_r, P52. reflexivity.
    + rewrite Z2Pos.id by lia. unfold v. rewrite Z.pow_add_r by lia.
      change (2 ^ 53) with 9007199254740992 in *. nia.
    + rewrite Z2Pos.id in Hval1 by lia.
      rewrite (SFadd_exact false m e true 4503599627370496 (-52) (-52) v m1 e1);
        try assumption; try lia.
      * (* adding one back *)
        apply (SFadd_exact false m1 e1 false 4503599627370496 (-52)
                 (Z.min e1 (-52))
                 (Zpos m1 * 2 ^ (e1 - Z.min e1 (-52))
                  + 4503599627370496 * 2 ^ (-52 - Z.min e1 (-52))));
          try reflexivity; try assumption; try lia.
        left. split; [lia |].
        destruct Hval1 as [[Hk Hn] | [Hk Hm]].
        -- replace (Z.min e1 (-52)) with (-52) by lia.
           replace (-52 - -52) with 0 by lia.
           replace (e1 - -52) with (e1 + 52) by lia.
           replace (e - -52) with d by (unfold d; lia).
           rewrite <- Hn. unfold v. change (2 ^ 0) with 1.
           change (2 ^ 52) with 4503599627370496. lia.
        -- replace (Z.min e1 (-52)) with e1 by lia.
           replace (e1 - e1) with 0 by lia. change (2 ^ 0) with 1.
           rewrite Z.mul_1_r, Hm.
           replace (e - e1) with (d + (-52 - e1)) by (unfold d; lia).
           rewrite Z.pow_add_r by lia.
           unfold v. change (2 ^ 52) with 4503599627370496. lia.
      * unfold v. cbn [cond_Zopp].
        replace (e - -52) with d by (unfold d; lia).
        replace (-52 - -52) with 0 by lia. change (2 ^ 0) with 1.
        change (2 ^ 52) with 4503599627370496. lia.
Qed.

End Exact.

(** *** Numbers *)

Local Open Scope float_scope.

Lemma is_number_spec (x : number) :
  is_number x = true <-> sf_not_nan (Prim2SF x).
Proof.
  unfold is_number, sf_not_nan. rewrite eqb_spec. unfold SFeqb.
  rewrite SFcompare_refl.
  destruct (Prim2SF x); split; intros H; congruence.
Qed.

Lemma add_is_number (x y : number) :
  is_number x = true -> sf_finite (Prim2SF y) -> is_number (x + y) = true.
Proof.
  rewrite !is_number_spec, add_spec. apply SFadd_not_nan.
Qed.

Lemma sub_is_number (x y : number) :
  is_number x = true -> sf_finite (Prim2SF y) -> is_number (x - y) = true.
Proof.
  rewrite !is_number_spec, sub_spec. apply SFsub_not_nan.
Qed.

Lemma finite_is_number (x : number) :
  sf_finite (Prim2SF x) -> is_number x = true.
Proof.
  rewrite is_number_spec. unfold sf_not_nan.
  destruct (Prim2SF x); simpl; intros H; congruence || contradiction.
Qed.

Lemma ltb_irrefl (x : number) : (x <? x) = false.
Proof.
  rewrite ltb_spec. unfold SFltb. rewrite SFcompare_refl.
  now destruct (Prim2SF x).
Qed.

Lemma ltb_leb_absurd (x y : number) :
  (x <? y) = true -> (y <=? x) = true -> False.
Proof.
  rewrite ltb_spec, leb_spec. unfold SFltb, SFleb.
  rewrite (SFcompare_antisym (Prim2SF x) (Prim2SF y)).
  destruct (SFcompare (Prim2SF x) (Prim2SF y)) as [[| |] |]; simpl; congruence.
Qed.

Lemma ltb_is_number (x y : number) :
  (x <? y) = true -> is_number x = true /\ is_number y = true.
Proof.
  rewrite ltb_spec, !is_number_spec. unfold SFltb, sf_not_nan.
  destruct (Prim2SF x), (Prim2SF y); simpl; intros H; split; congruence.
Qed.

(** A bleed [b] with [0 <= b] and [2 * b < w] is neither NaN nor
    infinite. *)
Lemma bleed_finite (b w : number) :
  (0 <=? b) = true -> (2 * b <? w) = true -> sf_finite (Prim2SF b).
Proof.
  rewrite leb_spec, ltb_spec, mul_spec.
  change (Prim2SF 0) with (S754_zero false).
  change (Prim2SF 2) with (S754_finite false 4503599627370496 (-51)).
  unfold SFleb, SFltb, SF64mul.
  destruct (Prim2SF b) as [s | [|] | | s m e]; simpl; try congruence; auto.
  destruct (Prim2SF w) as [s | [|] | | s m e]; simpl; congruence.
Qed.

(** Subtracting 1 and adding it back is exact from 1 up to [2 ^ 53]. *)
Theorem shift_cancels (s : float) :
  (1 <=? s) = true -> (s <? 0x1p53) = true -> s + -1 + 1 = s.
Proof.
  intros H1 H2. apply Prim2SF_inj. rewrite !add_spec.
  rewrite leb_spec in H1. rewrite ltb_spec in H2.
  change (Prim2SF (-1)) with (S754_finite true 4503599627370496 (-52)).
  change (Prim2SF 1) with (S754_finite false 4503599627370496 (-52)) in *.
  change (Prim2SF 0x1p53) with (S754_finite false 4503599627370496 1) in H2.
  pose proof (Prim2SF_valid s) as V.
  unfold SFleb in H1. unfold SFltb in H2.
  destruct (Prim2SF s) as [sg | [|] | | [|] m e]; cbn [SFcompare] in H1, H2;
    try discriminate H1; try discriminate H2.
  unfold valid_binary, bounded, canonical_mantissa in V.
  apply andb_true_iff in V. destruct V as [C B].
  apply Z.eqb_eq in C. apply Z.leb_le in B.
  assert (Hlo : (-52 <= e)%Z).
  { destruct (Z.compare_spec (-52) e); try lia; discriminate H1. }
  assert (D : digits2_pos m = 53%positive).
  { unfold fexp, emin, prec, emax in C. apply Pos2Z.inj. lia. }
  pose proof (proj1 (digits2_pos_53 m) D) as [Mlo Mhi].
  assert (Hhi : (e <= 0)%Z).
  { destruct (Z.compare_spec e 1) as [E | L | G].
    - rewrite Pos.compare_cont_spec in H2. cbn [Pos.switch_Eq] in H2.
      destruct (Pos.compare_spec m 4503599627370496) as [Q | Q | Q];
        try discriminate H2.
      change (2 ^ 52)%Z with 4503599627370496%Z in Mlo.
      apply Pos2Z.pos_lt_pos in Q. clear - Mlo Q. lia.
    - clear - L. lia.
    - discriminate H2. }
  unfold SF64add. apply shift_cancels_SF; [assumption | clear - Hlo Hhi; lia].
Qed.

End Binary64.

(** ** Whole numbers add without rounding *)

Section Whole.

Local Open Scope Z_scope.

(** A canonical mantissa and exponent whose value, scaled by [2 ^ c], is a
    whole number [k] below [2 ^ 53]. *)
Lemma scaled_canonical (m : positive) (e k c : Z) :
  digits2_pos m = 53%positive -> 0 <= e + c -> 0 <= c ->
  1 <= k < 2 ^ 53 ->
  Zpos m * 2 ^ (e + c) = k * 2 ^ c ->
  -52 <= e <= 0 /\ Zpos m = k * 2 ^ (- e).
Proof.
  intros D Hec Hc Hk H.
  apply Binary64.digits2_pos_53 in D. destruct D as [Mlo Mhi].
  assert (Pc : 0 < 2 ^ c) by (apply Z.pow_pos_nonneg; lia).
  assert (Pec : 0 < 2 ^ (e + c)) by (apply Z.pow_pos_nonneg; lia).
  assert (He : e <= 0).
  { destruct (Z_le_gt_dec e 0) as [L | G]; [exact L | exfalso].
    rewrite Z.pow_add_r in H by lia.
    rewrite Z.mul_assoc in H. apply Z.mul_cancel_r in H; [| lia].
    assert (2 ^ 1 <= 2 ^ e) by (apply Z.pow_le_mono_r; lia).
    change (2 ^ 1) with 2 in *. change (2 ^ 52) with 4503599627370496 in Mlo.
    change (2 ^ 53) with 9007199254740992 in *. nia. }
  assert (Hsplit : 2 ^ c = 2 ^ (e + c) * 2 ^ (- e)).
  { rewrite <- Z.pow_add_r by lia. f_equal. lia. }
  rewrite Hsplit in H.
  assert (Hm : Zpos m = k * 2 ^ (- e)).
  { apply (Z.mul_cancel_r _ _ (2 ^ (e + c))); [lia |]. rewrite H. ring. }
  split; [| exact Hm].
  split; [| exact He].
  destruct (Z_le_gt_dec (-52) e) as [L | G]; [exact L | exfalso].
  assert (2 ^ 53 <= 2 ^ (- e)) by (apply Z.pow_le_mono_r; lia).
  change (2 ^ 53) with 9007199254740992 in *. nia.
Qed.

(** The canonical mantissa and exponent of a whole number below [2 ^ 53]. *)
Lemma whole_canonical (k : Z) :
  1 <= k < 2 ^ 53 ->
  exists (m : positive) (e : Z),
    digits2_pos m = 53%positive /\ -52 <= e <= 0 /\ Zpos m = k * 2 ^ (- e).
Proof.
  intros Hk.
  pose proof (Z.log2_spec k ltac:(lia)) as [Lo Hi].
  pose proof (Z.log2_nonneg k) as L0.
  set (t := Z.log2 k) in *.
  assert (Ht : t < 53).
  { apply (Z.pow_lt_mono_r_iff 2); lia. }
  assert (P : 0 < 2 ^ (52 - t)) by (apply Z.pow_pos_nonneg; lia).
  exists (Z.to_pos (k * 2 ^ (52 - t))), (t - 52).
  assert (Hm : Zpos (Z.to_pos (k * 2 ^ (52 - t))) = k * 2 ^ (52 - t))
    by (apply Z2Pos.id; nia).
  split; [| split; [lia |]].
  - apply Binary64.digits2_pos_53. rewrite Hm.
    replace (2 ^ 52) with (2 ^ t * 2 ^ (52 - t))
      by (rewrite <- Z.pow_add_r by lia; f_equal; lia).
    replace (2 ^ 53) with (2 ^ Z.succ t * 2 ^ (52 - t))
      by (rewrite <- Z.pow_add_r by lia; f_equal; lia).
    split; nia.
  - rewrite Hm. f_equal. f_equal. lia.
Qed.

(** Two positive whole numbers whose sum is below [2 ^ 53] are added without
    rounding. *)
Lemma SFadd_whole (m1 : positive) (e1 : Z) (m2 : positive) (e2 : Z) (k1 k2 : Z) :
  digits2_pos m1 = 53%positive -> digits2_pos m2 = 53%positive ->
  -52 <= e1 <= 0 -> -52 <= e2 <= 0 ->
  Zpos m1 = k1 * 2 ^ (- e1) -> Zpos m2 = k2 * 2 ^ (- e2) ->
  k1 + k2 < 2 ^ 53 ->
  exists (m : positive) (e : Z),
    -52 <= e <= 0 /\ Zpos m = (k1 + k2) * 2 ^ (- e) /\
    SFadd 53 1024 (S754_finite false m1 e1) (S754_finite false m2 e2)
    = S754_finite false m e.
Proof.
  intros D1 D2 He1 He2 H1 H2 Hk.
  pose proof (proj1 (Binary64.digits2_pos_53 m1) D1) as [M1lo M1hi].
  pose proof (proj1 (Binary64.digits2_pos_53 m2) D2) as [M2lo M2hi].
  assert (P1 : 0 < 2 ^ (- e1)) by (apply Z.pow_pos_nonneg; lia).
  assert (P2 : 0 < 2 ^ (- e2)) by (apply Z.pow_pos_nonneg; lia).
  assert (K1 : 1 <= k1) by nia.
  assert (K2 : 1 <= k2) by nia.
  destruct (whole_canonical (k1 + k2) ltac:(lia)) as (m & e & D & He & Hm).
  pose proof (proj1 (Binary64.digits2_pos_53 m) D) as [Mlo Mhi].
  assert (P : 0 < 2 ^ (- e)) by (apply Z.pow_pos_nonneg; lia).
  assert (Above : forall (mi : positive) (ei ki : Z),
             -52 <= ei <= 0 -> Zpos mi = ki * 2 ^ (- ei) -> 2 ^ 52 <= Zpos mi ->
             1 <= ki <= k1 + k2 -> ei <= e).
  { intros mi ei ki Hei Hmi Mi Hki.
    destruct (Z_le_gt_dec ei e) as [L | G]; [exact L | exfalso].
    assert (Hpow : 2 ^ (- e) = 2 ^ (- ei) * 2 ^ (ei - e))
      by (rewrite <- Z.pow_add_r by lia; f_equal; lia).
    assert (2 ^ 1 <= 2 ^ (ei - e)) by (apply Z.pow_le_mono_r; lia).
    assert (Pi : 0 < 2 ^ (- ei)) by (apply Z.pow_pos_nonneg; lia).
    change (2 ^ 1) with 2 in *.
    change (2 ^ 52) with 4503599627370496 in *.
    change (2 ^ 53) with 9007199254740992 in *.
    rewrite Hpow, Z.mul_assoc in Hm.
    assert (S1 : Zpos mi <= (k1 + k2) * 2 ^ (- ei))
      by (rewrite Hmi; apply Z.mul_le_mono_nonneg_r; lia).
    assert (S2 : (k1 + k2) * 2 ^ (- ei) * 2
                 <= (k1 + k2) * 2 ^ (- ei) * 2 ^ (ei - e))
      by (apply Z.mul_le_mono_nonneg_l; lia).
    lia. }
  assert (E1 : e1 <= e) by (apply (Above m1 e1 k1); (assumption || lia)).
  assert (E2 : e2 <= e) by (apply (Above m2 e2 k2); (assumption || lia)).
  exists m, e. split; [exact He |]. split; [exact Hm |].
  apply (Binary64.SFadd_exact false m1 e1 false m2 e2 (Z.min e1 e2)
           (Zpos m1 * 2 ^ (e1 - Z.min e1 e2) + Zpos m2 * 2 ^ (e2 - Z.min e1 e2)));
    try reflexivity; try assumption; try lia.
  left. split; [lia |].
  set (ez := Z.min e1 e2) in *.
  assert (Hez : ez <= e1 /\ ez <= e2) by (unfold ez; lia).
  rewrite H1, H2, Hm.
  rewrite <- !Z.mul_assoc, <- !Z.pow_add_r by lia.
  replace (- e1 + (e1 - ez)) with (- ez) by lia.
  replace (- e2 + (e2 - ez)) with (- ez) by lia.
  replace (- e + (e - ez)) with (- ez) by lia.
  ring.
Qed.

(** A double whose value is a whole number from 0 to [2 ^ 53] is a zero or
    has a positive sign and the canonical mantissa and exponent of that
    number. *)
Lemma units_whole (x : float) (k : Z) :
  0 <= k < 2 ^ 53 -> units x = Some (k * 2 ^ 1074) ->
  (k = 0 /\ exists s, Prim2SF x = S754_zero s) \/
  (1 <= k /\
   exists (m : positive) (e : Z),
     Prim2SF x = S754_finite false m e /\ digits2_pos m = 53%positive /\
     -52 <= e <= 0 /\ Zpos m = k * 2 ^ (- e)).
Proof.
  intros Hk H. pose proof (Prim2SF_valid x) as V. unfold units in H.
  assert (PU : 0 < 2 ^ 1074) by (apply Z.pow_pos_nonneg; lia).
  assert (U53 : 2 ^ 53 <= 2 ^ 1074) by (apply Z.pow_le_mono_r; lia).
  remember (2 ^ 1074) as U eqn:HU.
  destruct (Prim2SF x) as [s | s | | s m e]; try discriminate H.
  - left. split; [| now exists s].
    assert (H' : k * U = 0) by congruence. apply Z.mul_eq_0 in H'. lia.
  - right.
    unfold valid_binary, bounded, canonical_mantissa in V.
    apply andb_true_iff in V. destruct V as [C _]. apply Z.eqb_eq in C.
    unfold fexp, emin, prec, emax in C.
    pose proof (Binary64.digits2_pos_log2 m) as L.
    pose proof (Z.log2_spec (Zpos m) ltac:(lia)) as [_ Hi].
    pose proof (Z.log2_nonneg (Zpos m)) as L0.
    assert (He : -1074 <= e) by lia.
    assert (P : 0 < 2 ^ (e + 1074)) by (apply Z.pow_pos_nonneg; lia).
    assert (MP : 0 < Zpos m * 2 ^ (e + 1074)) by (apply Z.mul_pos_pos; lia).
    remember (Zpos m * 2 ^ (e + 1074)) as V eqn:HV.
    assert (H' : cond_Zopp s V = k * U) by congruence. clear H. rename H' into H.
    assert (KU : 0 <= k * U) by (apply Z.mul_nonneg_nonneg; lia).
    destruct s; cbn [cond_Zopp] in H; [exfalso; lia |].
    assert (K : 1 <= k).
    { destruct (Z.eq_dec k 0) as [-> | N]; [rewrite Z.mul_0_l in H |]; lia. }
    assert (D : digits2_pos m = 53%positive).
    { destruct (Z.eq_dec (Zpos (digits2_pos m)) 53) as [E | N];
        [now apply Pos2Z.inj | exfalso].
      assert (E : e = -1074) by lia.
      assert (Dle : Z.succ (Z.log2 (Zpos m)) <= 53) by lia.
      assert (Mlt : Zpos m < 2 ^ 53).
      { eapply Z.lt_le_trans; [exact Hi |]. apply Z.pow_le_mono_r; lia. }
      subst e. change (-1074 + 1074) with 0 in HV. change (2 ^ 0) with 1 in HV.
      rewrite Z.mul_1_r in HV.
      assert (U <= k * U) by (rewrite <- (Z.mul_1_l U) at 1;
                              apply Z.mul_le_mono_nonneg_r; lia).
      lia. }
    split; [exact K |]. exists m, e. split; [reflexivity |]. split; [exact D |].
    subst U V. apply (scaled_canonical m e k 1074); (assumption || lia).
Qed.

(** Two doubles whose values are whole numbers, none negative, with a sum
    below [2 ^ 53], are added without rounding. *)
Lemma whole_sum_units (a b : float) (k1 k2 : Z) :
  0 <= k1 -> 0 <= k2 -> k1 + k2 < 2 ^ 53 ->
  units a = Some (k1 * 2 ^ 1074) -> units b = Some (k2 * 2 ^ 1074) ->
  units (a + b)%float = Some ((k1 + k2) * 2 ^ 1074).
Proof.
  intros K1 K2 K Ha Hb.
  destruct (units_whole a k1 ltac:(lia) Ha)
    as [[-> (s1 & Sa)] | (K1' & m1 & e1 & Sa & D1 & E1 & M1)];
    destruct (units_whole b k2 ltac:(lia) Hb)
      as [[-> (s2 & Sb)] | (K2' & m2 & e2 & Sb & D2 & E2 & M2)];
    unfold units; rewrite add_spec, Sa, Sb; unfold SF64add.
  - cbn [SFadd]. rewrite Z.add_0_l, Z.mul_0_l. now destruct s1, s2.
  - cbn [SFadd]. rewrite Z.add_0_l. unfold units in Hb. now rewrite Sb in Hb.
  - cbn [SFadd]. rewrite Z.add_0_r. unfold units in Ha. now rewrite Sa in Ha.
  - destruct (SFadd_whole m1 e1 m2 e2 k1 k2 D1 D2 E1 E2 M1 M2 K)
      as (m & e & E & M & Hadd).
    change (SFadd prec emax) with (SFadd 53 1024). rewrite Hadd.
    cbn [cond_Zopp]. rewrite M, <- Z.mul_assoc, <- Z.pow_add_r by lia.
    do 3 f_equal. lia.
Qed.

Lemma whole_sum_reaches (a b : float) (k1 k2 : Z) :
  0 <= k1 -> 0 <= k2 -> k1 + k2 < 2 ^ 53 ->
  whole a k1 -> whole b k2 ->
  sum_reaches a b = true.
Proof.
  unfold whole. intros K1 K2 K Ha Hb. unfold sum_reaches.
  rewrite (whole_sum_units a b k1 k2 K1 K2 K Ha Hb), Ha, Hb.
  assert (PU : 0 < 2 ^ 1074) by (apply Z.pow_pos_nonneg; lia).
  remember (2 ^ 1074) as U eqn:HU. clear HU.
  replace (0 <=? k2 * U) with true
    by (symmetry; apply Z.leb_le, Z.mul_nonneg_nonneg; lia).
  apply Z.leb_le. lia.
Qed.

End Whole.

(** ** Runs with arbitrary primitives *)

Section Propagation.

Variable E : Type.
Variable pdflib : Primitives E.










(** Whatever a run returns, the run with accepting primitives returns too. *)











End Propagation.

(** ** The Cut-Mark Renderer *)

Lemma ieee_eq_mark (x1 y1 x2 y2 : number) :
  is_number x1 = true -> is_number y1 = true ->
  is_number x2 = true -> is_number y2 = true ->
  ieee_eq_line (mark x1 y1 x2 y2) (mark x1 y1 x2 y2) = true.
Proof.
  unfold is_number, ieee_eq_line, ieee_eq_point, mark; simpl.
  intros -> -> -> ->. reflexivity.
Qed.

Ltac number :=
  repeat first
    [ assumption
    | exact I
    | apply Binary64.add_is_number
    | apply Binary64.sub_is_number ].

(** C1.  For every [width], [height] and [bleed] with [bleed >= 0] and
    [width, height > 2 * bleed], on any page of any document, [drawCutMarks]
    returns after drawing exactly 8 segments on that page and touching nothing
    else.  Segment by segment they are the rows of the offset table of §4.2,
    with stroke width 1 and in black; no coordinate is NaN, so the segments
    equal the rows for the [==] of binary64 as well as bit for bit. *)
Theorem drawCutMarks_draws_table :
  forall (before : PDFDocument) (pg : PDFPage) (after : PDFDocument)
         (w h b : number),
    (0 <=? b)%float = true ->
    (2 * b <? w)%float = true ->
    (2 * b <? h)%float = true ->
    exists drawn : list LineOptions,
      drawCutMarks accepting (length before) w h b (before ++ pg :: after)
      = Returned tt (before ++ draw_all (map OpDrawLine drawn) pg :: after) /\
      length drawn = 8 /\
      drawn = cut_mark_table w h b /\
      Forall2 (fun l row => ieee_eq_line l row = true) drawn (cut_mark_table w h b) /\
      Forall (fun l => line_thickness l = 1%float /\ line_color l = black) drawn.
Proof.
  intros before pg after w h b Hb Hw Hh.
  exists (cut_mark_table w h b). split; [| split; [| split; [| split]]].
  - rewrite <- (draw_all_nil pg) at 1. apply drawCutMarks_accepting.
  - reflexivity.
  - reflexivity.
  - pose proof (Binary64.bleed_finite b w Hb Hw) as Fb.
    pose proof (Binary64.finite_is_number b Fb) as Nb.
    destruct (Binary64.ltb_is_number _ _ Hw) as [_ Nw].
    destruct (Binary64.ltb_is_number _ _ Hh) as [_ Nh].
    unfold cut_mark_table.
    repeat (apply Forall2_cons; [apply ieee_eq_mark; number |]).
    apply Forall2_nil.
  - unfold cut_mark_table, mark. repeat constructor.
Qed.

Lemma drawCutMarks_draws_table_witness :
  exists drawn : list LineOptions,
    drawCutMarks accepting 1 1224 792 18 [blank 10 10; blank 1224 792]
    = Returned tt [blank 10 10; draw_all (map OpDrawLine drawn) (blank 1224 792)] /\
    length drawn = 8 /\
    drawn = cut_mark_table 1224 792 18 /\
    Forall2 (fun l row => ieee_eq_line l row = true) drawn (cut_mark_table 1224 792 18) /\
    Forall (fun l => line_thickness l = 1%float /\ line_color l = black) drawn.
Proof.
  apply (drawCutMarks_draws_table [blank 10 10] (blank 1224 792) [] 1224 792 18);
    reflexivity.
Defined.

(** ** The Center-Gutter Mark Renderer *)

(** C2.  For every input, on any page of any document, [drawMiddleMarks]
    returns after drawing exactly 2 segments on that page, both vertical at
    [x = imgWidth + bleed + offset1 + 1], the given [offset1] or -1 when it is
    left out:
    one from [(x, bleed - 10)] to [(x, bleed)] and one from
    [(x, finalHeight - bleed - 10)] to [(x, finalHeight - bleed)].  The run is
    the same whatever [extraGutter] and [offset2] are. *)
Theorem drawMiddleMarks_two_ticks :
  forall (before : PDFDocument) (pg : PDFPage) (after : PDFDocument)
         (o : MiddleMarkOptions),
    (exists (x : number) (drawn : list LineOptions),
        x = match mm_offset1 o with
            | Some offset1 => (mm_imgWidth o + mm_bleed o + offset1 + 1)%float
            | None => (mm_imgWidth o + mm_bleed o + -1 + 1)%float
            end /\
        drawMiddleMarks accepting (length before) o (before ++ pg :: after)
        = Returned tt (before ++ draw_all (map OpDrawLine drawn) pg :: after) /\
        drawn = [ mark x (mm_bleed o - 10) x (mm_bleed o);
                  mark x (mm_finalHeight o - mm_bleed o - 10)
                       x (mm_finalHeight o - mm_bleed o) ] /\
        length drawn = 2 /\
        Forall (at_abscissa x) drawn) /\
    (forall (doc : PDFDocument) (page : PageRef) (extraGutter offset2 : option number),
        drawMiddleMarks accepting page (with_gutter o extraGutter offset2) doc
        = drawMiddleMarks accepting page o doc).
Proof.
  intros before pg after o. split.
  - exists (mm_imgWidth o + mm_bleed o + default (-1) (mm_offset1 o) + 1)%float.
    exists (gutter_marks
              (mm_imgWidth o + mm_bleed o + default (-1) (mm_offset1 o) + 1)
              (mm_bleed o) (mm_finalHeight o)).
    split; [now destruct (mm_offset1 o) |]. split; [| split; [| split]].
    + rewrite <- (draw_all_nil pg) at 1. apply drawMiddleMarks_accepting.
    + reflexivity.
    + reflexivity.
    + repeat constructor.
  - intros doc page extraGutter offset2. reflexivity.
Qed.

(** ** The Spread Composer *)

(** C3.  For every spread and every pair of present page references, the
    composer places the left one at [(marginX, marginY)] and the right one at
    [(marginX + imgWidth, marginY)], both with size [(imgWidth, imgHeight)]:
    the right placement starts at the left placement's [x] plus [imgWidth],
    with no gap. *)
Theorem createSpreadPage_places_side_by_side :
  forall (l r : PDFEmbeddedPage) (w h mx my iw ih b : number)
         (eg : option number) (doc : PDFDocument),
  exists (pg : PDFPage) (rl rr : DrawPageOptions),
    createSpreadPage accepting (mkSpread (Some l) (Some r) w h mx my iw ih b eg) doc
    = Returned (length doc) (doc ++ [pg]) /\
    placements (page_contents pg) = [(l, rl); (r, rr)] /\
    rl = {| rect_x := mx; rect_y := my; rect_width := iw; rect_height := ih |} /\
    rr = {| rect_x := mx + iw; rect_y := my; rect_width := iw; rect_height := ih |} /\
    rect_x rr = (rect_x rl + rect_width rl)%float.
Proof.
  intros. eexists. eexists. eexists.
  split; [apply createSpreadPage_accepting |].
  split; [cbn [page_contents]; rewrite placements_spread; reflexivity |].
  repeat split.
Qed.

(** C4.  When the right reference is absent the composer returns normally and
    the page holds no placement but the left one (if any); when the left
    reference is absent, none but the right one (if any). *)
Theorem createSpreadPage_skips_absent_side :
  forall (side : option PDFEmbeddedPage) (w h mx my iw ih b : number)
         (eg : option number) (doc : PDFDocument),
    (exists pg : PDFPage,
        createSpreadPage accepting (mkSpread side None w h mx my iw ih b eg) doc
        = Returned (length doc) (doc ++ [pg]) /\
        placements (page_contents pg)
        = match side with
          | Some l => [(l, {| rect_x := mx; rect_y := my;
                              rect_width := iw; rect_height := ih |})]
          | None => []
          end) /\
    (exists pg : PDFPage,
        createSpreadPage accepting (mkSpread None side w h mx my iw ih b eg) doc
        = Returned (length doc) (doc ++ [pg]) /\
        placements (page_contents pg)
        = match side with
          | Some r => [(r, {| rect_x := mx + iw; rect_y := my;
                              rect_width := iw; rect_height := ih |})]
          | None => []
          end).
Proof.
  intros. split; eexists;
    (split; [apply createSpreadPage_accepting |]);
    cbn [page_contents]; rewrite placements_spread; destruct side; reflexivity.
Qed.

(** C5.  Every call appends exactly one page, of size [(width, height)], to the
    document and returns the reference of that page; the pages already in the
    document are left as they were.  The new page holds at most two
    placements and exactly 10 segments, the 8 cut marks followed by the 2
    gutter ticks, and nothing else. *)
Theorem createSpreadPage_effects :
  forall (o : SpreadOptions) (doc : PDFDocument),
  exists (page : PageRef) (pg : PDFPage),
    createSpreadPage accepting o doc = Returned page (doc ++ [pg]) /\
    nth_error (doc ++ [pg]) page = Some pg /\
    (forall q : PageRef, q < length doc -> nth_error (doc ++ [pg]) q = nth_error doc q) /\
    page_size pg = (width o, height o) /\
    length (placements (page_contents pg)) <= 2 /\
    segments (page_contents pg)
    = cut_mark_table (width o) (height o) (bleed o) ++
      gutter_marks (imgWidth o + bleed o + -1 + 1) (bleed o) (height o) /\
    length (cut_mark_table (width o) (height o) (bleed o)) = 8 /\
    length (gutter_marks (imgWidth o + bleed o + -1 + 1) (bleed o) (height o)) = 2 /\
    length (segments (page_contents pg)) = 10 /\
    length (page_contents pg)
    = length (placements (page_contents pg)) + length (segments (page_contents pg)).
Proof.
  intros o doc. eexists. eexists.
  split; [apply createSpreadPage_accepting |].
  split; [apply nth_error_at |].
  split; [intros q Hq; now apply nth_error_app1 |].
  cbn [page_contents page_size]. rewrite segments_spread, placements_spread.
  unfold spread_contents.
  rewrite !length_app, length_map.
  destruct (leftPage o), (rightPage o); simpl; repeat split; auto.
Qed.

(** C6.  The scenario of §8: with both references present, the page is
    1224 by 792, holds two placements at [x = 36] and [x = 612] and exactly
    10 segments, the two gutter ticks being at [x = 594]. *)
Theorem createSpreadPage_scenario :
  forall doc : PDFDocument,
  exists pg : PDFPage,
    createSpreadPage accepting scenario doc = Returned (length doc) (doc ++ [pg]) /\
    page_size pg = (1224, 792)%float /\
    map (fun pl => rect_x (snd pl)) (placements (page_contents pg)) = [36; 612]%float /\
    length (segments (page_contents pg)) = 10 /\
    length (skipn 8 (segments (page_contents pg))) = 2 /\
    Forall (at_abscissa 594) (skipn 8 (segments (page_contents pg))).
Proof.
  intros doc. eexists.
  split; [apply createSpreadPage_accepting |].
  simpl. repeat split; repeat constructor.
Qed.

(** C7.  The composer is deterministic up to allocation: two calls with the
    same options, in any two documents, each return a fresh page, and the two
    pages are identical, so the same placements and segments were drawn in the
    same order. *)
Theorem createSpreadPage_deterministic :
  forall (o : SpreadOptions) (doc1 doc2 : PDFDocument),
  exists (page1 page2 : PageRef) (doc1' doc2' : PDFDocument) (pg : PDFPage),
    createSpreadPage accepting o doc1 = Returned page1 doc1' /\
    createSpreadPage accepting o doc2 = Returned page2 doc2' /\
    nth_error doc1 page1 = None /\
    nth_error doc2 page2 = None /\
    nth_error doc1' page1 = Some pg /\
    nth_error doc2' page2 = Some pg.
Proof.
  intros o doc1 doc2.
  exists (length doc1), (length doc2). eexists. eexists. eexists.
  split; [apply createSpreadPage_accepting |].
  split; [apply createSpreadPage_accepting |].
  split; [apply nth_error_None; lia |].
  split; [apply nth_error_None; lia |].
  split; apply nth_error_at.
Qed.

(** The overlap test does report rectangles that overlap: a second placement
    one point short of [marginX + imgWidth], or short of it by the width of
    a mirrored placement, is caught; a rectangle of positive size holds its
    own origin, whatever the magnitude of its coordinates. *)
Example rect_overlap_detects :
  rect_overlap (mkRect 36 36 576 720) (mkRect 611 36 576 720) = Some true /\
  inside (mkRect 36 36 576 720) 611.5 100 /\
  inside (mkRect 611 36 576 720) 611.5 100 /\
  rect_overlap (mkRect 36 36 (-576) 720) (mkRect (-539) 36 (-576) 720) = Some true /\
  rect_overlap (mkRect 0x1p53 36 1 720) (mkRect 0x1p53 36 1 720) = Some true /\
  inside (mkRect 0x1p53 36 1 720) 0x1p53 36.
Proof.
  repeat split; try reflexivity;
    (eexists; eexists; eexists;
     split; [vm_compute; reflexivity |];
     split; [vm_compute; reflexivity |];
     split; [vm_compute; reflexivity |];
     split; split; vm_compute; congruence).
Qed.

(** Where the claim C8 fails.  The abscissa of the right placement is the
    binary64 sum [marginX + imgWidth], and that sum can round to a value
    inside the left placement.  With [marginX = 2 ^ 53] and [imgWidth = 1]
    it rounds to [marginX] itself: the two placements are one and the same
    rectangle.  With [marginX = 0.1] and [imgWidth = 0.7] it rounds to
    [0.7999999999999999], below the far edge of the left placement, and the
    point [(0.7999999999999999, 36)] lies in both. *)
Theorem createSpreadPage_placements_can_overlap :
  (exists (pg : PDFPage) (rl rr : DrawPageOptions),
      createSpreadPage accepting
        (mkSpread (Some (EmbeddedPage 0)) (Some (EmbeddedPage 1))
                  1224 792 0x1p53 36 1 720 18 None) []
      = Returned 0 [pg] /\
      placements (page_contents pg) = [(EmbeddedPage 0, rl); (EmbeddedPage 1, rr)] /\
      rl = mkRect 0x1p53 36 1 720 /\ rr = rl /\
      rect_overlap rl rr = Some true /\
      inside rl 0x1p53 36 /\ inside rr 0x1p53 36) /\
  (exists (pg : PDFPage) (rl rr : DrawPageOptions),
      createSpreadPage accepting
        (mkSpread (Some (EmbeddedPage 0)) (Some (EmbeddedPage 1))
                  1224 792 0x1.999999999999ap-4 36 0x1.6666666666666p-1 720 18 None) []
      = Returned 0 [pg] /\
      placements (page_contents pg) = [(EmbeddedPage 0, rl); (EmbeddedPage 1, rr)] /\
      rl = mkRect 0x1.999999999999ap-4 36 0x1.6666666666666p-1 720 /\ rr = mkRect 0x1.9999999999999p-1 36 0x1.6666666666666p-1 720 /\
      rect_overlap rl rr = Some true /\
      inside rl 0x1.9999999999999p-1 36 /\ inside rr 0x1.9999999999999p-1 36).
Proof.
  split; eexists; eexists; eexists;
    (split; [rewrite createSpreadPage_accepting; reflexivity |]);
    (split; [cbn [page_contents]; rewrite placements_spread; reflexivity |]);
    (split; [reflexivity |]); (split; [reflexivity |]);
    (split; [vm_compute; reflexivity |]);
    split;
    (eexists; eexists; eexists;
     split; [vm_compute; reflexivity |];
     split; [vm_compute; reflexivity |];
     split; [vm_compute; reflexivity |];
     split; split; vm_compute; congruence).
Qed.

(** C8.  For every spread with both references present, the two placements
    are the rectangles [(marginX, marginY, imgWidth, imgHeight)] and
    [(marginX + imgWidth, marginY, imgWidth, imgHeight)], the sum being the
    binary64 one.  Whenever the four numbers are finite and that sum is not
    short of the sum of the values of [marginX] and [imgWidth], the two
    rectangles do not overlap, whatever the sign of [imgWidth] and
    [imgHeight]: the overlap test fails, and no point lies in both.  The
    condition on the sum holds in particular when [marginX] and [imgWidth] are
    whole numbers, none negative, with a sum below [2 ^ 53]: they are added
    without rounding. *)
Theorem createSpreadPage_placements_disjoint :
  (forall (l r : PDFEmbeddedPage) (w h mx my iw ih b : number)
          (eg : option number) (doc : PDFDocument),
      is_finite my = true -> is_finite ih = true -> sum_reaches mx iw = true ->
      exists (pg : PDFPage) (rl rr : DrawPageOptions),
        createSpreadPage accepting (mkSpread (Some l) (Some r) w h mx my iw ih b eg) doc
        = Returned (length doc) (doc ++ [pg]) /\
        placements (page_contents pg) = [(l, rl); (r, rr)] /\
        rl = {| rect_x := mx; rect_y := my; rect_width := iw; rect_height := ih |} /\
        rr = {| rect_x := mx + iw; rect_y := my; rect_width := iw;
                rect_height := ih |} /\
        rect_overlap rl rr = Some false /\
        (forall px py : number, ~ (inside rl px py /\ inside rr px py))) /\
  (forall (mx iw : number) (x dx : Z),
      (0 <= x)%Z -> (0 <= dx)%Z -> (x + dx < 2 ^ 53)%Z ->
      whole mx x -> whole iw dx ->
      sum_reaches mx iw = true).
Proof.
  split; [| exact whole_sum_reaches].
  intros l r w h mx my iw ih b eg doc Hmy Hih Hsum.
  unfold is_finite in Hmy, Hih. unfold sum_reaches in Hsum.
  destruct (units mx) as [x |] eqn:Hx; [| discriminate Hsum].
  destruct (units iw) as [dx |] eqn:Hdx; [| discriminate Hsum].
  destruct (units (mx + iw)) as [x' |] eqn:Hx'; [| discriminate Hsum].
  destruct (units my) as [y |] eqn:Hy; [| discriminate Hmy].
  destruct (units ih) as [dy |] eqn:Hdy; [| discriminate Hih].
  assert (Hside : ((0 <= dx /\ x + dx <= x') \/ (dx < 0 /\ x' <= x + dx))%Z).
  { destruct (0 <=? dx)%Z eqn:Hdir.
    - left. apply Z.leb_le in Hdir, Hsum. auto.
    - right. apply Z.leb_gt in Hdir. apply Z.leb_le in Hsum. auto. }
  clear Hsum.
  eexists. eexists. eexists.
  split; [apply createSpreadPage_accepting |].
  split; [cbn [page_contents]; rewrite placements_spread; reflexivity |].
  split; [reflexivity |]. split; [reflexivity |]. split.
  - unfold rect_overlap, region, left_rect, right_rect;
      cbn [rect_x rect_y rect_width rect_height marginX marginY imgWidth imgHeight].
    rewrite Hx, Hy, Hdx, Hdy, Hx'. cbn [x_lo x_hi y_lo y_hi]. f_equal.
    unfold extent_lo, extent_hi.
    destruct Hside as [[Hpos Hle] | [Hneg Hle]].
    + replace (Z.min x' (x' + dx) <? Z.max x (x + dx))%Z with false
        by (symmetry; apply Z.ltb_ge; lia).
      now rewrite andb_false_r.
    + replace (Z.min x (x + dx) <? Z.max x' (x' + dx))%Z with false
        by (symmetry; apply Z.ltb_ge; lia).
      reflexivity.
  - intros px py [(gl & p & q & Hl & Hp & _ & Hxl & _)
                  (gr & p' & q' & Hr & Hp' & _ & Hxr & _)].
    unfold region, left_rect, right_rect in Hl, Hr;
      cbn [rect_x rect_y rect_width rect_height marginX marginY imgWidth imgHeight]
        in Hl, Hr.
    rewrite Hx, Hy, Hdx, Hdy in Hl. rewrite Hx', Hy, Hdx, Hdy in Hr.
    injection Hl as <-. injection Hr as <-.
    rewrite Hp in Hp'. injection Hp' as <-.
    cbn [x_lo x_hi] in Hxl, Hxr. unfold extent_lo, extent_hi in Hxl, Hxr. lia.
Qed.

(** The spread of the scenario meets the conditions: 36 and 576 are whole
    numbers. *)
Lemma createSpreadPage_placements_disjoint_witness :
  sum_reaches 36 576 = true /\
  exists (pg : PDFPage) (rl rr : DrawPageOptions),
    createSpreadPage accepting
      (mkSpread (Some (EmbeddedPage 0)) (Some (EmbeddedPage 1))
                1224 792 36 36 576 720 18 (Some 0%float)) []
    = Returned (length (@nil PDFPage)) ([] ++ [pg]) /\
    placements (page_contents pg) = [(EmbeddedPage 0, rl); (EmbeddedPage 1, rr)] /\
    rl = {| rect_x := 36; rect_y := 36; rect_width := 576; rect_height := 720 |} /\
    rr = {| rect_x := 36 + 576; rect_y := 36; rect_width := 576;
            rect_height := 720 |} /\
    rect_overlap rl rr = Some false /\
    (forall px py : number, ~ (inside rl px py /\ inside rr px py)).
Proof.
  assert (Hsum : sum_reaches 36 576 = true).
  { apply (proj2 createSpreadPage_placements_disjoint 36%float 576%float 36%Z 576%Z);
      [lia | lia | reflexivity | vm_compute; reflexivity | vm_compute; reflexivity]. }
  split; [exact Hsum |].
  apply (proj1 createSpreadPage_placements_disjoint
           (EmbeddedPage 0) (EmbeddedPage 1) 1224%float 792%float 36%float 36%float
           576%float 720%float 18%float (Some 0%float) []);
    [vm_compute; reflexivity | vm_compute; reflexivity | exact Hsum].
Defined.



(** With primitives that validate the page size, the degenerate spread fails
    in [addPage], and the composer hands that very error to its caller. *)
Example createSpreadPage_fussy_degenerate :
  createSpreadPage fussy degenerate [] = Threw (NotPositive (-1224, 0)%float) [].
Proof. reflexivity. Qed.

Example createSpreadPage_fussy_scenario :
  exists doc', createSpreadPage fussy scenario [] = Returned 0 doc'.
Proof. eexists. reflexivity. Qed.

(** C10 as stated fails: for the narrow spread, [imgWidth + bleed] is the
    double written 0.1, the subtraction of 1 rounds, and both gutter ticks are
    drawn at 0.09999999999999998 instead. *)
Lemma createSpreadPage_gutter_shift_does_not_cancel :
  exists (pg : PDFPage) (x : number),
    createSpreadPage accepting narrow [] = Returned 0 [pg] /\
    length (skipn 8 (segments (page_contents pg))) = 2 /\
    Forall (at_abscissa x) (skipn 8 (segments (page_contents pg))) /\
    x = 0x1.9999999999998p-4%float /\
    (imgWidth narrow + bleed narrow)%float = 0x1.999999999999ap-4%float /\
    x <> (imgWidth narrow + bleed narrow)%float.
Proof.
  eexists. eexists.
  split; [reflexivity |]. split; [reflexivity |].
  split; [repeat constructor |]. split; [reflexivity |]. split; [reflexivity |].
  intros H.
  apply (f_equal (fun v => (v =? 0x1.999999999999ap-4)%float)) in H.
  vm_compute in H. discriminate H.
Qed.

(** C10, amended.  [createSpreadPage] passes neither [offset1] nor [offset2]:
    the gutter ticks it draws are those [drawMiddleMarks] draws with both left
    out, so [offset1] is -1 and both ticks are at
    [x = imgWidth + bleed + -1 + 1], each operation rounded to binary64.  When
    [1 <= imgWidth + bleed < 2 ^ 53] neither operation rounds and both ticks
    are at exactly [imgWidth + bleed]. *)
Theorem createSpreadPage_gutter_abscissa :
  forall (o : SpreadOptions) (doc : PDFDocument),
  exists pg : PDFPage,
    createSpreadPage accepting o doc = Returned (length doc) (doc ++ [pg]) /\
    skipn 8 (segments (page_contents pg))
    = gutter_marks (imgWidth o + bleed o + default (-1) None + 1) (bleed o) (height o) /\
    default (-1) None = (-1)%float /\
    length (skipn 8 (segments (page_contents pg))) = 2 /\
    Forall (at_abscissa (imgWidth o + bleed o + -1 + 1))
           (skipn 8 (segments (page_contents pg))) /\
    ((1 <=? imgWidth o + bleed o)%float = true ->
     (imgWidth o + bleed o <? 0x1p53)%float = true ->
     Forall (at_abscissa (imgWidth o + bleed o))
            (skipn 8 (segments (page_contents pg)))).
Proof.
  intros o doc. eexists.
  split; [apply createSpreadPage_accepting |].
  cbn [page_contents]. rewrite segments_spread.
  unfold spread_marks. cbn [cut_mark_table gutter_marks app skipn default].
  split; [reflexivity |]. split; [reflexivity |]. split; [reflexivity |].
  split; [repeat constructor |].
  intros Hlo Hhi. rewrite (Binary64.shift_cancels _ Hlo Hhi).
  repeat constructor.
Qed.

Lemma createSpreadPage_gutter_abscissa_witness :
  exists pg : PDFPage,
    createSpreadPage accepting scenario [] = Returned 0 [pg] /\
    Forall (at_abscissa 594) (skipn 8 (segments (page_contents pg))).
Proof.
  destruct (createSpreadPage_gutter_abscissa scenario [])
    as (pg & Hrun & _ & _ & _ & _ & Hexact).
  exists pg. split; [exact Hrun | apply Hexact; reflexivity].
Defined.

(** * Further properties *)

(** ** Runs, call by call *)

Section Calls.

Variable E : Type.
Variable pdflib : Primitives E.

Lemma same_run_refl {A : Type} (m : Js E A) : same_run m m.
Proof. intros doc. reflexivity. Qed.

Lemma same_run_trans {A : Type} (m1 m2 m3 : Js E A) :
  same_run m1 m2 -> same_run m2 m3 -> same_run m1 m3.
Proof. intros H1 H2 doc. now rewrite H1. Qed.

Lemma same_run_bind {A B : Type} (m m' : Js E A) (k k' : A -> Js E B) :
  same_run m m' -> (forall a, same_run (k a) (k' a)) ->
  same_run (bind m k) (bind m' k').
Proof.
  intros Hm Hk doc. unfold bind. rewrite Hm.
  destruct (m' doc); [apply Hk | reflexivity].
Qed.

Lemma bind_assoc {A B C : Type} (m : Js E A) (k : A -> Js E B) (h : B -> Js E C) :
  same_run (bind (bind m k) h) (bind m (fun a => bind (k a) h)).
Proof.
  intros doc. unfold bind. destruct (m doc); [| reflexivity].
  reflexivity.
Qed.

Lemma bind_ret_l {A B : Type} (a : A) (k : A -> Js E B) :
  same_run (bind (ret a) k) (k a).
Proof. intros doc. reflexivity. Qed.

Lemma bind_ret_tt (m : Js E unit) : same_run (bind m (fun _ => ret tt)) m.
Proof.
  intros doc. unfold bind, ret. destruct (m doc) as [[] d | e d]; reflexivity.
Qed.

Lemma draws_app (page : PageRef) (a b : list Operator) :
  same_run (draws pdflib page (a ++ b))
           (bind (draws pdflib page a) (fun _ => draws pdflib page b)).
Proof.
  induction a as [| op a IH]; simpl.
  - intros doc. reflexivity.
  - eapply same_run_trans; [| intros doc; symmetry; apply bind_assoc].
    apply same_run_bind; [apply same_run_refl | intros _; exact IH].
Qed.

Lemma drawCutMarks_as_calls (page : PageRef) (w h b : number) :
  same_run (drawCutMarks pdflib page w h b)
           (draws pdflib page (map OpDrawLine (cut_mark_table w h b))).
Proof.
  unfold drawCutMarks, cut_mark_table. simpl.
  repeat (apply same_run_bind; [apply same_run_refl | intros _]).
  intros doc. symmetry. apply bind_ret_tt.
Qed.

Lemma drawMiddleMarks_as_calls (page : PageRef) (o : MiddleMarkOptions) :
  same_run (drawMiddleMarks pdflib page o)
           (draws pdflib page
              (map OpDrawLine
                 (gutter_marks
                    (mm_imgWidth o + mm_bleed o + default (-1) (mm_offset1 o) + 1)
                    (mm_bleed o) (mm_finalHeight o)))).
Proof.
  unfold drawMiddleMarks, gutter_marks. simpl.
  repeat (apply same_run_bind; [apply same_run_refl | intros _]).
  intros doc. symmetry. apply bind_ret_tt.
Qed.

Lemma when_present_as_calls (page : PageRef) (side : option PDFEmbeddedPage)
      (r : DrawPageOptions) :
  same_run (when_present side (fun e => page_drawPage pdflib page e r))
           (draws pdflib page (place side r)).
Proof.
  destruct side; simpl.
  - intros doc. symmetry. apply bind_ret_tt.
  - apply same_run_refl.
Qed.

(** The composer is [addPage] followed by the calls of [spread_contents], one
    after the other. *)
Lemma createSpreadPage_as_calls (o : SpreadOptions) :
  same_run (createSpreadPage pdflib o)
           (bind (addPage pdflib (width o, height o))
                 (fun page => bind (draws pdflib page (spread_contents o))
                                   (fun _ => ret page))).
Proof.
  unfold createSpreadPage, spread_contents, spread_marks.
  apply same_run_bind; [apply same_run_refl | intros page].
  eapply same_run_trans;
    [| apply same_run_bind; [intros doc; symmetry; apply draws_app | intros; apply same_run_refl]].
  eapply same_run_trans; [| intros doc; symmetry; apply bind_assoc].
  apply same_run_bind; [apply when_present_as_calls | intros _].
  eapply same_run_trans;
    [| apply same_run_bind; [intros doc; symmetry; apply draws_app | intros; apply same_run_refl]].
  eapply same_run_trans; [| intros doc; symmetry; apply bind_assoc].
  apply same_run_bind; [apply when_present_as_calls | intros _].
  rewrite map_app.
  eapply same_run_trans;
    [| apply same_run_bind; [intros doc; symmetry; apply draws_app | intros; apply same_run_refl]].
  eapply same_run_trans; [| intros doc; symmetry; apply bind_assoc].
  apply same_run_bind; [apply drawCutMarks_as_calls | intros _].
  apply same_run_bind; [apply drawMiddleMarks_as_calls | intros _].
  apply same_run_refl.
Qed.

End Calls.

Section Outcomes.

Variable E : Type.
Variable pdflib : Primitives E.

Lemma draw_outcome (before : PDFDocument) (pg : PDFPage) (after : PDFDocument)
      (op : Operator) :
  draw pdflib (length before) op (before ++ pg :: after)
  = match op_throws pdflib (before ++ pg :: after) op with
    | Some e => Threw e (before ++ pg :: after)
    | None => Returned tt (before ++ draw_all [op] pg :: after)
    end.
Proof.
  destruct op as [emb o | l]; simpl;
    unfold page_drawPage, page_drawLine;
    match goal with |- context [match ?g with _ => _ end] => destruct g end;
    try reflexivity;
    now rewrite modify_at.
Qed.

(** A sequence of drawing calls on a page either goes through, or stops at the
    first call that pdf-lib refuses, with the calls before it drawn. *)
Lemma draws_outcome (before : PDFDocument) (pg : PDFPage) (after : PDFDocument)
      (ops done : list Operator) :
  match draws pdflib (length before) ops (before ++ draw_all done pg :: after) with
  | Returned _ doc' =>
      doc' = before ++ draw_all (done ++ ops) pg :: after /\
      (forall d1 op d2, ops = d1 ++ op :: d2 ->
         op_throws pdflib (before ++ draw_all (done ++ d1) pg :: after) op = None)
  | Threw e doc' =>
      exists d1 op d2,
        ops = d1 ++ op :: d2 /\
        doc' = before ++ draw_all (done ++ d1) pg :: after /\
        op_throws pdflib doc' op = Some e
  end.
Proof.
  revert done. induction ops as [| op ops IH]; intros done.
  - simpl. rewrite app_nil_r. split; [reflexivity |].
    intros [| ? ?] op d2 H; discriminate H.
  - cbn [draws]. unfold bind. rewrite draw_outcome.
    destruct (op_throws pdflib (before ++ draw_all done pg :: after) op)
      as [e |] eqn:Hthrow.
    + exists [], op, ops. rewrite app_nil_r. auto.
    + replace (draw_all [op] (draw_all done pg)) with (draw_all (done ++ [op]) pg)
        by (unfold draw_all; simpl; now rewrite app_assoc).
      specialize (IH (done ++ [op])).
      destruct (draws pdflib (length before) ops
                      (before ++ draw_all (done ++ [op]) pg :: after))
        as [[] doc' | e doc'].
      * destruct IH as [-> Hnone]. rewrite <- app_assoc. split; [reflexivity |].
        intros [| op' d1] op0 d2 H; simpl in H; inversion H; subst.
        -- now rewrite app_nil_r.
        -- specialize (Hnone d1 op0 d2 eq_refl).
           now rewrite <- app_assoc in Hnone.
      * destruct IH as (d1 & op0 & d2 & -> & -> & Hthrow').
        exists (op :: d1), op0, d2. rewrite <- app_assoc in *. simpl. auto.
Qed.

End Outcomes.

Lemma createSpreadPage_run {E : Type} (pdflib : Primitives E) (o : SpreadOptions)
      (doc : PDFDocument) :
  createSpreadPage pdflib o doc
  = match addPage_throws pdflib doc (width o, height o) with
    | Some e => Threw e doc
    | None =>
        match draws pdflib (length doc) (spread_contents o)
                (doc ++ [draw_all [] (blank (width o) (height o))]) with
        | Returned _ doc' => Returned (length doc) doc'
        | Threw e doc' => Threw e doc'
        end
    end.
Proof.
  rewrite (createSpreadPage_as_calls E pdflib o doc).
  unfold bind at 1. unfold addPage.
  destruct (addPage_throws pdflib doc (width o, height o)); [reflexivity |].
  unfold bind, ret. rewrite draw_all_nil.
  destruct (draws _ _ _ _); reflexivity.
Qed.

(** X1.  When [createSpreadPage] throws, nothing is rolled back: either
    [addPage] refused the size and the document is untouched, or the new page
    stays in the document, holding exactly the calls made before the one that
    pdf-lib refused; the pages that were there are as they were. *)
Theorem createSpreadPage_throw_keeps_partial_page :
  forall (E : Type) (pdflib : Primitives E) (o : SpreadOptions)
         (doc : PDFDocument) (e : E) (doc' : PDFDocument),
    createSpreadPage pdflib o doc = Threw e doc' ->
    (doc' = doc /\ addPage_throws pdflib doc (width o, height o) = Some e) \/
    (exists (made : list Operator) (refused : Operator) (pending : list Operator),
        spread_contents o = made ++ refused :: pending /\
        doc' = doc ++ [{| page_size := (width o, height o); page_contents := made |}] /\
        op_throws pdflib doc' refused = Some e).
Proof.
  intros E pdflib o doc e doc' H. rewrite createSpreadPage_run in H.
  destruct (addPage_throws pdflib doc (width o, height o)) as [e0 |] eqn:Ha.
  - inversion H; subst. now left.
  - right.
    pose proof (draws_outcome E pdflib doc (blank (width o) (height o)) []
                  (spread_contents o) []) as Hd.
    destruct (draws _ _ _ _) as [u d | e0 d]; [discriminate H |].
    inversion H; subst.
    destruct Hd as (d1 & op & d2 & Hsplit & -> & Hthrow).
    exists d1, op, d2. auto.
Qed.

Lemma createSpreadPage_throw_keeps_partial_page_witness :
  createSpreadPage strict_lines thin_bleed [blank 10 10]
  = Threw (OffPage (mark (-5) 12 5 12))
          [blank 10 10;
           {| page_size := (1224, 792)%float;
              page_contents :=
                [OpDrawPage (EmbeddedPage 0) (mkRect 36 36 576 720);
                 OpDrawPage (EmbeddedPage 1) (mkRect 612 36 576 720)] |}] /\
  (([blank 10 10;
     {| page_size := (1224, 792)%float;
        page_contents :=
          [OpDrawPage (EmbeddedPage 0) (mkRect 36 36 576 720);
           OpDrawPage (EmbeddedPage 1) (mkRect 612 36 576 720)] |}]
    = [blank 10 10] /\
    addPage_throws strict_lines [blank 10 10] (width thin_bleed, height thin_bleed)
    = Some (OffPage (mark (-5) 12 5 12))) \/
   (exists (made : list Operator) (refused : Operator) (pending : list Operator),
       spread_contents thin_bleed = made ++ refused :: pending /\
       [blank 10 10;
        {| page_size := (1224, 792)%float;
           page_contents :=
             [OpDrawPage (EmbeddedPage 0) (mkRect 36 36 576 720);
              OpDrawPage (EmbeddedPage 1) (mkRect 612 36 576 720)] |}]
       = [blank 10 10] ++ [{| page_size := (width thin_bleed, height thin_bleed);
                               page_contents := made |}] /\
       op_throws strict_lines
         [blank 10 10;
          {| page_size := (1224, 792)%float;
             page_contents :=
               [OpDrawPage (EmbeddedPage 0) (mkRect 36 36 576 720);
                OpDrawPage (EmbeddedPage 1) (mkRect 612 36 576 720)] |}]
         refused
       = Some (OffPage (mark (-5) 12 5 12)))).
Proof.
  split; [reflexivity |].
  apply (createSpreadPage_throw_keeps_partial_page LineError strict_lines thin_bleed).
  reflexivity.
Defined.

(** X2.  [createSpreadPage] returns exactly when pdf-lib accepts the page size
    and then each call of the spread, in order, in the state the earlier
    calls have left.  What it returns then is the reference of the page it
    appended, and that page holds all the contents of the spread; the pages
    that were there are as they were. *)
Theorem createSpreadPage_returns_iff :
  forall (E : Type) (pdflib : Primitives E) (o : SpreadOptions) (doc : PDFDocument),
    ((exists page doc', createSpreadPage pdflib o doc = Returned page doc') <->
     (addPage_throws pdflib doc (width o, height o) = None /\
      forall made call pending,
        spread_contents o = made ++ call :: pending ->
        op_throws pdflib
          (doc ++ [{| page_size := (width o, height o); page_contents := made |}])
          call = None)) /\
    (forall page doc',
        createSpreadPage pdflib o doc = Returned page doc' ->
        page = length doc /\
        doc' = doc ++ [{| page_size := (width o, height o);
                          page_contents := spread_contents o |}] /\
        nth_error doc' page
        = Some {| page_size := (width o, height o);
                  page_contents := spread_contents o |}).
Proof.
  intros E pdflib o doc. rewrite createSpreadPage_run.
  pose proof (draws_outcome E pdflib doc (blank (width o) (height o)) []
                (spread_contents o) []) as Hd.
  split; [split |].
  - intros (page & doc' & H).
    destruct (addPage_throws pdflib doc (width o, height o)); [discriminate H |].
    split; [reflexivity |].
    destruct (draws _ _ _ _) as [u d | e0 d]; [| discriminate H].
    destruct Hd as [_ Hnone]. exact Hnone.
  - intros [Ha Hnone]. rewrite Ha.
    destruct (draws _ _ _ _) as [u d | e0 d].
    + now exists (length doc), d.
    + destruct Hd as (d1 & op & d2 & Hsplit & -> & Hthrow).
      assert (Habs : Some e0 = None)
        by (rewrite <- Hthrow; exact (Hnone d1 op d2 Hsplit)).
      discriminate Habs.
  - intros page doc' H.
    destruct (addPage_throws pdflib doc (width o, height o)); [discriminate H |].
    destruct (draws _ _ _ _) as [u d | e0 d]; [| discriminate H].
    destruct Hd as [Hdoc _]. injection H as <- <-.
    cbn [app] in Hdoc. subst d.
    split; [reflexivity |]. split; [reflexivity |].
    apply nth_error_at.
Qed.

(** X3.  Whatever pdf-lib validates, each renderer stops at the first line it
    refuses: [drawCutMarks] returns with its 8 marks drawn, or throws with
    only the marks before the refused one drawn; [drawMiddleMarks] likewise
    with its 2 ticks.  The page keeps what it held and no other page
    changes. *)
Theorem renderers_stop_at_first_refusal :
  forall (E : Type) (pdflib : Primitives E)
         (before : PDFDocument) (pg : PDFPage) (after : PDFDocument),
    (forall w h b : number,
        match drawCutMarks pdflib (length before) w h b (before ++ pg :: after) with
        | Returned _ doc' =>
            doc' = before ++ draw_all (map OpDrawLine (cut_mark_table w h b)) pg :: after
        | Threw e doc' =>
            exists made refused pending,
              cut_mark_table w h b = made ++ refused :: pending /\
              doc' = before ++ draw_all (map OpDrawLine made) pg :: after /\
              drawLine_throws pdflib doc' refused = Some e
        end) /\
    (forall o : MiddleMarkOptions,
        match drawMiddleMarks pdflib (length before) o (before ++ pg :: after) with
        | Returned _ doc' =>
            doc' = before ++
                   draw_all (map OpDrawLine
                               (gutter_marks
                                  (mm_imgWidth o + mm_bleed o
                                   + default (-1) (mm_offset1 o) + 1)
                                  (mm_bleed o) (mm_finalHeight o))) pg :: after
        | Threw e doc' =>
            exists made refused pending,
              gutter_marks (mm_imgWidth o + mm_bleed o + default (-1) (mm_offset1 o) + 1)
                           (mm_bleed o) (mm_finalHeight o)
              = made ++ refused :: pending /\
              doc' = before ++ draw_all (map OpDrawLine made) pg :: after /\
              drawLine_throws pdflib doc' refused = Some e
        end).
Proof.
  intros E pdflib before pg after.
  assert (Hlines : forall ls : list LineOptions,
             match draws pdflib (length before) (map OpDrawLine ls)
                         (before ++ pg :: after) with
             | Returned _ doc' =>
                 doc' = before ++ draw_all (map OpDrawLine ls) pg :: after
             | Threw e doc' =>
                 exists made refused pending,
                   ls = made ++ refused :: pending /\
                   doc' = before ++ draw_all (map OpDrawLine made) pg :: after /\
                   drawLine_throws pdflib doc' refused = Some e
             end).
  { intros ls.
    pose proof (draws_outcome E pdflib before pg after (map OpDrawLine ls) []) as Hd.
    rewrite draw_all_nil in Hd.
    destruct (draws _ _ _ _) as [u d | e d].
    - destruct Hd as [-> _]. reflexivity.
    - destruct Hd as (d1 & op & d2 & Hsplit & -> & Hthrow).
      apply map_eq_app in Hsplit. destruct Hsplit as (l1 & l2 & -> & <- & Hl2).
      destruct l2 as [| l l2]; [discriminate Hl2 |].
      simpl in Hl2. inversion Hl2; subst.
      exists l1, l, l2. auto. }
  split.
  - intros w h b. rewrite (drawCutMarks_as_calls E pdflib (length before) w h b).
    apply Hlines.
  - intros o. rewrite (drawMiddleMarks_as_calls E pdflib (length before) o).
    apply Hlines.
Qed.

(** X4.  Two calls in a row append two pages in call order and return two
    distinct references, the second right after the first; the second call
    leaves the page of the first as the first call built it. *)
Theorem createSpreadPage_twice :
  forall (o1 o2 : SpreadOptions) (doc : PDFDocument),
  exists (p1 p2 : PDFPage),
    bind (createSpreadPage accepting o1)
         (fun r1 => bind (createSpreadPage accepting o2) (fun r2 => ret (r1, r2))) doc
    = Returned (length doc, S (length doc)) (doc ++ [p1; p2]) /\
    createSpreadPage accepting o1 doc = Returned (length doc) (doc ++ [p1]) /\
    createSpreadPage accepting o2 (doc ++ [p1])
    = Returned (S (length doc)) ((doc ++ [p1]) ++ [p2]) /\
    nth_error (doc ++ [p1; p2]) (length doc) = Some p1 /\
    nth_error (doc ++ [p1; p2]) (S (length doc)) = Some p2.
Proof.
  intros o1 o2 doc.
  exists {| page_size := (width o1, height o1); page_contents := spread_contents o1 |},
         {| page_size := (width o2, height o2); page_contents := spread_contents o2 |}.
  split; [| split; [| split; [| split]]].
  - unfold bind. rewrite createSpreadPage_accepting.
    rewrite createSpreadPage_accepting. unfold ret.
    rewrite length_app, <- app_assoc. simpl.
    replace (length doc + 1) with (S (length doc)) by lia. reflexivity.
  - apply createSpreadPage_accepting.
  - rewrite createSpreadPage_accepting, length_app. simpl.
    replace (length doc + 1) with (S (length doc)) by lia. reflexivity.
  - apply nth_error_at.
  - set (p1 := mkPage (width o1, height o1) (spread_contents o1)).
    replace (S (length doc)) with (length (doc ++ [p1]))
      by (rewrite length_app; simpl; lia).
    change (doc ++ [p1; ?p2]) with (doc ++ [p1] ++ [p2]).
    rewrite app_assoc. apply nth_error_at.
Qed.

(** X5.  In every spread the two gutter ticks span the same vertical ranges as
    the two left-hand vertical cut marks: from [bleed - 10] to [bleed] at the
    bottom and from [height - bleed - 10] to [height - bleed] at the top. *)
Theorem gutter_ticks_level_with_left_cut_marks :
  forall (o : SpreadOptions) (doc : PDFDocument),
  exists (pg : PDFPage) (bottom_left top_left bottom_tick top_tick : LineOptions),
    createSpreadPage accepting o doc = Returned (length doc) (doc ++ [pg]) /\
    nth_error (segments (page_contents pg)) 1 = Some bottom_left /\
    nth_error (segments (page_contents pg)) 5 = Some top_left /\
    nth_error (segments (page_contents pg)) 8 = Some bottom_tick /\
    nth_error (segments (page_contents pg)) 9 = Some top_tick /\
    pt_y (line_start bottom_tick) = pt_y (line_start bottom_left) /\
    pt_y (line_end bottom_tick) = pt_y (line_end bottom_left) /\
    pt_y (line_start top_tick) = pt_y (line_start top_left) /\
    pt_y (line_end top_tick) = pt_y (line_end top_left) /\
    pt_y (line_start bottom_tick) = (bleed o - 10)%float /\
    pt_y (line_end bottom_tick) = bleed o /\
    pt_y (line_start top_tick) = (height o - bleed o - 10)%float /\
    pt_y (line_end top_tick) = (height o - bleed o)%float.
Proof.
  intros o doc. eexists. eexists. eexists. eexists. eexists.
  split; [apply createSpreadPage_accepting |].
  cbn [page_contents]. rewrite segments_spread.
  unfold spread_marks, cut_mark_table, gutter_marks. cbn [app nth_error].
  repeat split.
Qed.

(** ** Strings: the matcher *)

Section Matcher.

Variable R : Type.

Lemma star_loop_sound (step : jsstring -> Captures -> (jsstring -> Captures -> option R) -> option R)
      (P : jsstring -> jsstring -> Prop) (k : jsstring -> Captures -> option R) :
  (forall s c k' x, step s c k' = Some x ->
     exists u v c', s = u ++ v /\ P u v /\ k' v c' = Some x) ->
  forall fuel s c x,
    star_loop step k fuel s c = Some x ->
    exists u v c', s = u ++ v /\ star P u v /\ k v c' = Some x.
Proof.
  intros Hstep. induction fuel as [| fuel IH]; intros s c x H; simpl in H.
  - exists [], s, c. repeat split; [constructor | assumption].
  - destruct (step s c _) as [y |] eqn:Hrun.
    + inversion H; subst y.
      apply Hstep in Hrun. destruct Hrun as (u1 & v1 & c1 & -> & HP & Hk).
      destruct (length v1 <? length (u1 ++ v1)) eqn:Hlt; [| discriminate Hk].
      apply IH in Hk. destruct Hk as (u2 & v & c' & -> & Hstar & Hk).
      exists (u1 ++ u2), v, c'. rewrite <- app_assoc. repeat split; [| assumption].
      apply star_cons; try assumption.
      intros ->. simpl in Hlt. rewrite Nat.ltb_irrefl in Hlt. discriminate Hlt.
    + exists [], s, c. repeat split; [constructor | assumption].
Qed.

Lemma run_sound (r : regex) :
  forall s c (k : jsstring -> Captures -> option R) x,
    run r s c k = Some x ->
    exists u v c', s = u ++ v /\ denote r u v /\ k v c' = Some x.
Proof.
  induction r as [p | | r1 IH1 r2 IH2 | r IH | r IH | i r IH |];
    intros s c k x H; simpl in H.
  - destruct s as [| ch s]; [discriminate H |].
    destruct (p ch) eqn:Hp; [| discriminate H].
    exists [ch], s, c. repeat split; [| assumption]. now exists ch.
  - exists [], s, c. repeat split; assumption.
  - apply IH1 in H. destruct H as (u1 & v1 & c1 & -> & H1 & H).
    apply IH2 in H. destruct H as (u2 & v & c' & -> & H2 & H).
    exists (u1 ++ u2), v, c'. rewrite <- app_assoc. repeat split; [| assumption].
    now exists u1, u2.
  - exact (star_loop_sound (run r) (denote r) k IH (length s) s c x H).
  - destruct (run r s c k) as [y |] eqn:Hrun.
    + inversion H; subst y. apply IH in Hrun.
      destruct Hrun as (u & v & c' & -> & Hd & Hk).
      exists u, v, c'. repeat split; [now right | assumption].
    + exists [], s, c. repeat split; [now left | assumption].
  - apply IH in H. destruct H as (u & v & c' & -> & Hd & Hk).
    eexists u, v, _. repeat split; [assumption | exact Hk].
  - destruct s; [| discriminate H].
    exists [], [], c. repeat split; assumption.
Qed.

Lemma star_loop_complete
      (step : jsstring -> Captures -> (jsstring -> Captures -> option R) -> option R)
      (P : jsstring -> jsstring -> Prop) (k : jsstring -> Captures -> option R) :
  (forall u v c k', P u v -> (forall c', k' v c' <> None) -> step (u ++ v) c k' <> None) ->
  forall u v, star P u v -> (forall c', k v c' <> None) ->
  forall fuel c, length (u ++ v) <= fuel -> star_loop step k fuel (u ++ v) c <> None.
Proof.
  intros Hstep u v Hstar Hk. induction Hstar as [v | u1 u2 v HP Hne Hstar IH];
    intros fuel c Hfuel.
  - destruct fuel; simpl; [apply Hk |].
    destruct (step v c _); [discriminate | apply Hk].
  - destruct fuel as [| fuel].
    + destruct u1; [now elim Hne | simpl in Hfuel; lia].
    + simpl. rewrite <- app_assoc.
      match goal with |- context [step ?a ?b ?f] => destruct (step a b f) eqn:Hrun end;
        [discriminate |].
      exfalso. revert Hrun. apply Hstep; [assumption |].
      intros c'.
      replace (length (u2 ++ v) <? length (u1 ++ u2 ++ v)) with true.
      * apply IH; [assumption |].
        rewrite <- app_assoc, !length_app in Hfuel. rewrite length_app.
        destruct u1; [now elim Hne | simpl in Hfuel; lia].
      * symmetry. apply Nat.ltb_lt. rewrite !length_app.
        destruct u1; [now elim Hne | simpl; lia].
Qed.

Lemma run_complete (r : regex) :
  forall u v c (k : jsstring -> Captures -> option R),
    denote r u v -> (forall c', k v c' <> None) -> run r (u ++ v) c k <> None.
Proof.
  induction r as [p | | r1 IH1 r2 IH2 | r IH | r IH | i r IH |];
    intros u v c k Hd Hk; simpl in Hd |- *.
  - destruct Hd as (ch & -> & Hp). simpl. rewrite Hp. apply Hk.
  - subst u. apply Hk.
  - destruct Hd as (u1 & u2 & -> & H1 & H2). rewrite <- app_assoc.
    apply IH1; [assumption |]. intros c'. now apply IH2.
  - apply (star_loop_complete (run r) (denote r) k); auto.
  - destruct (run r (u ++ v) c k) eqn:Hrun; [discriminate |].
    destruct Hd as [-> | Hd]; [apply Hk |].
    exfalso. revert Hrun. now apply IH.
  - apply IH; [assumption |]. intros c'. apply Hk.
  - destruct Hd as [-> ->]. apply Hk.
Qed.

End Matcher.


(** *** Searching for the first match *)

Lemma exec_from_None (r : regex) (s : jsstring) :
  forall i, exec_from r i s = None <->
            (forall n, n <= length s -> run r (skipn n s) [] accept = None).
Proof.
  induction s as [| ch s IH]; intros i; simpl.
  - destruct (run r [] [] accept) as [[s' c] |] eqn:Hrun.
    + split; [discriminate |]. intros H. specialize (H 0 (le_n 0)). simpl in H.
      congruence.
    + split; [| reflexivity]. intros _ [| n] Hn; [assumption | lia].
  - destruct (run r (ch :: s) [] accept) as [[s' c] |] eqn:Hrun.
    + split; [discriminate |]. intros H. specialize (H 0 (Nat.le_0_l _)). simpl in H.
      congruence.
    + rewrite IH. split.
      * intros H [| n] Hn; [assumption | apply H; lia].
      * intros H n Hn. apply (H (S n)). lia.
Qed.

Lemma exec_from_Some (r : regex) (s : jsstring) :
  forall i m,
    exec_from r i s = Some m ->
    exists n, n <= length s /\ match_index m = i + n /\
              run r (skipn n s) [] accept = Some (match_rest m, match_groups m) /\
              (forall n', n' < n -> run r (skipn n' s) [] accept = None).
Proof.
  induction s as [| ch s IH]; intros i m H; simpl in H.
  - destruct (run r [] [] accept) as [[s' c] |] eqn:Hrun; [| discriminate H].
    inversion H; subst m. exists 0. simpl. repeat split; auto; try lia.
  - destruct (run r (ch :: s) [] accept) as [[s' c] |] eqn:Hrun.
    + inversion H; subst m. exists 0. simpl. repeat split; auto; try lia.
    + apply IH in H. destruct H as (n & Hn & Hi & Hm & Hfirst).
      exists (S n). simpl. repeat split; try lia; try assumption.
      intros [| n'] Hn'; [assumption | apply Hfirst; lia].
Qed.

Lemma exec_from_first (r : regex) (pre s rest : jsstring) (g : Captures) :
  (forall n, n < length pre -> run r (skipn n (pre ++ s)) [] accept = None) ->
  run r s [] accept = Some (rest, g) ->
  forall i, exec_from r i (pre ++ s) = Some (mkMatch (i + length pre) rest g).
Proof.
  induction pre as [| ch pre IH]; intros Hpre Hs i.
  - simpl. destruct s; simpl; rewrite Hs; now rewrite Nat.add_0_r.
  - pose proof (Hpre 0 ltac:(simpl; lia)) as H0. simpl in H0.
    simpl. rewrite H0.
    rewrite IH; [f_equal; f_equal; lia | | assumption].
    intros n Hn. apply (Hpre (S n)). simpl. lia.
Qed.

(** *** Greedy classes *)

Lemma take_drop_while (p : code_unit -> bool) (s : jsstring) :
  take_while p s ++ drop_while p s = s.
Proof.
  induction s as [| c s IH]; simpl; [reflexivity |].
  destruct (p c); simpl; [now rewrite IH | reflexivity].
Qed.

Lemma take_while_all (p : code_unit -> bool) (s : jsstring) :
  forallb p (take_while p s) = true.
Proof.
  induction s as [| c s IH]; simpl; [reflexivity |].
  destruct (p c) eqn:Hp; simpl; [now rewrite Hp | reflexivity].
Qed.

Lemma drop_while_head (p : code_unit -> bool) (s : jsstring) :
  match drop_while p s with
  | c :: _ => p c = false
  | [] => True
  end.
Proof.
  induction s as [| c s IH]; simpl; [exact I |].
  destruct (p c) eqn:Hp; [exact IH | exact Hp].
Qed.

Lemma take_while_app (p : code_unit -> bool) (u v : jsstring) :
  forallb p u = true ->
  match v with c :: _ => p c = false | [] => True end ->
  take_while p (u ++ v) = u /\ drop_while p (u ++ v) = v.
Proof.
  intros Hu Hv. induction u as [| c u IH]; simpl in *.
  - destruct v as [| c v]; simpl; [auto |]. now rewrite Hv.
  - apply andb_true_iff in Hu. destruct Hu as [Hc Hu]. rewrite Hc.
    destruct (IH Hu) as [-> ->]. auto.
Qed.

Lemma length_drop_while (p : code_unit -> bool) (s : jsstring) :
  length (drop_while p s) <= length s.
Proof.
  induction s as [| c s IH]; simpl; [lia |]. destruct (p c); simpl; lia.
Qed.

Lemma firstn_take_while (p : code_unit -> bool) (s : jsstring) :
  firstn (length s - length (drop_while p s)) s = take_while p s.
Proof.
  rewrite <- (take_drop_while p s) at 1 3.
  rewrite length_app.
  replace (length (take_while p s) + length (drop_while p s)
           - length (drop_while p s)) with (length (take_while p s) + 0) by lia.
  rewrite firstn_app_2. simpl. now rewrite app_nil_r.
Qed.

(** A starred class takes every code unit it can when what follows the
    class is accepted. *)
Lemma star_class_greedy {R : Type}
      (step : jsstring -> Captures -> (jsstring -> Captures -> option R) -> option R)
      (p : code_unit -> bool) (k : jsstring -> Captures -> option R) (c : Captures) :
  (forall s c k', step s c k' = run (OneOf p) s c k') ->
  forall fuel s, length s <= fuel ->
    k (drop_while p s) c <> None ->
    star_loop step k fuel s c = k (drop_while p s) c.
Proof.
  intros Hstep. induction fuel as [| fuel IH]; intros s Hlen Hk.
  - destruct s; [reflexivity | simpl in Hlen; lia].
  - destruct s as [| ch s]; simpl; rewrite Hstep; simpl.
    + reflexivity.
    + destruct (p ch) eqn:Hp.
      * replace (length s <? S (length s)) with true
          by (symmetry; apply Nat.ltb_lt; lia).
        simpl in Hlen. simpl in Hk. rewrite Hp in Hk.
        rewrite IH by (lia || assumption).
        destruct (k (drop_while p s) c); [reflexivity | now elim Hk].
      * reflexivity.
Qed.

Lemma run_file_id_regex (s : jsstring) :
  run file_id_regex s [] accept
  = match file_id_at s with
    | Some id => Some (skipn (3 + length id) s, [(1, id)])
    | None => None
    end.
Proof.
  unfold file_id_regex, file_id_at. cbn [Lit run Char Plus].
  destruct s as [| a [| b [| c [| ch rest]]]];
    try reflexivity;
    try (destruct (N.eqb _ a); [| reflexivity]);
    try (destruct (N.eqb _ b); [| reflexivity]);
    try (destruct (N.eqb _ c); [| reflexivity]);
    try reflexivity.
  cbn [andb]. destruct (id_class ch) eqn:Hid; [| reflexivity].
  rewrite (star_class_greedy _ id_class)
    by (unfold accept; (reflexivity || lia || discriminate)).
  unfold accept. f_equal. f_equal.
  - change (3 + length (ch :: take_while id_class rest))
      with (S (S (S (S (length (take_while id_class rest)))))).
    cbn [skipn].
    transitivity (skipn (length (take_while id_class rest))
                        (take_while id_class rest ++ drop_while id_class rest));
      [| now rewrite take_drop_while].
    now rewrite skipn_app, skipn_all, Nat.sub_diag.
  - f_equal. f_equal.
    pose proof (length_drop_while id_class rest) as Hle.
    replace (length (ch :: rest) - length (drop_while id_class rest))
      with (S (length rest - length (drop_while id_class rest)))
      by (cbn [length]; lia).
    cbn [firstn]. now rewrite firstn_take_while.
Qed.


(** *** extractFileId *)

Lemma file_id_at_Some (s id : jsstring) :
  file_id_at s = Some id ->
  exists post, s = str "/d/" ++ id ++ post /\ id <> [] /\
               forallb id_class id = true /\
               match post with c :: _ => id_class c = false | [] => True end.
Proof.
  unfold file_id_at. destruct s as [| a [| b [| c [| ch rest]]]]; try discriminate.
  destruct (N.eqb_spec (unit_of "/") a) as [<- |]; [| discriminate].
  destruct (N.eqb_spec (unit_of "d") b) as [<- |]; [| discriminate].
  destruct (N.eqb_spec (unit_of "/") c) as [<- |]; [| discriminate].
  cbn [andb]. destruct (id_class ch) eqn:Hid; [| discriminate].
  intros H. inversion H; subst id.
  exists (drop_while id_class rest). repeat split.
  - cbn [str app]. unfold unit_of. do 4 f_equal.
    symmetry. apply take_drop_while.
  - discriminate.
  - cbn [forallb]. rewrite Hid. apply take_while_all.
  - apply drop_while_head.
Qed.

Lemma file_id_at_app (id post : jsstring) :
  id <> [] -> forallb id_class id = true ->
  match post with c :: _ => id_class c = false | [] => True end ->
  file_id_at (str "/d/" ++ id ++ post) = Some id.
Proof.
  intros Hne Hall Hpost. destruct id as [| ch id]; [now elim Hne |].
  cbn [forallb] in Hall. apply andb_true_iff in Hall. destruct Hall as [Hch Hall].
  cbn. rewrite Hch.
  destruct (take_while_app id_class id post Hall Hpost) as [-> _]. reflexivity.
Qed.

Lemma file_id_at_None (s : jsstring) :
  file_id_at s = None <->
  (forall ch post, s = str "/d/" ++ ch :: post -> id_class ch = false).
Proof.
  split.
  - intros H ch post ->. cbn in H. destruct (id_class ch); [discriminate H | reflexivity].
  - intros H. destruct (file_id_at s) as [id |] eqn:Hat; [| reflexivity].
    apply file_id_at_Some in Hat.
    destruct Hat as (post & -> & Hne & Hall & _).
    destruct id as [| ch id]; [now elim Hne |].
    cbn [forallb] in Hall. apply andb_true_iff in Hall. destruct Hall as [Hch _].
    rewrite (H ch (id ++ post) eq_refl) in Hch. discriminate Hch.
Qed.

Lemma run_file_id_None (s : jsstring) :
  run file_id_regex s [] accept = None <-> file_id_at s = None.
Proof.
  rewrite run_file_id_regex. destruct (file_id_at s); split; congruence.
Qed.

(** X6.  When [extractFileId] returns an identifier, the link reads
    [pre ++ "/d/" ++ id ++ post] where [id] is not empty, is made of letters,
    digits, [_] and [-] only, is not followed by one more such code unit, and
    no [/d/] followed by such a code unit begins inside [pre]. *)
Theorem extractFileId_first_identifier :
  forall link id : jsstring,
    extractFileId link = Some id ->
    exists pre post : jsstring,
      link = pre ++ str "/d/" ++ id ++ post /\
      id <> [] /\
      forallb id_class id = true /\
      match post with c :: _ => id_class c = false | [] => True end /\
      (forall n, n < length pre -> file_id_at (skipn n link) = None).
Proof.
  intros link id H. unfold extractFileId, exec in H.
  destruct (exec_from file_id_regex 0 link) as [m |] eqn:He; [| discriminate H].
  apply exec_from_Some in He. destruct He as (n & Hn & _ & Hrun & Hfirst).
  rewrite run_file_id_regex in Hrun.
  destruct (file_id_at (skipn n link)) as [id' |] eqn:Hat; [| discriminate Hrun].
  inversion Hrun as [[Hrest Hg]]. rewrite <- Hg in H. cbn in H.
  inversion H; subst id'.
  apply file_id_at_Some in Hat. destruct Hat as (post & Hs & Hne & Hall & Hpost).
  exists (firstn n link), post. repeat split; try assumption.
  - rewrite <- Hs. symmetry. apply firstn_skipn.
  - intros n' Hn'. rewrite length_firstn in Hn'.
    apply run_file_id_None. apply Hfirst. lia.
Qed.

(** X7.  [extractFileId] returns [null] exactly when the link has no [/d/]
    followed by a letter, a digit, [_] or [-]. *)
Theorem extractFileId_null_iff :
  forall link : jsstring,
    extractFileId link = None <->
    (forall pre ch post, link = pre ++ str "/d/" ++ ch :: post -> id_class ch = false).
Proof.
  intros link. unfold extractFileId, exec. split.
  - intros H pre ch post Hlink.
    destruct (exec_from file_id_regex 0 link) as [m |] eqn:He.
    + apply exec_from_Some in He. destruct He as (n & _ & _ & Hrun & _).
      rewrite run_file_id_regex in Hrun.
      destruct (file_id_at (skipn n link)); [| discriminate Hrun].
      inversion Hrun as [[Hrest Hg]]. rewrite <- Hg in H. discriminate H.
    + rewrite exec_from_None in He.
      specialize (He (length pre)). rewrite Hlink in He.
      rewrite skipn_app, skipn_all, Nat.sub_diag in He. cbn [skipn app] in He.
      assert (Hnone : file_id_at (str "/d/" ++ ch :: post) = None).
      { apply run_file_id_None. apply He. rewrite length_app. lia. }
      exact (proj1 (file_id_at_None _) Hnone ch post eq_refl).
  - intros H.
    destruct (exec_from file_id_regex 0 link) as [m |] eqn:He; [| reflexivity].
    exfalso. apply exec_from_Some in He. destruct He as (n & _ & _ & Hrun & _).
    rewrite run_file_id_regex in Hrun.
    destruct (file_id_at (skipn n link)) as [id |] eqn:Hat; [| discriminate Hrun].
    assert (Hnone : file_id_at (skipn n link) = None).
    { apply file_id_at_None. intros ch post Hs. apply (H (firstn n link) ch post).
      rewrite <- Hs. symmetry. apply firstn_skipn. }
    congruence.
Qed.

Lemma extractFileId_at (pre id post : jsstring) :
  id <> [] -> forallb id_class id = true ->
  match post with c :: _ => id_class c = false | [] => True end ->
  (forall n, n < length pre ->
     file_id_at (skipn n (pre ++ str "/d/" ++ id ++ post)) = None) ->
  extractFileId (pre ++ str "/d/" ++ id ++ post) = Some id.
Proof.
  intros Hne Hall Hpost Hpre. unfold extractFileId, exec.
  rewrite (exec_from_first file_id_regex pre (str "/d/" ++ id ++ post)
             (skipn (3 + length id) (str "/d/" ++ id ++ post)) [(1, id)]).
  - reflexivity.
  - intros n Hn. apply run_file_id_None. now apply Hpre.
  - rewrite run_file_id_regex, file_id_at_app by assumption. reflexivity.
Qed.

(** X8.  The link the server answers with is one it accepts: from
    [https://drive.google.com/file/d/<id>/view?usp=sharing], built around any
    identifier made of letters, digits, [_] and [-], [extractFileId] gets that
    identifier back. *)
Theorem extractFileId_of_public_url :
  forall id : jsstring,
    id <> [] -> forallb id_class id = true ->
    extractFileId (str "https://drive.google.com/file/d/" ++ id
                   ++ str "/view?usp=sharing") = Some id.
Proof.
  intros id Hne Hall.
  change (str "https://drive.google.com/file/d/" ++ id ++ str "/view?usp=sharing")
    with (str "https://drive.google.com/file"
          ++ str "/d/" ++ id ++ str "/view?usp=sharing").
  apply extractFileId_at; try assumption.
  - reflexivity.
  - intros n Hn. cbn [str length] in Hn.
    do 29 (destruct n as [| n]; [reflexivity |]). lia.
Qed.



(** *** trim *)

Lemma trimStart_idempotent (s : jsstring) : trimStart (trimStart s) = trimStart s.
Proof.
  induction s as [| c s IH]; simpl; [reflexivity |].
  destruct (is_white_space c) eqn:Hc; [exact IH |]. simpl. now rewrite Hc.
Qed.

Lemma trimStart_snoc (a : jsstring) (c : code_unit) :
  is_white_space c = false -> trimStart (a ++ [c]) = trimStart a ++ [c].
Proof.
  intros Hc. induction a as [| x a IH]; simpl.
  - now rewrite Hc.
  - destruct (is_white_space x); [exact IH | reflexivity].
Qed.

Lemma length_trimStart (s : jsstring) : length (trimStart s) <= length s.
Proof.
  induction s as [| c s IH]; simpl; [lia |].
  destruct (is_white_space c); simpl; lia.
Qed.

Lemma trimStart_fixed (s : jsstring) :
  trimStart s = s ->
  match s with c :: _ => is_white_space c = false | [] => True end.
Proof.
  destruct s as [| c s]; simpl; [trivial |].
  destruct (is_white_space c); [| reflexivity].
  intros H. pose proof (length_trimStart s) as Hl. rewrite H in Hl. simpl in Hl. lia.
Qed.

Lemma trimEnd_idempotent (s : jsstring) : trimEnd (trimEnd s) = trimEnd s.
Proof.
  unfold trimEnd. now rewrite rev_involutive, trimStart_idempotent.
Qed.

Lemma trimStart_trimEnd (s : jsstring) :
  trimStart s = s -> trimStart (trimEnd s) = trimEnd s.
Proof.
  intros H. apply trimStart_fixed in H.
  destruct s as [| c s]; [reflexivity |].
  unfold trimEnd. simpl rev. rewrite trimStart_snoc by assumption.
  rewrite rev_app_distr. simpl. now rewrite H.
Qed.

Lemma trim_idempotent (s : jsstring) : trim (trim s) = trim s.
Proof.
  unfold trim.
  rewrite (trimStart_trimEnd (trimStart s)) by apply trimStart_idempotent.
  apply trimEnd_idempotent.
Qed.

(** X9.  Whatever the name, present or not, the sanitized name is a stem
    followed by [.pdf], and the stem has no white space at either end. *)
Theorem sanitizeFileName_shape :
  forall name : option jsstring,
  exists stem : jsstring,
    sanitizeFileName name = stem ++ str ".pdf" /\ trim stem = stem.
Proof.
  intros [[| c name] |].
  - exists (str "Processed_File"). split; reflexivity.
  - eexists. split; [reflexivity |]. apply trim_idempotent.
  - exists (str "Processed_File"). split; reflexivity.
Qed.

(** *** The last code unit *)

Lemma last_unit_snoc (s : jsstring) (c : code_unit) : last_unit (s ++ [c]) = Some c.
Proof. unfold last_unit. now rewrite rev_app_distr. Qed.

Lemma last_unit_app (s t : jsstring) : t <> [] -> last_unit (s ++ t) = last_unit t.
Proof.
  intros Ht. destruct (exists_last Ht) as (t' & c & ->).
  now rewrite app_assoc, !last_unit_snoc.
Qed.

Lemma last_unit_skipn (n : nat) (s : jsstring) :
  skipn n s <> [] -> last_unit (skipn n s) = last_unit s.
Proof.
  intros H. rewrite <- (firstn_skipn n s) at 2. symmetry. now apply last_unit_app.
Qed.

Lemma last_unit_forallb (p : code_unit -> bool) (s : jsstring) :
  s <> [] -> forallb p s = true -> exists c, last_unit s = Some c /\ p c = true.
Proof.
  intros Hs Hall. destruct (exists_last Hs) as (s' & c & ->).
  exists c. rewrite last_unit_snoc. split; [reflexivity |].
  rewrite forallb_app in Hall. apply andb_true_iff in Hall.
  destruct Hall as [_ Hc]. simpl in Hc. now rewrite andb_true_r in Hc.
Qed.

(** *** What the two expressions of [sanitizeFileName] match *)

Lemma star_class_all (p : code_unit -> bool) (u v : jsstring) :
  star (denote (OneOf p)) u v -> forallb p u = true.
Proof.
  induction 1 as [v | u1 u2 v (ch & -> & Hp) _ _ IH]; [reflexivity |].
  simpl. now rewrite Hp.
Qed.

Lemma all_star_class (p : code_unit -> bool) (u v : jsstring) :
  forallb p u = true -> star (denote (OneOf p)) u v.
Proof.
  induction u as [| c u IH]; intros H; [constructor |].
  simpl in H. apply andb_true_iff in H. destruct H as [Hc Hu].
  change (c :: u) with ([c] ++ u). apply star_cons; [| discriminate | auto].
  now exists c.
Qed.

Lemma denote_Char (a : Ascii.ascii) (u v : jsstring) :
  denote (Char a) u v <-> u = [unit_of a].
Proof.
  unfold Char; simpl. split.
  - intros (ch & -> & H). apply N.eqb_eq in H. now subst.
  - intros ->. exists (unit_of a). split; [reflexivity | apply N.eqb_refl].
Qed.

(** A match of the extension expression runs to the end of the string and
    reads [.], [p], [d] and one or more [f], in either case. *)
Lemma pdf_regex_shape (s rest : jsstring) (g : Captures) :
  run pdf_regex s [] accept = Some (rest, g) ->
  rest = [] /\
  exists p d fs,
    s = unit_of "." :: p :: d :: fs /\
    either_case "p" "P" p = true /\ either_case "d" "D" d = true /\
    fs <> [] /\ forallb (either_case "f" "F") fs = true.
Proof.
  intros H. apply run_sound in H. destruct H as (u & v & c' & -> & Hd & Hk).
  unfold accept in Hk. inversion Hk; subst rest g.
  unfold pdf_regex, CharI, Plus in Hd. cbn [denote] in Hd.
  destruct Hd as (u1 & u2 & -> & Hdot & u3 & u4 & -> & (p & -> & Hp)
                  & u5 & u6 & -> & (d & -> & Hd)
                  & u7 & u8 & -> & (u9 & u10 & -> & (f & -> & Hf) & Hstar)
                  & -> & ->).
  apply denote_Char in Hdot. subst u1.
  split; [reflexivity |].
  exists p, d, (f :: u10). rewrite !app_nil_r. repeat split; try assumption.
  - discriminate.
  - cbn [forallb]. rewrite Hf. exact (star_class_all _ _ _ Hstar).
Qed.

Lemma pdf_regex_match (p d : code_unit) (fs : jsstring) :
  either_case "p" "P" p = true -> either_case "d" "D" d = true ->
  fs <> [] -> forallb (either_case "f" "F") fs = true ->
  exists g, run pdf_regex (unit_of "." :: p :: d :: fs) [] accept = Some ([], g).
Proof.
  intros Hp Hd Hne Hfs.
  destruct (run pdf_regex (unit_of "." :: p :: d :: fs) [] accept) as [[rest g] |] eqn:Hrun.
  - destruct (pdf_regex_shape _ _ _ Hrun) as [-> _]. now exists g.
  - exfalso. revert Hrun.
    rewrite <- (app_nil_r (unit_of "." :: p :: d :: fs)).
    apply run_complete; [| discriminate].
    destruct fs as [| f fs]; [now elim Hne |].
    cbn [forallb] in Hfs. apply andb_true_iff in Hfs. destruct Hfs as [Hf Hfs].
    unfold pdf_regex, CharI, Plus. cbn [denote].
    exists [unit_of "."], (p :: d :: f :: fs). split; [reflexivity |].
    split; [now apply denote_Char |].
    exists [p], (d :: f :: fs). split; [reflexivity |]. split; [now exists p |].
    exists [d], (f :: fs). split; [reflexivity |]. split; [now exists d |].
    exists (f :: fs), []. split; [now rewrite app_nil_r |]. split; [| split; reflexivity].
    exists [f], fs. split; [reflexivity |]. split; [now exists f |].
    now apply all_star_class.
Qed.

(** A match of the time-stamp expression runs to the end of the string: one
    or more stamp groups, then [.pdf] in either case. *)
Lemma timestamp_regex_shape (s rest : jsstring) (g : Captures) :
  run timestamp_regex s [] accept = Some (rest, g) ->
  rest = [] /\
  exists w p d f,
    s = w ++ [unit_of "."; p; d; f] /\
    denote (Plus stamp_group) w [unit_of "."; p; d; f] /\
    either_case "p" "P" p = true /\ either_case "d" "D" d = true /\
    either_case "f" "F" f = true.
Proof.
  intros H. apply run_sound in H. destruct H as (u & v & c' & -> & Hd & Hk).
  unfold accept in Hk. inversion Hk; subst rest g.
  unfold timestamp_regex, CharI in Hd. cbn [denote] in Hd.
  destruct Hd as (w & u2 & -> & Hw & u3 & u4 & -> & Hdot
                  & u5 & u6 & -> & (p & -> & Hp)
                  & u7 & u8 & -> & (d & -> & Hd)
                  & u9 & u10 & -> & (f & -> & Hf) & -> & ->).
  apply denote_Char in Hdot. subst u3.
  split; [reflexivity |].
  exists w, p, d, f. rewrite !app_nil_r in *. repeat split; assumption.
Qed.

(** *** Names that keep their stem *)

Lemma replace_none (s : jsstring) (r : regex) (by_ : jsstring) :
  exec r s = None -> replace s r by_ = s.
Proof. unfold replace. now intros ->. Qed.

Lemma exec_pdf_regex_None (s : jsstring) :
  (forall c, last_unit s = Some c -> either_case "f" "F" c = false) ->
  exec pdf_regex s = None.
Proof.
  intros Hlast. apply exec_from_None. intros n Hn.
  destruct (run pdf_regex (skipn n s) [] accept) as [[rest g] |] eqn:Hrun;
    [exfalso | reflexivity].
  apply pdf_regex_shape in Hrun.
  destruct Hrun as (_ & p & d & fs & Hs & _ & _ & Hne & Hfs).
  destruct (last_unit_forallb _ fs Hne Hfs) as (c & Hc & Hf).
  assert (Hl : last_unit s = Some c).
  { rewrite <- (last_unit_skipn n s) by (rewrite Hs; discriminate).
    rewrite Hs. change (unit_of "." :: p :: d :: fs) with ([unit_of "."; p; d] ++ fs).
    now rewrite last_unit_app. }
  rewrite (Hlast c Hl) in Hf. discriminate Hf.
Qed.

Lemma exec_timestamp_regex_None (s : jsstring) :
  (forall c, last_unit s = Some c -> either_case "f" "F" c = false) ->
  exec timestamp_regex s = None.
Proof.
  intros Hlast. apply exec_from_None. intros n Hn.
  destruct (run timestamp_regex (skipn n s) [] accept) as [[rest g] |] eqn:Hrun;
    [exfalso | reflexivity].
  apply timestamp_regex_shape in Hrun.
  destruct Hrun as (_ & w & p & d & f & Hs & _ & _ & _ & Hf).
  assert (Hl : last_unit s = Some f).
  { rewrite <- (last_unit_skipn n s) by (rewrite Hs; now destruct w).
    rewrite Hs. change [unit_of "."; p; d; f] with ([unit_of "."; p; d] ++ [f]).
    now rewrite app_assoc, last_unit_snoc. }
  rewrite (Hlast f Hl) in Hf. discriminate Hf.
Qed.

(** X10.  A name that does not end in [f] or [F] loses nothing: it is
    trimmed and given the extension [.pdf]. *)
Theorem sanitizeFileName_keeps_other_names :
  forall name : jsstring,
    name <> [] ->
    (forall c, last_unit name = Some c -> either_case "f" "F" c = false) ->
    sanitizeFileName (Some name) = trim name ++ str ".pdf".
Proof.
  intros name Hne Hlast. destruct name as [| c name]; [now elim Hne |].
  cbn [sanitizeFileName].
  rewrite (replace_none _ timestamp_regex) by now apply exec_timestamp_regex_None.
  rewrite (replace_none _ pdf_regex) by now apply exec_pdf_regex_None.
  reflexivity.
Qed.

(** *** Stamp groups *)

Lemma last_unit_cons (c : code_unit) (s : jsstring) :
  last_unit (c :: s) = match last_unit s with Some c' => Some c' | None => Some c end.
Proof.
  destruct s as [| x s]; [reflexivity |].
  change (c :: x :: s) with ([c] ++ x :: s).
  rewrite last_unit_app by discriminate.
  destruct (last_unit (x :: s)) eqn:H; [reflexivity |].
  unfold last_unit in H. simpl in H. destruct (rev s ++ [x]) eqn:Hr; [| discriminate H].
  now destruct (rev s).
Qed.

Lemma stamp_units_app (x y : jsstring) :
  forall prev,
    stamp_units prev (x ++ y)
    = stamp_units prev x
      && stamp_units (match last_unit x with Some c => digit c | None => prev end) y.
Proof.
  induction x as [| c x IH]; intros prev; [reflexivity |].
  cbn [app stamp_units]. rewrite IH, last_unit_cons, andb_assoc.
  now destruct (last_unit x).
Qed.

Lemma stamp_units_digits (d : jsstring) :
  forallb digit d = true -> forall prev, stamp_units prev d = true.
Proof.
  induction d as [| c d IH]; intros H prev; [reflexivity |].
  simpl in H. apply andb_true_iff in H. destruct H as [Hc Hd].
  simpl. rewrite Hc. simpl. now apply IH.
Qed.

Lemma denote_Repeat_class (p : code_unit -> bool) (n : nat) :
  forall u v, denote (Repeat n (OneOf p)) u v <-> length u = n /\ forallb p u = true.
Proof.
  induction n as [| n IH]; intros u v; cbn [Repeat denote].
  - split; [intros -> | intros [H _]]; [now split | now destruct u].
  - split.
    + intros (u1 & u2 & -> & (ch & -> & Hp) & H2). apply IH in H2.
      destruct H2 as [<- H2]. simpl. now rewrite Hp.
    + intros [Hl Hall]. destruct u as [| ch u]; [discriminate Hl |].
      simpl in Hl, Hall. apply andb_true_iff in Hall. destruct Hall as [Hp Hall].
      exists [ch], u. split; [reflexivity |]. split; [now exists ch |].
      apply IH. split; [lia | assumption].
Qed.

Lemma denote_Plus_class (p : code_unit -> bool) (u v : jsstring) :
  denote (Plus (OneOf p)) u v <-> u <> [] /\ forallb p u = true.
Proof.
  unfold Plus; cbn [denote]. split.
  - intros (u1 & u2 & -> & (ch & -> & Hp) & Hstar). split; [discriminate |].
    simpl. rewrite Hp. exact (star_class_all _ _ _ Hstar).
  - intros [Hne Hall]. destruct u as [| ch u]; [now elim Hne |].
    simpl in Hall. apply andb_true_iff in Hall. destruct Hall as [Hp Hall].
    exists [ch], u. split; [reflexivity |]. split; [now exists ch |].
    now apply all_star_class.
Qed.

Lemma denote_stamp_group (g v : jsstring) : denote stamp_group g v <-> is_stamp g.
Proof.
  unfold stamp_group, is_stamp. cbn [denote]. split.
  - intros (u1 & r1 & -> & H1 & date & r2 & -> & Hdate & u2 & r3 & -> & H2
            & time & serial & -> & Htime & Hserial).
    apply denote_Char in H1, H2. subst u1 u2.
    apply denote_Repeat_class in Hdate, Htime.
    destruct Hdate as [Ld Hd], Htime as [Lt Ht].
    exists date, time, serial. repeat split; try assumption.
    destruct Hserial as [-> | (u3 & number & -> & H3 & Hn)]; [now left | right].
    apply denote_Char in H3. subst u3. apply denote_Plus_class in Hn.
    destruct Hn as [Hne Hn]. now exists number.
  - intros (date & time & serial & -> & Ld & Hd & Lt & Ht & Hserial).
    exists (str "_"), (date ++ str "_" ++ time ++ serial). split; [reflexivity |].
    split; [now apply denote_Char |].
    exists date, (str "_" ++ time ++ serial). split; [reflexivity |].
    split; [now apply denote_Repeat_class |].
    exists (str "_"), (time ++ serial). split; [reflexivity |].
    split; [now apply denote_Char |].
    exists time, serial. split; [reflexivity |].
    split; [now apply denote_Repeat_class |].
    destruct Hserial as [-> | (number & -> & Hne & Hn)]; [now left | right].
    exists (str "_"), number. split; [reflexivity |].
    split; [now apply denote_Char |]. now apply denote_Plus_class.
Qed.

Lemma app_not_nil_r (x t : jsstring) : t <> [] -> x ++ t <> [].
Proof. intros Ht H. apply app_eq_nil in H. now destruct H. Qed.

Lemma digits_last (d : jsstring) :
  d <> [] -> forallb digit d = true ->
  match last_unit d with Some c => digit c | None => false end = true.
Proof.
  intros Hne Hd. destruct (last_unit_forallb _ d Hne Hd) as (c & -> & Hc). exact Hc.
Qed.

(** A stamp begins with [_], ends with a digit, and in between every [_]
    follows a digit. *)
Lemma is_stamp_units (g : jsstring) :
  is_stamp g ->
  (exists rest, g = unit_of "_" :: rest) /\
  stamp_units true g = true /\
  match last_unit g with Some c => digit c | None => false end = true.
Proof.
  intros (date & time & serial & -> & Ld & Hd & Lt & Ht & Hserial).
  assert (Nd : date <> []) by (intros ->; discriminate Ld).
  assert (Nt : time <> []) by (intros ->; discriminate Lt).
  destruct (last_unit_forallb _ date Nd Hd) as (cd & Hcd & Hdd).
  destruct (last_unit_forallb _ time Nt Ht) as (ct & Hct & Hdt).
  split; [eexists; reflexivity |]. split.
  - change (str "_" ++ date ++ str "_" ++ time ++ serial)
      with ([unit_of "_"] ++ date ++ [unit_of "_"] ++ time ++ serial).
    rewrite !stamp_units_app.
    rewrite (stamp_units_digits date Hd), (stamp_units_digits time Ht).
    rewrite Hcd, Hct, Hdd, Hdt.
    destruct Hserial as [-> | (number & -> & Hne & Hn)]; [reflexivity |].
    change (str "_" ++ number) with ([unit_of "_"] ++ number).
    rewrite stamp_units_app, (stamp_units_digits number Hn).
    reflexivity.
  - destruct Hserial as [-> | (number & -> & Hne & Hn)].
    + rewrite app_nil_r.
      rewrite !last_unit_app by (repeat apply app_not_nil_r; assumption).
      now rewrite Hct.
    + rewrite !last_unit_app by (repeat apply app_not_nil_r; assumption).
      now apply digits_last.
Qed.

Lemma star_stamp_units (u v : jsstring) :
  star (denote stamp_group) u v ->
  stamp_units true u = true /\
  (u = [] \/ match last_unit u with Some c => digit c | None => false end = true).
Proof.
  induction 1 as [v | u1 u2 v H1 Hne Hstar [IHu IHl]]; [split; [reflexivity | now left] |].
  apply denote_stamp_group, is_stamp_units in H1. destruct H1 as (_ & Hu1 & Hl1).
  split.
  - rewrite stamp_units_app, Hu1.
    destruct (last_unit u1) as [c |]; [| discriminate Hl1]. now rewrite Hl1.
  - right. destruct IHl as [-> | IHl]; [now rewrite app_nil_r |].
    rewrite last_unit_app; [assumption |]. intros ->. discriminate IHl.
Qed.

Lemma plus_stamp_units (w v : jsstring) :
  denote (Plus stamp_group) w v ->
  (exists rest, w = unit_of "_" :: rest) /\
  stamp_units true w = true /\
  match last_unit w with Some c => digit c | None => false end = true.
Proof.
  intros (u1 & u2 & -> & H1 & Hstar).
  apply denote_stamp_group, is_stamp_units in H1.
  destruct H1 as ((rest & ->) & Hu1 & Hl1).
  apply star_stamp_units in Hstar. destruct Hstar as [Hu2 Hl2].
  split; [eexists; reflexivity |]. split.
  - rewrite stamp_units_app, Hu1.
    destruct (last_unit (unit_of "_" :: rest)) as [c |]; [| discriminate Hl1].
    now rewrite Hl1.
  - destruct Hl2 as [-> | Hl2]; [now rewrite app_nil_r |].
    rewrite last_unit_app; [assumption |]. intros ->. discriminate Hl2.
Qed.

(** *** Names that lose a suffix *)

Lemma replace_suffix (stem t : jsstring) (r : regex) (g : Captures) :
  (forall n, n < length stem -> run r (skipn n (stem ++ t)) [] accept = None) ->
  run r t [] accept = Some ([], g) ->
  replace (stem ++ t) r [] = stem.
Proof.
  intros Hpre Ht. unfold replace, exec.
  rewrite (exec_from_first r stem t [] g Hpre Ht).
  cbn [match_index match_rest Nat.add].
  rewrite firstn_app, firstn_all, Nat.sub_diag. simpl. now rewrite !app_nil_r.
Qed.

Lemma skipn_stem (n : nat) (stem t : jsstring) :
  n < length stem ->
  exists a, skipn n (stem ++ t) = a ++ t /\ a <> [] /\ last_unit a = last_unit stem.
Proof.
  intros Hn. exists (skipn n stem).
  assert (Hne : skipn n stem <> []).
  { intros H. apply (f_equal (@length _)) in H. rewrite length_skipn in H.
    simpl in H. lia. }
  repeat split.
  - rewrite skipn_app. replace (n - length stem) with 0 by lia. reflexivity.
  - assumption.
  - now apply last_unit_skipn.
Qed.

Lemma app_inv_tail_length (x x' y y' : jsstring) :
  x ++ y = x' ++ y' -> length y = length y' -> x = x' /\ y = y'.
Proof.
  revert x'. induction x as [| c x IH]; intros [| c' x'] H L; simpl in H.
  - auto.
  - subst y. simpl in L. rewrite length_app in L. lia.
  - subst y'. simpl in L. rewrite length_app in L. lia.
  - inversion H; subst c'. destruct (IH x' H2 L) as [-> ->]. auto.
Qed.

Lemma either_case_not_digit (lower upper : Ascii.ascii) (c : code_unit) :
  digit (unit_of lower) = false -> digit (unit_of upper) = false ->
  either_case lower upper c = true -> digit c = false.
Proof.
  intros Hl Hu H. unfold either_case in H. apply orb_true_iff in H.
  destruct H as [H | H]; apply N.eqb_eq in H; now subst c.
Qed.

Arguments either_case_not_digit (lower upper)%_char c _ _ _.

(** The code unit that stands five places from the end of
    [stem ++ ".pd" ++ fs] is a digit only when [fs] is a single [f] and the
    stem ends with that digit. *)
Lemma fifth_from_end (x stem fs : jsstring) (cw e1 e2 e3 e4 p d : code_unit) :
  x ++ [cw; e1; e2; e3; e4] = stem ++ unit_of "." :: p :: d :: fs ->
  fs <> [] -> forallb (either_case "f" "F") fs = true ->
  either_case "p" "P" p = true -> either_case "d" "D" d = true ->
  digit cw = true ->
  last_unit stem = Some cw.
Proof.
  intros H Hne Hfs Hp Hd Hcw.
  apply (f_equal (@rev _)) in H.
  rewrite !rev_app_distr in H. cbn [rev app] in H.
  rewrite <- !app_assoc in H. cbn [app] in H.
  assert (Hrfs : forallb (either_case "f" "F") (rev fs) = true).
  { rewrite forallb_forall in *. intros c Hc. apply Hfs. now apply in_rev. }
  assert (Hrne : rev fs <> []).
  { intros E. apply Hne. apply (f_equal (@rev _)) in E.
    now rewrite rev_involutive in E. }
  pose proof (either_case_not_digit "p" "P" p eq_refl eq_refl Hp) as Np.
  pose proof (either_case_not_digit "d" "D" d eq_refl eq_refl Hd) as Nd.
  unfold last_unit.
  destruct (rev fs) as [| f1 [| f2 [| f3 [| f4 [| f5 r]]]]];
    [now elim Hrne | | | | |]; cbn [app] in H; inversion H; subst.
  - reflexivity.
  - discriminate Hcw.
  - congruence.
  - congruence.
  - match goal with
    | Hc : digit ?x = true |- _ =>
        rewrite (either_case_not_digit "f" "F" x eq_refl eq_refl) in Hc;
        [discriminate Hc |]
    end.
    cbn [forallb] in Hrfs.
    repeat (apply andb_true_iff in Hrfs; destruct Hrfs as [? Hrfs]).
    assumption.
Qed.

Lemma exec_timestamp_regex_extension (stem fs : jsstring) (p d : code_unit) :
  (forall c, last_unit stem = Some c -> digit c = false) ->
  either_case "p" "P" p = true -> either_case "d" "D" d = true ->
  fs <> [] -> forallb (either_case "f" "F") fs = true ->
  exec timestamp_regex (stem ++ unit_of "." :: p :: d :: fs) = None.
Proof.
  intros Hlast Hp Hd Hne Hfs. apply exec_from_None. intros n Hn.
  destruct (run timestamp_regex _ [] accept) as [[rest g] |] eqn:Hrun;
    [exfalso | reflexivity].
  apply timestamp_regex_shape in Hrun.
  destruct Hrun as (_ & w & p' & d' & f' & Hs & Hw & _ & _ & _).
  apply plus_stamp_units in Hw. destruct Hw as ((rest' & Hw0) & _ & Hl).
  assert (Hwne : w <> []) by (rewrite Hw0; discriminate).
  destruct (exists_last Hwne) as (w0 & cw & ->).
  rewrite last_unit_snoc in Hl.
  assert (Hname : (firstn n (stem ++ unit_of "." :: p :: d :: fs) ++ w0)
                  ++ [cw; unit_of "."; p'; d'; f']
                  = stem ++ unit_of "." :: p :: d :: fs).
  { rewrite <- (firstn_skipn n (stem ++ unit_of "." :: p :: d :: fs)) at 2.
    rewrite Hs, <- !app_assoc. reflexivity. }
  pose proof (fifth_from_end _ _ _ _ _ _ _ _ _ _ Hname Hne Hfs Hp Hd Hl) as Hst.
  rewrite (Hlast cw Hst) in Hl. discriminate Hl.
Qed.

Lemma run_pdf_regex_inside (a fs : jsstring) (p d : code_unit) :
  a <> [] ->
  run pdf_regex (a ++ unit_of "." :: p :: d :: fs) [] accept = None.
Proof.
  intros Ha.
  destruct (run pdf_regex _ [] accept) as [[rest g] |] eqn:Hrun;
    [exfalso | reflexivity].
  apply pdf_regex_shape in Hrun.
  destruct Hrun as (_ & p' & d' & fs' & Hs & Hp' & Hd' & _ & Hfs').
  destruct a as [| c0 a]; [now elim Ha |].
  cbn [app] in Hs. inversion Hs as [[Hc0 Hrest]].
  set (letter := fun c => either_case "p" "P" c || either_case "d" "D" c
                          || either_case "f" "F" c).
  assert (Hall : forallb letter (p' :: d' :: fs') = true).
  { apply forallb_forall. intros c [<- | [<- | Hc]]; unfold letter.
    - now rewrite Hp'.
    - now rewrite Hd', orb_true_r.
    - rewrite forallb_forall in Hfs'. now rewrite (Hfs' c Hc), orb_true_r. }
  rewrite <- Hrest, forallb_app in Hall. apply andb_true_iff in Hall.
  destruct Hall as [_ Hall]. cbn [forallb] in Hall.
  apply andb_true_iff in Hall. destruct Hall as [Hdot _]. discriminate Hdot.
Qed.

(** X11.  From a name that is a stem followed by [.pdf], in either case and
    with any number of [f], the stem is kept and the extension becomes
    [.pdf], as long as the stem carries no white space at its ends and does
    not end with a digit. *)
Theorem sanitizeFileName_normalises_extension :
  forall (stem fs : jsstring) (p d : code_unit),
    trim stem = stem ->
    (forall c, last_unit stem = Some c -> digit c = false) ->
    either_case "p" "P" p = true -> either_case "d" "D" d = true ->
    fs <> [] -> forallb (either_case "f" "F") fs = true ->
    sanitizeFileName (Some (stem ++ unit_of "." :: p :: d :: fs))
    = stem ++ str ".pdf".
Proof.
  intros stem fs p d Htrim Hlast Hp Hd Hne Hfs.
  destruct (stem ++ unit_of "." :: p :: d :: fs) as [| c0 name] eqn:Hname.
  { now destruct stem. }
  cbn [sanitizeFileName]. rewrite <- Hname.
  rewrite (replace_none _ timestamp_regex)
    by now apply exec_timestamp_regex_extension.
  destruct (pdf_regex_match p d fs Hp Hd Hne Hfs) as [g Hg].
  rewrite (replace_suffix stem _ pdf_regex g); [now rewrite Htrim | | exact Hg].
  intros n Hn. destruct (skipn_stem n stem (unit_of "." :: p :: d :: fs) Hn)
    as (a & -> & Ha & _).
  now apply run_pdf_regex_inside.
Qed.

Lemma stamps_denote (stamps : list jsstring) (v : jsstring) :
  Forall is_stamp stamps -> star (denote stamp_group) (concat stamps) v.
Proof.
  induction 1 as [| g stamps Hg _ IH]; [constructor |].
  cbn [concat]. apply star_cons; [now apply denote_stamp_group | | exact IH].
  destruct (is_stamp_units g Hg) as ((rest & ->) & _). discriminate.
Qed.

Lemma timestamp_regex_match (stamps : list jsstring) (p d f : code_unit) :
  stamps <> [] -> Forall is_stamp stamps ->
  either_case "p" "P" p = true -> either_case "d" "D" d = true ->
  either_case "f" "F" f = true ->
  exists g,
    run timestamp_regex (concat stamps ++ [unit_of "."; p; d; f]) [] accept
    = Some ([], g).
Proof.
  intros Hne Hst Hp Hd Hf.
  destruct (run timestamp_regex _ [] accept) as [[rest g] |] eqn:Hrun.
  - destruct (timestamp_regex_shape _ _ _ Hrun) as [-> _]. now exists g.
  - exfalso. revert Hrun.
    rewrite <- (app_nil_r (concat stamps ++ [unit_of "."; p; d; f])).
    apply run_complete; [| discriminate].
    destruct stamps as [| g0 stamps]; [now elim Hne |].
    inversion Hst as [| ? ? Hg0 Hrest]; subst.
    unfold timestamp_regex, CharI.
    change (denote (Seq ?a ?b) ?u ?v)
      with (exists u1 u2, u = u1 ++ u2 /\ denote a u1 (u2 ++ v) /\ denote b u2 v).
    exists (concat (g0 :: stamps)), [unit_of "."; p; d; f].
    split; [reflexivity |]. split.
    + unfold Plus. cbn [denote concat].
      exists g0, (concat stamps). split; [reflexivity |].
      split; [now apply denote_stamp_group | now apply stamps_denote].
    + cbn [denote].
      exists [unit_of "."], [p; d; f]. split; [reflexivity |].
      split; [now apply denote_Char |].
      exists [p], [d; f]. split; [reflexivity |]. split; [now exists p |].
      exists [d], [f]. split; [reflexivity |]. split; [now exists d |].
      exists [f], []. split; [reflexivity |]. split; [now exists f |].
      split; reflexivity.
Qed.

Lemma run_timestamp_regex_inside (a : jsstring) (stamps : list jsstring)
      (p d f : code_unit) :
  a <> [] -> (forall c, last_unit a = Some c -> digit c = false) ->
  stamps <> [] -> Forall is_stamp stamps ->
  run timestamp_regex (a ++ concat stamps ++ [unit_of "."; p; d; f]) [] accept = None.
Proof.
  intros Ha Hlast Hne Hst.
  destruct (run timestamp_regex _ [] accept) as [[rest g] |] eqn:Hrun;
    [exfalso | reflexivity].
  apply timestamp_regex_shape in Hrun.
  destruct Hrun as (_ & w & p' & d' & f' & Hs & Hw & _ & _ & _).
  rewrite app_assoc in Hs. symmetry in Hs.
  apply app_inv_tail_length in Hs; [| reflexivity]. destruct Hs as [-> _].
  apply plus_stamp_units in Hw. destruct Hw as (_ & Hu & _).
  rewrite stamp_units_app in Hu. apply andb_true_iff in Hu. destruct Hu as [_ Hu].
  destruct stamps as [| g0 stamps]; [now elim Hne |].
  inversion Hst as [| ? ? Hg0 _]; subst.
  destruct (is_stamp_units g0 Hg0) as ((rest' & ->) & _).
  destruct (exists_last Ha) as (a0 & c & ->).
  rewrite last_unit_snoc in Hu, Hlast.
  cbn [concat app stamp_units] in Hu.
  rewrite (Hlast c eq_refl) in Hu. discriminate Hu.
Qed.

(** X12.  From a name that is a stem, one or more time stamps and [.pdf] in
    either case, the stem alone is kept, as long as it carries no white space
    at its ends and ends neither with a digit nor with [f] or [F]. *)
Theorem sanitizeFileName_strips_time_stamps :
  forall (stem : jsstring) (stamps : list jsstring) (p d f : code_unit),
    trim stem = stem ->
    (forall c, last_unit stem = Some c ->
               digit c = false /\ either_case "f" "F" c = false) ->
    stamps <> [] -> Forall is_stamp stamps ->
    either_case "p" "P" p = true -> either_case "d" "D" d = true ->
    either_case "f" "F" f = true ->
    sanitizeFileName (Some (stem ++ concat stamps ++ [unit_of "."; p; d; f]))
    = stem ++ str ".pdf".
Proof.
  intros stem stamps p d f Htrim Hlast Hne Hst Hp Hd Hf.
  destruct (stem ++ concat stamps ++ [unit_of "."; p; d; f]) as [| c0 name] eqn:Hname.
  { apply app_eq_nil in Hname. destruct Hname as [_ Hname].
    apply app_eq_nil in Hname. destruct Hname as [_ Hname]. discriminate Hname. }
  cbn [sanitizeFileName]. rewrite <- Hname.
  destruct (timestamp_regex_match stamps p d f Hne Hst Hp Hd Hf) as [g Hg].
  rewrite (replace_suffix stem _ timestamp_regex g); [| | exact Hg].
  - rewrite (replace_none _ pdf_regex); [now rewrite Htrim |].
    apply exec_pdf_regex_None. intros c Hc. now apply Hlast.
  - intros n Hn.
    destruct (skipn_stem n stem (concat stamps ++ [unit_of "."; p; d; f]) Hn)
      as (a & -> & Ha & Hla).
    apply run_timestamp_regex_inside; try assumption.
    intros c Hc. rewrite Hla in Hc. now apply Hlast.
Qed.

(** *** Names whose extension has more than one [f] *)

Lemma digit_not_white_space (c : code_unit) : digit c = true -> is_white_space c = false.
Proof.
  unfold digit, in_range. intros H. apply andb_true_iff in H. destruct H as [Hlo Hhi].
  change (unit_of "0") with 48%N in Hlo. change (unit_of "9") with 57%N in Hhi.
  apply N.leb_le in Hlo, Hhi.
  unfold is_white_space. cbn [existsb].
  repeat (rewrite (proj2 (N.eqb_neq c _)) by lia; cbn [orb]).
  reflexivity.
Qed.

Lemma length_trimEnd (s : jsstring) : length (trimEnd s) <= length s.
Proof.
  unfold trimEnd. rewrite length_rev, <- (length_rev s). apply length_trimStart.
Qed.

(** A string is left alone by [trim] exactly when it neither begins nor ends
    with white space. *)
Lemma trim_fixed (s : jsstring) :
  match s with c :: _ => is_white_space c = false | [] => True end ->
  (forall c, last_unit s = Some c -> is_white_space c = false) ->
  trim s = s.
Proof.
  intros Hfirst Hlast. unfold trim.
  assert (Hs : trimStart s = s).
  { destruct s as [| c s]; [reflexivity |]. simpl. now rewrite Hfirst. }
  rewrite Hs. unfold trimEnd, last_unit in *.
  destruct (rev s) as [| c r] eqn:Hr.
  - apply (f_equal (@rev _)) in Hr. now rewrite rev_involutive in Hr.
  - simpl. rewrite (Hlast c eq_refl). rewrite <- Hr. apply rev_involutive.
Qed.

Lemma trim_fixed_first (s : jsstring) :
  trim s = s -> match s with c :: _ => is_white_space c = false | [] => True end.
Proof.
  intros H. apply trimStart_fixed.
  destruct s as [| c s]; [reflexivity |]. simpl.
  destruct (is_white_space c) eqn:Hc; [exfalso | reflexivity].
  unfold trim in H. simpl in H. rewrite Hc in H.
  pose proof (length_trimEnd (trimStart s)) as L1.
  pose proof (length_trimStart s) as L2.
  rewrite H in L1. simpl in L1. lia.
Qed.

(** The time-stamp expression wants exactly [.pdf] at the end: a second [f]
    puts a letter where it looks for the dot. *)
Lemma exec_timestamp_regex_doubled (a fs : jsstring) (p d : code_unit) :
  either_case "p" "P" p = true -> either_case "d" "D" d = true ->
  2 <= length fs -> forallb (either_case "f" "F") fs = true ->
  exec timestamp_regex (a ++ unit_of "." :: p :: d :: fs) = None.
Proof.
  intros Hp Hd Hlen Hfs. apply exec_from_None. intros n Hn.
  destruct (run timestamp_regex _ [] accept) as [[rest g] |] eqn:Hrun;
    [exfalso | reflexivity].
  apply timestamp_regex_shape in Hrun.
  destruct Hrun as (_ & w & p' & d' & f' & Hs & _ & _ & _ & _).
  assert (Hname : (firstn n (a ++ unit_of "." :: p :: d :: fs) ++ w)
                  ++ [unit_of "."; p'; d'; f']
                  = a ++ unit_of "." :: p :: d :: fs).
  { rewrite <- (firstn_skipn n (a ++ unit_of "." :: p :: d :: fs)) at 2.
    rewrite Hs, <- !app_assoc. reflexivity. }
  apply (f_equal (@rev _)) in Hname.
  rewrite !rev_app_distr in Hname. cbn [rev app] in Hname.
  rewrite <- !app_assoc in Hname. cbn [app] in Hname.
  assert (Hrfs : forallb (either_case "f" "F") (rev fs) = true).
  { rewrite forallb_forall in *. intros c Hc. apply Hfs. now apply in_rev. }
  rewrite <- length_rev in Hlen.
  destruct (rev fs) as [| f1 [| f2 [| f3 [| f4 r]]]]; cbn [length] in Hlen; try lia;
    cbn [app] in Hname; inversion Hname; subst.
  - discriminate Hp.
  - discriminate Hd.
  - cbn [forallb] in Hrfs.
    repeat (apply andb_true_iff in Hrfs; destruct Hrfs as [? Hrfs]).
    match goal with H : either_case "f" "F" 46%N = true |- _ => discriminate H end.
Qed.

Lemma concat_stamps_ends (stamps : list jsstring) :
  stamps <> [] -> Forall is_stamp stamps ->
  (exists rest, concat stamps = unit_of "_" :: rest) /\
  exists c, last_unit (concat stamps) = Some c /\ digit c = true.
Proof.
  intros Hne Hst. destruct stamps as [| g0 stamps]; [now elim Hne |].
  inversion Hst as [| ? ? Hg0 Hrest]; subst.
  assert (Hplus : denote (Plus stamp_group) (concat (g0 :: stamps)) []).
  { unfold Plus. cbn [denote concat].
    exists g0, (concat stamps). split; [reflexivity |].
    split; [now apply denote_stamp_group | now apply stamps_denote]. }
  apply plus_stamp_units in Hplus. destruct Hplus as (Hfirst & _ & Hlast).
  split; [exact Hfirst |].
  destruct (last_unit (concat (g0 :: stamps))) as [c |]; [| discriminate Hlast].
  now exists c.
Qed.

Lemma sanitizeFileName_doubled (stem : jsstring) (stamps : list jsstring)
      (p d : code_unit) (fs : jsstring) :
  trim stem = stem ->
  stamps <> [] -> Forall is_stamp stamps ->
  either_case "p" "P" p = true -> either_case "d" "D" d = true ->
  2 <= length fs -> forallb (either_case "f" "F") fs = true ->
  sanitizeFileName (Some (stem ++ concat stamps ++ unit_of "." :: p :: d :: fs))
  = stem ++ concat stamps ++ str ".pdf".
Proof.
  intros Htrim Hne Hst Hp Hd Hlen Hfs.
  destruct (concat_stamps_ends stamps Hne Hst) as ((rest & Hfirst) & c & Hlast & Hc).
  assert (Hfsne : fs <> []) by (intros ->; simpl in Hlen; lia).
  assert (Hcne : concat stamps <> []) by (rewrite Hfirst; discriminate).
  rewrite app_assoc.
  destruct ((stem ++ concat stamps) ++ unit_of "." :: p :: d :: fs)
    as [| c0 name] eqn:Hname.
  { apply app_eq_nil in Hname. destruct Hname as [_ Hname]. discriminate Hname. }
  cbn [sanitizeFileName]. rewrite <- Hname.
  rewrite (replace_none _ timestamp_regex)
    by now apply exec_timestamp_regex_doubled.
  destruct (pdf_regex_match p d fs Hp Hd Hfsne Hfs) as [g Hg].
  rewrite (replace_suffix (stem ++ concat stamps) _ pdf_regex g); [| | exact Hg].
  - rewrite trim_fixed; [now rewrite <- app_assoc | |].
    + apply trim_fixed_first in Htrim.
      destruct stem as [| s0 stem]; [| exact Htrim].
      cbn [app]. rewrite Hfirst. reflexivity.
    + intros c' Hc'. rewrite last_unit_app, Hlast in Hc' by assumption.
      inversion Hc'; subst c'. now apply digit_not_white_space.
  - intros n Hn.
    destruct (skipn_stem n (stem ++ concat stamps) (unit_of "." :: p :: d :: fs) Hn)
      as (x & -> & Hx & _).
    now apply run_pdf_regex_inside.
Qed.

(** X13.  [sanitizeFileName] is not idempotent.  A name made of a stem, time
    stamps and an extension [.pdff] (two or more [f], in either case) keeps
    its time stamps, because the first expression wants exactly [.pdf] at the
    end; only the extension is normalised.  Sanitizing the result once more
    removes the stamps. *)
Theorem sanitizeFileName_not_idempotent :
  forall (stem : jsstring) (stamps : list jsstring) (p d : code_unit) (fs : jsstring),
    trim stem = stem ->
    (forall c, last_unit stem = Some c ->
               digit c = false /\ either_case "f" "F" c = false) ->
    stamps <> [] -> Forall is_stamp stamps ->
    either_case "p" "P" p = true -> either_case "d" "D" d = true ->
    2 <= length fs -> forallb (either_case "f" "F") fs = true ->
    let once :=
      sanitizeFileName (Some (stem ++ concat stamps ++ unit_of "." :: p :: d :: fs)) in
    once = stem ++ concat stamps ++ str ".pdf" /\
    sanitizeFileName (Some once) = stem ++ str ".pdf" /\
    sanitizeFileName (Some once) <> once.
Proof.
  intros stem stamps p d fs Htrim Hlast Hne Hst Hp Hd Hlen Hfs once.
  assert (Honce : once = stem ++ concat stamps ++ str ".pdf")
    by now apply sanitizeFileName_doubled.
  assert (Htwice : sanitizeFileName (Some once) = stem ++ str ".pdf").
  { rewrite Honce.
    destruct (stem ++ concat stamps ++ str ".pdf") as [| c0 name] eqn:Hname.
    { apply app_eq_nil in Hname. destruct Hname as [_ Hname].
      apply app_eq_nil in Hname. destruct Hname as [_ Hname]. discriminate Hname. }
    cbn [sanitizeFileName]. rewrite <- Hname.
    destruct (timestamp_regex_match stamps (unit_of "p") (unit_of "d") (unit_of "f")
                Hne Hst eq_refl eq_refl eq_refl) as [g Hg].
    rewrite (replace_suffix stem _ timestamp_regex g); [| | exact Hg].
    - rewrite (replace_none _ pdf_regex); [now rewrite Htrim |].
      apply exec_pdf_regex_None. intros c Hc. now apply Hlast.
    - intros n Hn.
      destruct (skipn_stem n stem (concat stamps ++ str ".pdf") Hn)
        as (a & -> & Ha & Hla).
      apply run_timestamp_regex_inside; try assumption.
      intros c Hc. rewrite Hla in Hc. now apply Hlast. }
  split; [exact Honce |]. split; [exact Htwice |].
  rewrite Htwice, Honce. intros H. apply app_inv_head in H.
  apply (f_equal (@length _)) in H. rewrite length_app in H.
  destruct (concat_stamps_ends stamps Hne Hst) as ((rest & Hfirst) & _).
  rewrite Hfirst in H. simpl in H. lia.
Qed.

Lemma sanitizeFileName_not_idempotent_witness :
  let once :=
    sanitizeFileName
      (Some (str "Report" ++ concat [str "_20250612_101500"]
             ++ unit_of "." :: unit_of "p" :: unit_of "d" :: str "ff")) in
  once = str "Report" ++ concat [str "_20250612_101500"] ++ str ".pdf" /\
  sanitizeFileName (Some once) = str "Report" ++ str ".pdf" /\
  sanitizeFileName (Some once) <> once.
Proof.
  apply (sanitizeFileName_not_idempotent
           (str "Report") [str "_20250612_101500"] (unit_of "p") (unit_of "d")
           (str "ff")).
  - reflexivity.
  - intros c H. inversion H. split; reflexivity.
  - discriminate.
  - repeat constructor.
    exists (str "20250612"), (str "101500"), []. repeat split. now left.
  - reflexivity.
  - reflexivity.
  - simpl. lia.
  - reflexivity.
Defined.

(** ** The server *)

(** The identifier [extractFileId] returns is never the empty string, so the
    test [!fileId] of the handler refuses [null] only. *)
Lemma extractFileId_not_empty (link id : jsstring) :
  extractFileId link = Some id -> id <> [].
Proof.
  unfold extractFileId, exec. intros H.
  destruct (exec_from file_id_regex 0 link) as [m |] eqn:He; [| discriminate H].
  apply exec_from_Some in He. destruct He as (n & _ & _ & Hrun & _).
  rewrite run_file_id_regex in Hrun.
  destruct (file_id_at (skipn n link)) as [id' |] eqn:Hat; [| discriminate Hrun].
  inversion Hrun as [[Hrest Hg]]. rewrite <- Hg in H. cbn in H.
  inversion H; subst id'.
  apply file_id_at_Some in Hat. now destruct Hat as (post & _ & Hne & _).
Qed.

Section Handler.

Variables World Credentials Client Buffer Foreign : Type.
Variable services : Services World Credentials Client Buffer Foreign.

Ltac unfold_locals := repeat match goal with x := _ |- _ => subst x end.

Ltac failed_after before c w :=
  intros [= <- <-]; cbn [world calls];
  exists (before ++ [c]); split;
  [ unfold_locals; rewrite <- ?app_assoc; reflexivity
  | right; exists before, c, w; unfold_locals; repeat split;
    cbn [replay perform failure app];
    repeat match goal with
           | E : _ = (_, _) |- _ => rewrite E; clear E; cbn [replay perform failure app]
           end;
    reflexivity ].

Lemma process_preview_outcome (fileId : jsstring) (row : number) (text : jsstring)
      (st st' : State World Credentials Client Buffer) (r : Result Foreign Response) :
  process_preview services fileId row text st = (st', r) ->
  exists made : list (Call Credentials Client Buffer),
    calls st' = calls st ++ made /\
    match r with
    | Ok response =>
        exists base64 credentials auth name original processed uploaded
               w1 w2 w3 w4 w5 w6,
          GOOGLE_CREDENTIALS_BASE64 services = Some base64 /\
          parse_credentials services base64 = Ok credentials /\
          getClient services credentials [str "https://www.googleapis.com/auth/drive"]
            (world st) = (w1, Ok auth) /\
          getAccessToken services auth w1 = (w2, Ok tt) /\
          files_get services auth fileId (str "name") w2 = (w3, Ok name) /\
          axios_get services
            (str "https://drive.google.com/uc?export=download&id=" ++ fileId)
            (str "arraybuffer") w3 = (w4, Ok original) /\
          generateSpreadPdf services original w4 = (w5, Ok processed) /\
          files_create services auth (upload_name name text)
            [str "1TGTQSdxLcewHaa8MSCs6DqHV1bcyDwq0"] (str "application/pdf")
            processed (str "id") w5 = (w6, Ok uploaded) /\
          permissions_create services auth uploaded (str "reader") (str "anyone") w6
          = (world st', Ok tt) /\
          made = [GetClient credentials [str "https://www.googleapis.com/auth/drive"];
                  GetAccessToken auth;
                  FilesGet auth fileId (str "name");
                  AxiosGet (str "https://drive.google.com/uc?export=download&id="
                            ++ fileId) (str "arraybuffer");
                  GenerateSpreadPdf original;
                  FilesCreate auth (upload_name name text)
                    [str "1TGTQSdxLcewHaa8MSCs6DqHV1bcyDwq0"] (str "application/pdf")
                    processed (str "id");
                  PermissionsCreate auth uploaded (str "reader") (str "anyone")] /\
          replay services made (world st) = (world st', None) /\
          response = mkResponse 200
                       (LinkBody (str "https://drive.google.com/file/d/" ++ uploaded
                                  ++ str "/view?usp=sharing") row)
    | Fail err =>
        (made = [] /\ world st' = world st /\ no_credentials services err) \/
        (exists before c w,
            made = before ++ [c] /\
            map call_name made = firstn (length made) call_order /\
            replay services before (world st) = (w, None) /\
            perform services c w = (world st', Some err))
    end.
Proof.
  destruct st as [w0 cs].
  unfold process_preview, authenticate, try_catch, await, call, lift, resolve, throw,
    no_credentials.
  cbn [world calls].
  destruct (GOOGLE_CREDENTIALS_BASE64 services) as [[| b0 base64] |] eqn:Henv;
    try (intros [= <- <-]; exists []; split;
         [symmetry; apply app_nil_r | left; auto]).
  cbn beta iota.
  destruct (parse_credentials services (b0 :: base64)) as [credentials | e] eqn:Hparse;
    cbn beta iota delta [world calls];
    try (intros [= <- <-]; exists []; split;
         [symmetry; apply app_nil_r | left; auto]).
  set (scopes := [str "https://www.googleapis.com/auth/drive"]).
  destruct (getClient services credentials scopes w0) as [w1 [auth | e]] eqn:H1;
    cbn beta iota delta [world calls];
    [| failed_after (@nil (Call Credentials Client Buffer))
         (@GetClient Credentials Client Buffer credentials scopes) w0].
  destruct (getAccessToken services auth w1) as [w2 [[] | e]] eqn:H2;
    cbn beta iota delta [world calls];
    [| failed_after [@GetClient Credentials Client Buffer credentials scopes]
         (@GetAccessToken Credentials Client Buffer auth) w1].
  destruct (files_get services auth fileId (str "name") w2) as [w3 [name | e]] eqn:H3;
    cbn beta iota delta [world calls];
    [| failed_after [@GetClient Credentials Client Buffer credentials scopes;
                     GetAccessToken auth]
         (@FilesGet Credentials Client Buffer auth fileId (str "name")) w2].
  set (downloadUrl := str "https://drive.google.com/uc?export=download&id=" ++ fileId).
  set (originalName := sanitizeFileName _).
  set (parents := [str "1TGTQSdxLcewHaa8MSCs6DqHV1bcyDwq0"]).
  pose (authenticated := [@GetClient Credentials Client Buffer credentials scopes;
                          GetAccessToken auth]).
  destruct (axios_get services downloadUrl (str "arraybuffer") w3)
    as [w4 [originalBuffer | e]] eqn:H4;
    cbn beta iota delta [world calls];
    [| failed_after (authenticated ++ [FilesGet auth fileId (str "name")])
         (@AxiosGet Credentials Client Buffer downloadUrl (str "arraybuffer")) w3].
  destruct (generateSpreadPdf services originalBuffer w4)
    as [w5 [processedBuffer | e]] eqn:H5;
    cbn beta iota delta [world calls];
    [| failed_after (authenticated ++ [FilesGet auth fileId (str "name");
                                       AxiosGet downloadUrl (str "arraybuffer")])
         (@GenerateSpreadPdf Credentials Client Buffer originalBuffer) w4].
  destruct (files_create services auth originalName parents (str "application/pdf")
              processedBuffer (str "id") w5) as [w6 [uploadedFileId | e]] eqn:H6;
    cbn beta iota delta [world calls];
    [| failed_after (authenticated ++ [FilesGet auth fileId (str "name");
                                       AxiosGet downloadUrl (str "arraybuffer");
                                       GenerateSpreadPdf originalBuffer])
         (@FilesCreate Credentials Client Buffer auth originalName parents
            (str "application/pdf") processedBuffer (str "id")) w5].
  destruct (permissions_create services auth uploadedFileId (str "reader")
              (str "anyone") w6) as [w7 [[] | e]] eqn:H7;
    cbn beta iota delta [world calls];
    [| failed_after (authenticated ++ [FilesGet auth fileId (str "name");
                                       AxiosGet downloadUrl (str "arraybuffer");
                                       GenerateSpreadPdf originalBuffer;
                                       FilesCreate auth originalName parents
                                         (str "application/pdf") processedBuffer
                                         (str "id")])
         (@PermissionsCreate Credentials Client Buffer auth uploadedFileId
            (str "reader") (str "anyone")) w6].
  intros [= <- <-]; cbn [world calls].
  exists (authenticated ++ [FilesGet auth fileId (str "name");
                            AxiosGet downloadUrl (str "arraybuffer");
                            GenerateSpreadPdf originalBuffer;
                            FilesCreate auth originalName parents
                              (str "application/pdf") processedBuffer (str "id");
                            PermissionsCreate auth uploadedFileId (str "reader")
                              (str "anyone")]).
  split; [unfold_locals; rewrite <- ?app_assoc; reflexivity |].
  exists (b0 :: base64), credentials, auth, name, originalBuffer, processedBuffer,
    uploadedFileId, w1, w2, w3, w4, w5, w6.
  unfold_locals. unfold upload_name.
  repeat (split; [first [reflexivity | assumption] |]).
  split; [| reflexivity].
  cbn [replay perform failure app].
  rewrite H1; cbn [replay perform failure]. rewrite H2; cbn [replay perform failure].
  rewrite H3; cbn [replay perform failure]. rewrite H4; cbn [replay perform failure].
  rewrite H5; cbn [replay perform failure]. rewrite H6; cbn [replay perform failure].
  rewrite H7. reflexivity.
Qed.

End Handler.

Arguments process_preview_outcome {World Credentials Client Buffer Foreign} services
  fileId row text st st' r _.

(** The name of an upload is a stem followed by [.pdf], and the stem has no
    white space at either end: neither a name from Drive that is taken nor
    the name made up from the row is empty. *)
Lemma upload_name_shape (name : option jsstring) (text : jsstring) :
  exists stem : jsstring, upload_name name text = stem ++ str ".pdf" /\ trim stem = stem.
Proof.
  unfold upload_name.
  destruct name as [[| c name] |];
    (eexists; split; [reflexivity | apply trim_idempotent]).
Qed.

(** X14.  The code of the handler throws outside its [try] block, so that
    the handler sends no response itself and the promise it returns is
    rejected, in three cases and no other: there is no [req.body] to read
    [link] from; [parseInt(req.body.row, 10)] throws; or the link is a truthy
    value that is not a string (a number, [true], an object or an array) and
    the row parses to a number, upon which [extractFileId] calls a method the
    value does not have.  Everything thrown later is caught, the libraries
    being as [Services] describes them: their calls settle, and what they
    throw is an object whose message the [catch] block can read. *)
Theorem handle_preview_throws_iff :
  forall (World Credentials Client Buffer Foreign : Type)
         (services : Services World Credentials Client Buffer Foreign)
         (body : option RequestBody) (st : State World Credentials Client Buffer),
    snd (handle_preview services body st) = Rejected <->
    (body = None \/
     exists b : RequestBody,
       body = Some b /\
       (req_row b = RowThrows \/
        exists (row : number) (text : jsstring),
          req_row b = RowNumber row text /\
          is_number row = true /\
          truthy (req_link b) = true /\
          forall link : jsstring, req_link b <> JString link)).
Proof.
  intros World Credentials Client Buffer Foreign services [b |] st;
    [| split; [now left | reflexivity]].
  unfold handle_preview.
  destruct (req_row b) as [| row text] eqn:Hrow.
  { split; [intros _; right; exists b; auto | reflexivity]. }
  split.
  - intros H. right. exists b. split; [reflexivity |]. right. exists row, text.
    split; [exact Hrow |].
    destruct (truthy (req_link b)) eqn:Ht; destruct (is_number row) eqn:Hn;
      cbn [negb orb] in H; try discriminate H.
    repeat split. intros link Hlink. rewrite Hlink in H.
    destruct (extractFileId link) as [[| c fileId] |]; try discriminate H.
    destruct (process_preview services _ _ _ st) as [st' [response | err]];
      discriminate H.
  - intros [Hnone | (b' & Hb & Hcase)]; [discriminate Hnone |].
    injection Hb as <-. rewrite Hrow in Hcase.
    destruct Hcase as [Hthrows | (row' & text' & [= <- <-] & Hn & Ht & Hlink)];
      [discriminate Hthrows |].
    rewrite Ht, Hn. cbn [negb orb].
    destruct (req_link b) as [| | v | n | link |]; try reflexivity.
    now destruct (Hlink link).
Qed.

(** X15.  A request the checks refuse reaches nothing outside the process: no
    call is made and the world is as it was.  The run ends with the status
    400 that the handler sends or, in the cases of X14, with the handler's
    promise rejected. *)
Theorem handle_preview_refuses_before_any_call :
  forall (World Credentials Client Buffer Foreign : Type)
         (services : Services World Credentials Client Buffer Foreign)
         (body : option RequestBody) (st : State World Credentials Client Buffer),
    (forall fileId : jsstring, ~ accepted body fileId) ->
    fst (handle_preview services body st) = st /\
    (snd (handle_preview services body st) = Rejected \/
     exists error : jsstring,
       snd (handle_preview services body st)
       = Answered (mkResponse 400 (ErrorBody error))).
Proof.
  intros World Credentials Client Buffer Foreign services [b |] st Hrefused;
    [| split; [reflexivity | now left]].
  unfold handle_preview.
  destruct (req_row b) as [| row text] eqn:Hrow; [split; [reflexivity | now left] |].
  destruct (negb (truthy (req_link b)) || negb (is_number row)) eqn:Hcheck.
  - split; [reflexivity |]. right. eexists. reflexivity.
  - apply orb_false_elim in Hcheck. destruct Hcheck as [_ Hn].
    apply negb_false_iff in Hn.
    destruct (req_link b) as [| | v | n | link |] eqn:Hlink;
      try (split; [reflexivity | now left]).
    destruct (extractFileId link) as [[| c fileId] |] eqn:Hid;
      try (split; [reflexivity |]; right; eexists; reflexivity).
    destruct (Hrefused (c :: fileId)). exists b, link, row, text. auto.
Qed.

(** X16.  A request that passes the checks is always answered, with status 200
    or 500.  The calls it makes are the first ones of the fixed order
    [getClient], [getAccessToken], [files.get], [axios.get],
    [generateSpreadPdf], [files.create], [permissions.create], and nothing
    else touches the world.  With 200 all seven were made and none failed.
    With 500 either the credentials were unusable and no call was made, or every
    call but the last succeeded and the last one threw; [detail] is the
    message of the very value thrown.  Nothing is undone: a failure of
    [permissions.create] leaves the processed file uploaded. *)
Theorem handle_preview_accepted_request :
  forall (World Credentials Client Buffer Foreign : Type)
         (services : Services World Credentials Client Buffer Foreign)
         (body : option RequestBody) (fileId : jsstring)
         (st : State World Credentials Client Buffer),
    accepted body fileId ->
    exists (st' : State World Credentials Client Buffer) (response : Response)
           (made : list (Call Credentials Client Buffer)),
      handle_preview services body st = (st', Answered response) /\
      calls st' = calls st ++ made /\
      map call_name made = firstn (length made) call_order /\
      ((status response = 200 /\ length made = 7 /\
        replay services made (world st) = (world st', None)) \/
       (exists err : Thrown Foreign,
           response = mkResponse 500
                        (FailureBody (str "Failed to process and upload PDF.")
                                     (message services err)) /\
           ((made = [] /\ world st' = world st /\ no_credentials services err) \/
            (exists before c w,
                made = before ++ [c] /\
                replay services before (world st) = (w, None) /\
                perform services c w = (world st', Some err))))).
Proof.
  intros World Credentials Client Buffer Foreign services body fileId st
         (b & link & row & text & -> & Hlink & Hid & Hrow & Hn).
  unfold handle_preview. rewrite Hlink, Hrow, Hn, Hid.
  assert (Ht : truthy (JString link) = true).
  { destruct link; [discriminate Hid | reflexivity]. }
  rewrite Ht. cbn [negb orb].
  pose proof (extractFileId_not_empty link fileId Hid) as Hne.
  destruct fileId as [| c0 fileId]; [now elim Hne |].
  destruct (process_preview services (c0 :: fileId) _ _ st)
    as [st' [response | err]] eqn:Hrun;
    apply process_preview_outcome in Hrun; destruct Hrun as (made & Hcalls & Hrun).
  - destruct Hrun as (base64 & credentials & auth & name & original & processed
                      & uploaded & w1 & w2 & w3 & w4 & w5 & w6
                      & _ & _ & _ & _ & _ & _ & _ & _ & _
                      & Hmade & Hreplay & Hresponse).
    exists st', response, made. split; [reflexivity |]. split; [exact Hcalls |].
    subst made response. split; [reflexivity |]. left. auto.
  - eexists st', _, made. split; [reflexivity |]. split; [exact Hcalls |].
    destruct Hrun as [(Hmade & Hworld & Hcred) | (before & c & w & Hmade & Hnames & Hbefore & Hlast)].
    + subst made. split; [reflexivity |]. right. exists err. split; [reflexivity |].
      left. auto.
    + split; [exact Hnames |]. right. exists err. split; [reflexivity |].
      right. exists before, c, w. auto.
Qed.

(** X17.  Behind every answer with status 200 there is a request that passed
    the checks and a chain of seven calls that all succeeded, each fed with what
    the ones before it returned.  The identifier taken from the link is the
    one whose name is asked for and whose content is downloaded; what was
    downloaded is what [generateSpreadPdf] receives, and what it returns is
    what is uploaded, by the client that obtained the token, to the fixed
    folder, as [application/pdf], under the sanitized form of the name Drive
    gave (or of [Processed_Row_<row>.pdf] when it gave none), a trimmed stem
    followed by [.pdf].  The file made readable by anyone is the one
    [files.create] returned, and the link answered is built around that same
    identifier, with the parsed row.  Sent back with the same row, that link
    passes the checks again and yields the uploaded identifier, whenever
    Drive's identifier is made of letters, digits, [_] and [-]. *)
Theorem handle_preview_success :
  forall (World Credentials Client Buffer Foreign : Type)
         (services : Services World Credentials Client Buffer Foreign)
         (body : option RequestBody) (st st' : State World Credentials Client Buffer)
         (link : jsstring) (row : number),
    handle_preview services body st
    = (st', Answered (mkResponse 200 (LinkBody link row))) ->
    exists (b : RequestBody) (link0 fileId text base64 : jsstring)
           (credentials : Credentials) (auth : Client) (name : option jsstring)
           (original processed : Buffer) (stem uploaded : jsstring)
           (w1 w2 w3 w4 w5 w6 : World),
      body = Some b /\
      req_link b = JString link0 /\
      extractFileId link0 = Some fileId /\
      req_row b = RowNumber row text /\
      is_number row = true /\
      GOOGLE_CREDENTIALS_BASE64 services = Some base64 /\
      parse_credentials services base64 = Ok credentials /\
      getClient services credentials [str "https://www.googleapis.com/auth/drive"]
        (world st) = (w1, Ok auth) /\
      getAccessToken services auth w1 = (w2, Ok tt) /\
      files_get services auth fileId (str "name") w2 = (w3, Ok name) /\
      axios_get services
        (str "https://drive.google.com/uc?export=download&id=" ++ fileId)
        (str "arraybuffer") w3 = (w4, Ok original) /\
      generateSpreadPdf services original w4 = (w5, Ok processed) /\
      files_create services auth (stem ++ str ".pdf")
        [str "1TGTQSdxLcewHaa8MSCs6DqHV1bcyDwq0"] (str "application/pdf")
        processed (str "id") w5 = (w6, Ok uploaded) /\
      permissions_create services auth uploaded (str "reader") (str "anyone") w6
      = (world st', Ok tt) /\
      stem ++ str ".pdf" = upload_name name text /\
      trim stem = stem /\
      calls st'
      = calls st ++
        [GetClient credentials [str "https://www.googleapis.com/auth/drive"];
         GetAccessToken auth;
         FilesGet auth fileId (str "name");
         AxiosGet (str "https://drive.google.com/uc?export=download&id=" ++ fileId)
           (str "arraybuffer");
         GenerateSpreadPdf original;
         FilesCreate auth (stem ++ str ".pdf") [str "1TGTQSdxLcewHaa8MSCs6DqHV1bcyDwq0"]
           (str "application/pdf") processed (str "id");
         PermissionsCreate auth uploaded (str "reader") (str "anyone")] /\
      link = str "https://drive.google.com/file/d/" ++ uploaded
             ++ str "/view?usp=sharing" /\
      (uploaded <> [] -> forallb id_class uploaded = true ->
       accepted (Some (mkBody (JString link) (req_row b))) uploaded).
Proof.
  intros World Credentials Client Buffer Foreign services [b |] st st' link row;
    [| discriminate].
  unfold handle_preview.
  destruct (req_row b) as [| row0 text] eqn:Hrow; [discriminate |].
  destruct (negb (truthy (req_link b)) || negb (is_number row0)) eqn:Hcheck;
    [discriminate |].
  apply orb_false_elim in Hcheck. destruct Hcheck as [_ Hn].
  apply negb_false_iff in Hn.
  destruct (req_link b) as [| | v | n | link0 |] eqn:Hlink; try discriminate.
  destruct (extractFileId link0) as [[| c0 fileId] |] eqn:Hid; try discriminate.
  destruct (process_preview services (c0 :: fileId) _ _ st)
    as [st1 [response | err]] eqn:Hrun; [| discriminate].
  intros [= -> ->].
  apply process_preview_outcome in Hrun.
  destruct Hrun as (made & Hcalls & base64 & credentials & auth & name & original
                    & processed & uploaded & w1 & w2 & w3 & w4 & w5 & w6
                    & Henv & Hparse & H1 & H2 & H3 & H4 & H5 & H6 & H7
                    & Hmade & _ & [= -> ->]).
  destruct (upload_name_shape name text) as (stem & Hname & Hstem).
  rewrite Hname in H6, Hmade.
  exists b, link0, (c0 :: fileId), text, base64, credentials, auth, name, original,
    processed, stem, uploaded, w1, w2, w3, w4, w5, w6.
  repeat (split; [first [reflexivity | assumption | now symmetry] |]).
  split; [now rewrite Hcalls, Hmade |].
  split; [reflexivity |].
  intros Hne Hall. rewrite Hrow.
  exists (mkBody (JString (str "https://drive.google.com/file/d/" ++ uploaded
                           ++ str "/view?usp=sharing")) (RowNumber row0 text)),
    (str "https://drive.google.com/file/d/" ++ uploaded ++ str "/view?usp=sharing"),
    row0, text.
  split; [reflexivity |]. split; [reflexivity |].
  split; [| split; [reflexivity | exact Hn]].
  change (str "https://drive.google.com/file/d/" ++ uploaded ++ str "/view?usp=sharing")
    with (str "https://drive.google.com/file"
          ++ str "/d/" ++ uploaded ++ str "/view?usp=sharing").
  apply extractFileId_at; try assumption.
  - reflexivity.
  - intros k Hk. cbn [str length] in Hk.
    do 29 (destruct k as [| k]; [reflexivity |]). lia.
Qed.

(** X18.  Started without [GOOGLE_CREDENTIALS_BASE64], or with an empty one,
    the server answers every request that passes the checks with status 500
    and detail [Missing base64 env var], and makes no call at all. *)
Theorem handle_preview_without_credentials :
  forall (World Credentials Client Buffer Foreign : Type)
         (services : Services World Credentials Client Buffer Foreign)
         (body : option RequestBody) (fileId : jsstring)
         (st : State World Credentials Client Buffer),
    accepted body fileId ->
    GOOGLE_CREDENTIALS_BASE64 services = None
    \/ GOOGLE_CREDENTIALS_BASE64 services = Some [] ->
    handle_preview services body st
    = (st, Answered (mkResponse 500
                       (FailureBody (str "Failed to process and upload PDF.")
                                    (Some (str "Missing base64 env var"))))).
Proof.
  intros World Credentials Client Buffer Foreign services body fileId st
         (b & link & row & text & -> & Hlink & Hid & Hrow & Hn) Henv.
  unfold handle_preview. rewrite Hlink, Hrow, Hn, Hid.
  assert (Ht : truthy (JString link) = true).
  { destruct link; [discriminate Hid | reflexivity]. }
  rewrite Ht. cbn [negb orb].
  pose proof (extractFileId_not_empty link fileId Hid) as Hne.
  destruct fileId as [| c0 fileId]; [now elim Hne |].
  unfold process_preview, authenticate, try_catch, await, throw.
  destruct Henv as [-> | ->]; reflexivity.
Qed.

(** *** Examples *)

Lemma handle_preview_refuses_before_any_call_witness :
  (forall fileId : jsstring, ~ accepted foreign_request fileId) /\
  fst (handle_preview (example_drive (Some (str "e30=")) (Ok tt)) foreign_request
         (mkState 0 []))
  = mkState 0 [] /\
  (snd (handle_preview (example_drive (Some (str "e30=")) (Ok tt)) foreign_request
          (mkState 0 []))
   = Rejected \/
   exists error : jsstring,
     snd (handle_preview (example_drive (Some (str "e30=")) (Ok tt)) foreign_request
            (mkState 0 []))
     = Answered (mkResponse 400 (ErrorBody error))).
Proof.
  assert (H : forall fileId : jsstring, ~ accepted foreign_request fileId).
  { intros fileId (b & link & row & text & [= <-] & [= <-] & Hid & _).
    vm_compute in Hid. discriminate Hid. }
  split; [exact H |].
  apply (handle_preview_refuses_before_any_call _ _ _ _ _
           (example_drive (Some (str "e30=")) (Ok tt)) foreign_request (mkState 0 [])).
  exact H.
Defined.

Lemma handle_preview_accepted_request_witness :
  accepted preview_request (str "1TGTQSdx_Lce-w") /\
  exists (st' : State nat jsstring jsstring (list N)) (response : Response)
         (made : list (Call jsstring jsstring (list N))),
    handle_preview (example_drive (Some (str "e30=")) (Fail (Raised (str "quota"))))
      preview_request (mkState 0 [])
    = (st', Answered response) /\
    calls st' = made /\
    map call_name made = firstn (length made) call_order /\
    ((status response = 200 /\ length made = 7 /\
      replay (example_drive (Some (str "e30=")) (Fail (Raised (str "quota")))) made
        0
      = (world st', None)) \/
     (exists err : Thrown jsstring,
         response = mkResponse 500
                      (FailureBody (str "Failed to process and upload PDF.")
                         (message (example_drive (Some (str "e30="))
                                     (Fail (Raised (str "quota")))) err)) /\
         ((made = [] /\ world st' = 0 /\
           no_credentials (example_drive (Some (str "e30="))
                             (Fail (Raised (str "quota")))) err) \/
          (exists before c w,
              made = before ++ [c] /\
              replay (example_drive (Some (str "e30=")) (Fail (Raised (str "quota"))))
                before 0
              = (w, None) /\
              perform (example_drive (Some (str "e30=")) (Fail (Raised (str "quota"))))
                c w
              = (world st', Some err))))).
Proof.
  split; [exists (mkBody
                    (JString (str "https://drive.google.com/file/d/1TGTQSdx_Lce-w/view?usp=sharing"))
                    (RowNumber 7 (str "7"))),
            (str "https://drive.google.com/file/d/1TGTQSdx_Lce-w/view?usp=sharing"),
            7%float, (str "7");
          repeat split |].
  apply (handle_preview_accepted_request _ _ _ _ _
           (example_drive (Some (str "e30=")) (Fail (Raised (str "quota"))))
           preview_request (str "1TGTQSdx_Lce-w") (mkState 0 [])).
  exists (mkBody
            (JString (str "https://drive.google.com/file/d/1TGTQSdx_Lce-w/view?usp=sharing"))
            (RowNumber 7 (str "7"))),
    (str "https://drive.google.com/file/d/1TGTQSdx_Lce-w/view?usp=sharing"),
    7%float, (str "7").
  repeat split.
Defined.

Lemma handle_preview_success_witness :
  handle_preview (example_drive (Some (str "e30=")) (Ok tt)) preview_request
    (mkState 0 [])
  = (mkState 1 preview_calls,
     Answered (mkResponse 200
                 (LinkBody (str "https://drive.google.com/file/d/new-file_1/view?usp=sharing")
                           7))) /\
  exists (b : RequestBody) (link0 fileId text base64 credentials auth : jsstring)
         (name : option jsstring) (original processed : list N)
         (stem uploaded : jsstring) (w1 w2 w3 w4 w5 w6 : nat),
    preview_request = Some b /\
    req_link b = JString link0 /\
    extractFileId link0 = Some fileId /\
    req_row b = RowNumber 7 text /\
    is_number 7 = true /\
    GOOGLE_CREDENTIALS_BASE64 (example_drive (Some (str "e30=")) (Ok tt)) = Some base64 /\
    parse_credentials (example_drive (Some (str "e30=")) (Ok tt)) base64
    = Ok credentials /\
    getClient (example_drive (Some (str "e30=")) (Ok tt)) credentials
      [str "https://www.googleapis.com/auth/drive"] 0 = (w1, Ok auth) /\
    getAccessToken (example_drive (Some (str "e30=")) (Ok tt)) auth w1 = (w2, Ok tt) /\
    files_get (example_drive (Some (str "e30=")) (Ok tt)) auth fileId (str "name") w2
    = (w3, Ok name) /\
    axios_get (example_drive (Some (str "e30=")) (Ok tt))
      (str "https://drive.google.com/uc?export=download&id=" ++ fileId)
      (str "arraybuffer") w3 = (w4, Ok original) /\
    generateSpreadPdf (example_drive (Some (str "e30=")) (Ok tt)) original w4
    = (w5, Ok processed) /\
    files_create (example_drive (Some (str "e30=")) (Ok tt)) auth (stem ++ str ".pdf")
      [str "1TGTQSdxLcewHaa8MSCs6DqHV1bcyDwq0"] (str "application/pdf")
      processed (str "id") w5 = (w6, Ok uploaded) /\
    permissions_create (example_drive (Some (str "e30=")) (Ok tt)) auth uploaded
      (str "reader") (str "anyone") w6
    = (1, Ok tt) /\
    stem ++ str ".pdf" = upload_name name text /\
    trim stem = stem /\
    preview_calls
    = [GetClient credentials [str "https://www.googleapis.com/auth/drive"];
       GetAccessToken auth;
       FilesGet auth fileId (str "name");
       AxiosGet (str "https://drive.google.com/uc?export=download&id=" ++ fileId)
         (str "arraybuffer");
       GenerateSpreadPdf original;
       FilesCreate auth (stem ++ str ".pdf") [str "1TGTQSdxLcewHaa8MSCs6DqHV1bcyDwq0"]
         (str "application/pdf") processed (str "id");
       PermissionsCreate auth uploaded (str "reader") (str "anyone")] /\
    str "https://drive.google.com/file/d/new-file_1/view?usp=sharing"
    = str "https://drive.google.com/file/d/" ++ uploaded ++ str "/view?usp=sharing" /\
    (uploaded <> [] -> forallb id_class uploaded = true ->
     accepted
       (Some (mkBody
                (JString (str "https://drive.google.com/file/d/new-file_1/view?usp=sharing"))
                (req_row b)))
       uploaded).
Proof.
  split; [vm_compute; reflexivity |].
  apply (handle_preview_success _ _ _ _ _
           (example_drive (Some (str "e30=")) (Ok tt)) preview_request
           (mkState 0 []) (mkState 1 preview_calls)).
  vm_compute. reflexivity.
Defined.

Lemma handle_preview_without_credentials_witness :
  handle_preview (example_drive None (Ok tt)) preview_request (mkState 0 [])
  = (mkState 0 [],
     Answered (mkResponse 500
                 (FailureBody (str "Failed to process and upload PDF.")
                              (Some (str "Missing base64 env var"))))).
Proof.
  apply (handle_preview_without_credentials _ _ _ _ _
           (example_drive None (Ok tt)) preview_request (str "1TGTQSdx_Lce-w")
           (mkState 0 [])).
  - exists (mkBody
              (JString (str "https://drive.google.com/file/d/1TGTQSdx_Lce-w/view?usp=sharing"))
              (RowNumber 7 (str "7"))),
      (str "https://drive.google.com/file/d/1TGTQSdx_Lce-w/view?usp=sharing"),
      7%float, (str "7").
    repeat split.
  - left. reflexivity.
Defined.
(** ** Examples for the theorems on strings *)

Lemma extractFileId_first_identifier_witness :
  extractFileId preview_link = Some (str "1TGTQSdx_Lce-w") /\
  exists pre post : jsstring,
    preview_link = pre ++ str "/d/" ++ str "1TGTQSdx_Lce-w" ++ post /\
    str "1TGTQSdx_Lce-w" <> [] /\
    forallb id_class (str "1TGTQSdx_Lce-w") = true /\
    match post with c :: _ => id_class c = false | [] => True end /\
    (forall n, n < length pre -> file_id_at (skipn n preview_link) = None).
Proof.
  split; [reflexivity |].
  apply (extractFileId_first_identifier preview_link (str "1TGTQSdx_Lce-w")).
  reflexivity.
Defined.

Lemma extractFileId_of_public_url_witness :
  extractFileId (str "https://drive.google.com/file/d/" ++ str "1TGTQSdx_Lce-w"
                 ++ str "/view?usp=sharing") = Some (str "1TGTQSdx_Lce-w").
Proof.
  apply (extractFileId_of_public_url (str "1TGTQSdx_Lce-w")).
  - discriminate.
  - reflexivity.
Defined.

Lemma sanitizeFileName_keeps_other_names_witness :
  sanitizeFileName (Some (str " notes.txt ")) = trim (str " notes.txt ") ++ str ".pdf".
Proof.
  apply (sanitizeFileName_keeps_other_names (str " notes.txt ")).
  - discriminate.
  - intros c H. inversion H. reflexivity.
Defined.

Lemma sanitizeFileName_strips_time_stamps_witness :
  sanitizeFileName
    (Some (str "Report" ++ concat [str "_20250612_101500_2"; str "_20250613_090000"]
           ++ [unit_of "."; unit_of "P"; unit_of "D"; unit_of "F"]))
  = str "Report" ++ str ".pdf".
Proof.
  apply (sanitizeFileName_strips_time_stamps
           (str "Report") [str "_20250612_101500_2"; str "_20250613_090000"]
           (unit_of "P") (unit_of "D") (unit_of "F")).
  - reflexivity.
  - intros c H. inversion H. split; reflexivity.
  - discriminate.
  - repeat constructor.
    + exists (str "20250612"), (str "101500"), (str "_2").
      repeat split. right. exists (str "2"). repeat split. discriminate.
    + exists (str "20250613"), (str "090000"), []. repeat split. now left.
  - reflexivity.
  - reflexivity.
  - reflexivity.
Defined.

Lemma sanitizeFileName_normalises_extension_witness :
  sanitizeFileName (Some (str "My invoice" ++ unit_of "." :: unit_of "P" :: unit_of "d"
                          :: str "FfF"))
  = str "My invoice" ++ str ".pdf".
Proof.
  apply (sanitizeFileName_normalises_extension
           (str "My invoice") (str "FfF") (unit_of "P") (unit_of "d")).
  - reflexivity.
  - intros c H. inversion H. reflexivity.
  - reflexivity.
  - reflexivity.
  - discriminate.
  - reflexivity.
Defined.
